(** * tslint-etc: the rules no-unused-declaration and no-unsafe-callback-scope

    A shallow embedding of [source/rules/noUnusedDeclarationRule.ts] and
    [source/rules/noUnsafeCallbackScopeRule.ts].

    - [Ts]: the part of the TypeScript tree, of the type checker and of
      tsutils that the two rules read;
    - [JsMap]: a JavaScript [Map] keyed by node identity (insertion order is
      kept, [forEach] follows it);
    - [NoUnusedDeclaration]: the walker of the first rule;
    - [NoUnsafeCallbackScope]: the walker of the second rule;
    - [Heap], [NoUnusedDeclarationObject], [NoUnsafeCallbackScopeObject] and
      [Lint]: the walkers as objects that [new Walker] builds, and a run of
      the host over several files. *)

From Stdlib Require Import ZArith List String Ascii Bool Arith Lia.
Import ListNotations.
Open Scope string_scope.
Open Scope list_scope.
Set Warnings "-register-all".

(* ===================================================================== *)
(** * Exceptions *)
(* ===================================================================== *)

(** A JavaScript call either returns or throws.  The only exception the
    two rules can raise is the [TypeError] of a property read or a method
    call on [undefined]. *)
Inductive Error : Type := TypeError.

Inductive Result (A : Type) : Type :=
| Ok (a : A)
| Throw (e : Error).

Arguments Ok {A} a.
Arguments Throw {A} e.

Definition bind {A B : Type} (r : Result A) (k : A -> Result B) : Result B :=
  match r with
  | Ok a => k a
  | Throw e => Throw e
  end.

Notation "x <- r ;; k" := (bind r (fun x => k))
  (at level 61, r at next level, right associativity).

(** Running a statement once per element of an array, left to right, the
    way [Array.prototype.forEach] and [ts.forEachChild] do. *)
Fixpoint forEachM {A S : Type} (f : A -> S -> Result S) (l : list A) (s : S)
  : Result S :=
  match l with
  | [] => Ok s
  | a :: l' => s' <- f a s ;; forEachM f l' s'
  end.

(* ===================================================================== *)
(** * The TypeScript tree *)
(* ===================================================================== *)

Module Ts.

(** [ts.SyntaxKind], restricted to the kinds the rules test for, the kinds
    of the declarations they meet and a few expression and statement kinds
    used to build files. *)
Inductive SyntaxKind : Type :=
| SourceFile
| Identifier
| ThisKeyword
| ExportKeyword
| ReadonlyKeyword
| InstanceOfKeyword
| EqualsToken
| NumericLiteral
| ObjectLiteralExpression
| PropertyAssignment
| PropertyAccessExpression
| ElementAccessExpression
| CallExpression
| NewExpression
| TaggedTemplateExpression
| ParenthesizedExpression
| BinaryExpression
| ArrowFunction
| FunctionExpression
| QualifiedName
| TypeReference
| TypeQuery
| Parameter_
| Block
| ExpressionStatement
| ReturnStatement
| ClassDeclaration
| PropertyDeclaration
| MethodDeclaration
| InterfaceDeclaration
| EnumDeclaration
| FunctionDeclaration
| VariableStatement
| VariableDeclarationList
| VariableDeclaration
| ObjectBindingPattern
| ArrayBindingPattern
| BindingElement
| OmittedExpression
| ImportDeclaration
| ImportClause
| NamedImports
| ImportSpecifier
| NamespaceImport.

Definition SyntaxKind_eq_dec (a b : SyntaxKind) : {a = b} + {a <> b}.
Proof. decide equality. Defined.

Definition kind_eqb (a b : SyntaxKind) : bool :=
  if SyntaxKind_eq_dec a b then true else false.

(** A node object.  [id] stands for the identity of the object (what [===]
    and a [Map] keyed by nodes compare), [pos] and [end_] are its span,
    [text] is what [getText()] returns, and [children] lists the properties
    that hold child nodes, under their property names and in the order in
    which [ts.forEachChild] visits them; an array-valued property (such as
    [arguments] or [elements]) contributes one entry per element. *)
Inductive Node : Type :=
  mkNode (id : nat) (kind : SyntaxKind) (pos end_ : Z) (text : string)
         (children : list (string * Node)).

Definition id (n : Node) : nat := let (i, _, _, _, _, _) := n in i.
Definition kind (n : Node) : SyntaxKind := let (_, k, _, _, _, _) := n in k.
Definition pos (n : Node) : Z := let (_, _, p, _, _, _) := n in p.
Definition end_ (n : Node) : Z := let (_, _, _, e, _, _) := n in e.
Definition getText (n : Node) : string := let (_, _, _, _, t, _) := n in t.
Definition children (n : Node) : list (string * Node) :=
  let (_, _, _, _, _, c) := n in c.

(** [node.p] for a property that holds one node, [undefined] as [None]. *)
Fixpoint lookup (p : string) (cs : list (string * Node)) : option Node :=
  match cs with
  | [] => None
  | (q, c) :: cs' => if String.eqb p q then Some c else lookup p cs'
  end.

Definition prop (p : string) (n : Node) : option Node := lookup p (children n).

(** [node.p] for an array-valued property. *)
Definition props (p : string) (n : Node) : list Node :=
  map snd (filter (fun qc => String.eqb p (fst qc)) (children n)).

(** [a === b] on node objects. *)
Definition same (a b : Node) : bool := Nat.eqb (id a) (id b).

(** [a === b] where [b] may be [undefined]. *)
Definition sameOpt (a : Node) (b : option Node) : bool :=
  match b with
  | Some b' => same a b'
  | None => false
  end.

(** The nodes of a tree in the order of a pre-order walk. *)
Fixpoint preorder (n : Node) : list Node :=
  match n with
  | mkNode _ _ _ _ _ cs =>
      n :: (fix go (l : list (string * Node)) : list Node :=
              match l with
              | [] => []
              | (_, c) :: l' => preorder c ++ go l'
              end) cs
  end.

Definition preorderList (cs : list (string * Node)) : list Node :=
  flat_map (fun qc => preorder (snd qc)) cs.

(** ** tsutils *)

Definition isIdentifier (n : Node) : bool := kind_eqb (kind n) Identifier.
Definition isSourceFile (n : Node) : bool := kind_eqb (kind n) SourceFile.
Definition isPropertyAccessExpression (n : Node) : bool :=
  kind_eqb (kind n) PropertyAccessExpression.
Definition isCallExpression (n : Node) : bool := kind_eqb (kind n) CallExpression.
Definition isNewExpression (n : Node) : bool := kind_eqb (kind n) NewExpression.
Definition isTaggedTemplateExpression (n : Node) : bool :=
  kind_eqb (kind n) TaggedTemplateExpression.
Definition isTypeReferenceNode (n : Node) : bool := kind_eqb (kind n) TypeReference.
Definition isQualifiedName (n : Node) : bool := kind_eqb (kind n) QualifiedName.
Definition isImportSpecifier (n : Node) : bool := kind_eqb (kind n) ImportSpecifier.
Definition isNamespaceImport (n : Node) : bool := kind_eqb (kind n) NamespaceImport.
Definition isArrowFunction (n : Node) : bool := kind_eqb (kind n) ArrowFunction.
Definition isFunctionExpression (n : Node) : bool :=
  kind_eqb (kind n) FunctionExpression.

(** A kind test on a node that may be [undefined] ([node.parent] of the
    root): no kind matches. *)
Definition isKindOpt (test : Node -> bool) (n : option Node) : bool :=
  match n with
  | Some n' => test n'
  | None => false
  end.

(** [tsutils.hasModifier(node.modifiers, kind)]. *)
Definition hasModifier (modifiers : list Node) (k : SyntaxKind) : bool :=
  existsb (fun m => kind_eqb (kind m) k) modifiers.

Definition modifiers (n : Node) : list Node := props "modifiers" n.

(** ** The type checker *)

(** [ts.Symbol]: [getDeclarations()] returns an array of declaration nodes
    or [undefined]. *)
Record Symbol : Type := { getDeclarations : option (list Node) }.

(** [ts.Type], reduced to its [flags] bit set. *)
Record Type_ : Type := { flags : Z }.

(** [ts.TypeFlags.EnumLiteral]. *)
Definition EnumLiteral : Z := 1024.

(** [tsutils.isTypeFlagSet(type, flag)]: [(type.flags & flag) !== 0]. *)
Definition isTypeFlagSet (t : Type_) (flag : Z) : bool :=
  negb (Z.eqb (Z.land (flags t) flag) 0).

(** [ts.TypeChecker]: the two queries the rules issue. *)
Record TypeChecker : Type := {
  getSymbolAtLocation : Node -> option Symbol;
  getTypeAtLocation : Node -> Type_
}.

(** [Lint.RuleFailure], reduced to the node it is reported at and its
    message. *)
Record RuleFailure : Type := { failureNode : nat; failureString : string }.

End Ts.

(* ===================================================================== *)
(** * A JavaScript Map keyed by nodes *)
(* ===================================================================== *)

Module JsMap.

(** A key is a node object, given by its identity, or [undefined]: a [Map]
    accepts [undefined] as a key like any other value. *)
Definition Key : Type := option nat.

Definition key_eqb (a b : Key) : bool :=
  match a, b with
  | Some x, Some y => Nat.eqb x y
  | None, None => true
  | _, _ => false
  end.

(** The entries in insertion order. *)
Definition t : Type := list (Key * bool).

Definition empty : t := [].

Fixpoint has (k : Key) (m : t) : bool :=
  match m with
  | [] => false
  | (k', _) :: m' => if key_eqb k k' then true else has k m'
  end.

Fixpoint get (k : Key) (m : t) : option bool :=
  match m with
  | [] => None
  | (k', v) :: m' => if key_eqb k k' then Some v else get k m'
  end.

(** [set] on a key that is present replaces the value and keeps the entry's
    place; on a new key it appends an entry. *)
Fixpoint set (k : Key) (v : bool) (m : t) : t :=
  match m with
  | [] => [(k, v)]
  | (k', v') :: m' =>
      if key_eqb k k' then (k', v) :: m' else (k', v') :: set k v m'
  end.

Definition keys (m : t) : list Key := map fst m.

End JsMap.

(* ===================================================================== *)
(** * no-unused-declaration *)
(* ===================================================================== *)

Module NoUnusedDeclaration.
Import Ts.

Definition FAILURE_STRING : string := "Unused declarations are forbidden".

(** The walker's state: the private [_identifiers] map and the failures
    reported so far (kept by [Lint.RuleWalker]). *)
Record Walker : Type := {
  _identifiers : JsMap.t;
  failures : list RuleFailure
}.

(** [new Walker(sourceFile, options, program)]. *)
Definition newWalker : Walker := {| _identifiers := JsMap.empty; failures := [] |}.

(** The map key of [node.name]: the node, or [undefined]. *)
Definition keyOf (n : option Node) : JsMap.Key := option_map id n.

(** [getIdentifier(declaration)]: [node["name"]]. *)
Definition getIdentifier (node : Node) : option Node := prop "name" node.

(** [this._identifiers.set(k, v)]. *)
Definition setIdentifier (k : JsMap.Key) (v : bool) (w : Walker) : Walker :=
  {| _identifiers := JsMap.set k v (_identifiers w); failures := failures w |}.

(** [this.addFailureAtNode(identifier, message)]: the failure is placed at
    [identifier.getStart()], a [TypeError] when [identifier] is
    [undefined]. *)
Definition addFailureAtNode (identifier : JsMap.Key) (message : string)
  (w : Walker) : Result Walker :=
  match identifier with
  | Some i =>
      Ok {| _identifiers := _identifiers w;
            failures := failures w ++ [{| failureNode := i; failureString := message |}] |}
  | None => Throw TypeError
  end.

(** [onSourceFileEnd]: one failure per entry that is still unused, in the
    map's order. *)
Definition onSourceFileEnd (w : Walker) : Result Walker :=
  forEachM (fun (entry : JsMap.Key * bool) w' =>
              let (identifier, used) := entry in
              if negb used then addFailureAtNode identifier FAILURE_STRING w'
              else Ok w')
           (_identifiers w) w.

(** The keys of the entries that are still unused, in the map's order. *)
Definition unusedKeys (m : JsMap.t) : list JsMap.Key :=
  map fst (filter (fun entry => negb (snd entry)) m).

(** The nodes the failures are reported at. *)
Definition reportedAt (fs : list RuleFailure) : list nat := map failureNode fs.

Section Pass.

(** [this.getTypeChecker()]. *)
Variable typeChecker : TypeChecker.

(** [tsutils.isReassignmentTarget]: whether the node is written to by its
    parent (the left side of an assignment, the operand of [++]). *)
Variable isReassignmentTarget : Node -> bool.

(** [tsutils.forEachDeclaredVariable(declarationList, cb)]: the declarations
    [cb] is called with, in order: each variable declaration or binding
    element of the list that declares one identifier. *)
Variable forEachDeclaredVariable : Node -> list Node.

(** Every [visitX] hook ends in [super.visitX(node)], which walks the
    children of [node]; [super] stands for that call. *)

Definition visitClassDeclaration (node : Node)
  (super : Walker -> Result Walker) (w : Walker) : Result Walker :=
  let name := prop "name" node in
  let w :=
    if negb (hasModifier (modifiers node) ExportKeyword)
    then setIdentifier (keyOf name) false w
    else w in
  super w.

Definition visitEnumDeclaration (node : Node)
  (super : Walker -> Result Walker) (w : Walker) : Result Walker :=
  let name := prop "name" node in
  let w :=
    if negb (hasModifier (modifiers node) ExportKeyword)
    then setIdentifier (keyOf name) false w
    else w in
  super w.

Definition visitFunctionDeclaration (node : Node)
  (super : Walker -> Result Walker) (w : Walker) : Result Walker :=
  let name := prop "name" node in
  let w :=
    match name with
    | Some _ =>
        if negb (hasModifier (modifiers node) ExportKeyword)
        then setIdentifier (keyOf name) false w
        else w
    | None => w
    end in
  super w.

(** The body of [declarations.forEach] in [visitIdentifier]. *)
Definition markDeclaration (declaration : Node) (m : JsMap.t) : JsMap.t :=
  let identifier := keyOf (getIdentifier declaration) in
  let isEnforced := JsMap.has identifier m in
  if isEnforced then JsMap.set identifier true m else m.

Definition visitIdentifier (node : Node)
  (super : Walker -> Result Walker) (w : Walker) : Result Walker :=
  let isDeclaration := JsMap.has (Some (id node)) (_identifiers w) in
  w' <- (if negb isDeclaration && negb (isReassignmentTarget node) then
           match getSymbolAtLocation typeChecker node with
           | None => Throw TypeError          (* symbol.getDeclarations() *)
           | Some symbol =>
               match getDeclarations symbol with
               | None => Throw TypeError      (* declarations.forEach(...) *)
               | Some declarations =>
                   Ok {| _identifiers :=
                           fold_left (fun m d => markDeclaration d m)
                                     declarations (_identifiers w);
                         failures := failures w |}
               end
           end
         else Ok w) ;;
  super w'.

(** The body of [node.elements.forEach] in [visitNamedImports]. *)
Definition registerImportSpecifier (element : Node) (w : Walker) : Walker :=
  let name := prop "name" element in
  let propertyName := prop "propertyName" element in
  let w :=
    match propertyName with
    | Some _ => setIdentifier (keyOf propertyName) true w
    | None => w
    end in
  setIdentifier (keyOf name) false w.

Definition visitNamedImports (node : Node)
  (super : Walker -> Result Walker) (w : Walker) : Result Walker :=
  super (fold_left (fun w' element => registerImportSpecifier element w')
                   (props "elements" node) w).

Definition visitNamespaceImport (node : Node)
  (super : Walker -> Result Walker) (w : Walker) : Result Walker :=
  let name := prop "name" node in
  super (setIdentifier (keyOf name) false w).

Definition visitVariableStatement (node : Node)
  (super : Walker -> Result Walker) (w : Walker) : Result Walker :=
  w' <- (if negb (hasModifier (modifiers node) ExportKeyword) then
           match prop "declarationList" node with
           | None => Throw TypeError          (* declarationList.declarations *)
           | Some declarationList =>
               Ok (fold_left
                     (fun w' declaration =>
                        let name := prop "name" declaration in
                        setIdentifier (keyOf name) false w')
                     (forEachDeclaredVariable declarationList) w)
           end
         else Ok w) ;;
  super w'.

(** [Lint.SyntaxWalker.visitNode]: the hook of the node's kind; a kind
    without a hook of this walker walks the children. *)
Definition dispatch (node : Node) (super : Walker -> Result Walker)
  (w : Walker) : Result Walker :=
  match kind node with
  | ClassDeclaration => visitClassDeclaration node super w
  | EnumDeclaration => visitEnumDeclaration node super w
  | FunctionDeclaration => visitFunctionDeclaration node super w
  | Identifier => visitIdentifier node super w
  | NamedImports => visitNamedImports node super w
  | NamespaceImport => visitNamespaceImport node super w
  | VariableStatement => visitVariableStatement node super w
  | _ => super w
  end.

(** [Walker.visitNode]: [super.visitNode(node)], then [onSourceFileEnd()]
    when the node is the source file. *)
Fixpoint visitNode (node : Node) (w : Walker) {struct node} : Result Walker :=
  match node with
  | mkNode _ _ _ _ _ cs =>
      let walkChildren :=
        (fix walk (l : list (string * Node)) (w0 : Walker) : Result Walker :=
           match l with
           | [] => Ok w0
           | (_, child) :: l' => w1 <- visitNode child w0 ;; walk l' w1
           end) cs in
      w' <- dispatch node walkChildren w ;;
      if isSourceFile node then onSourceFileEnd w' else Ok w'
  end.

(** [Rule.applyWithProgram]: [applyWithWalker(new Walker(...))] walks the
    source file with a new walker and returns its failures. *)
Definition applyWithProgram (sourceFile : Node) : Result (list RuleFailure) :=
  w <- visitNode sourceFile newWalker ;; Ok (failures w).

(** ** What a hook writes to the map

    The definitions below restate the hooks as lists of map writes; they are
    used to reason about a whole pass and are proved equal to the hooks. *)

(** Entering a node: its hook without the walk of the children. *)
Definition enter (node : Node) (w : Walker) : Result Walker :=
  dispatch node (fun w' => Ok w') w.

(** The [set] calls an import specifier causes, in order. *)
Definition importOps (element : Node) : list (JsMap.Key * bool) :=
  match prop "propertyName" element with
  | Some p => [(Some (id p), true)]
  | None => []
  end ++ [(keyOf (prop "name" element), false)].

(** The tokens a node declares: the [set] calls of its hook when no export
    modifier holds them back. *)
Definition declOps (node : Node) : list (JsMap.Key * bool) :=
  match kind node with
  | ClassDeclaration | EnumDeclaration | NamespaceImport =>
      [(keyOf (prop "name" node), false)]
  | FunctionDeclaration =>
      match prop "name" node with
      | Some _ => [(keyOf (prop "name" node), false)]
      | None => []
      end
  | NamedImports => flat_map importOps (props "elements" node)
  | VariableStatement =>
      match prop "declarationList" node with
      | Some declarationList =>
          map (fun declaration => (keyOf (prop "name" declaration), false))
              (forEachDeclaredVariable declarationList)
      | None => []
      end
  | _ => []
  end.

(** A class, enum, function or variable statement under an export
    modifier. *)
Definition isExported (node : Node) : bool :=
  match kind node with
  | ClassDeclaration | EnumDeclaration | FunctionDeclaration
  | VariableStatement => hasModifier (modifiers node) ExportKeyword
  | _ => false
  end.

(** The [set] calls the hook of a node makes. *)
Definition setOps (node : Node) : list (JsMap.Key * bool) :=
  if isExported node then [] else declOps node.

Definition applySets (ops : list (JsMap.Key * bool)) (m : JsMap.t) : JsMap.t :=
  fold_left (fun m' op => JsMap.set (fst op) (snd op) m') ops m.

(** The keys a reference marks as used when they are in the map: the names
    of the declarations of its symbol. *)
Definition markKeys (node : Node) : list JsMap.Key :=
  match kind node with
  | Identifier =>
      if isReassignmentTarget node then []
      else match getSymbolAtLocation typeChecker node with
           | Some symbol =>
               match getDeclarations symbol with
               | Some declarations =>
                   map (fun d => keyOf (getIdentifier d)) declarations
               | None => []
               end
           | None => []
           end
  | _ => []
  end.

(** The symbol of a reference is resolved and has declarations: what
    [visitIdentifier] reads without a guard. *)
Definition resolved (node : Node) : bool :=
  match kind node with
  | Identifier =>
      isReassignmentTarget node ||
      match getSymbolAtLocation typeChecker node with
      | Some symbol =>
          match getDeclarations symbol with
          | Some _ => true
          | None => false
          end
      | None => false
      end
  | _ => true
  end.

(** The structure the hooks rely on: a variable statement has its
    declaration list, and every declaration that is registered has a name
    token. *)
Definition wellFormed (node : Node) : bool :=
  match kind node with
  | VariableStatement =>
      isExported node ||
      match prop "declarationList" node with
      | Some _ => true
      | None => false
      end
  | _ => true
  end
  && negb (existsb (fun op => JsMap.key_eqb (fst op) None) (setOps node)).

(** A source file: the root is the only node of kind [SourceFile]. *)
Definition isFile (sourceFile : Node) : bool :=
  isSourceFile sourceFile
  && forallb (fun x => negb (isSourceFile x)) (preorderList (children sourceFile)).

(** The declarations the rule tracks and exempts when exported: classes,
    enums, functions and the variables of a variable statement. *)
Definition isTrackedDeclaration (node : Node) : bool :=
  match kind node with
  | ClassDeclaration | EnumDeclaration | FunctionDeclaration
  | VariableStatement => true
  | _ => false
  end.

(** [declaration] declares the name token [n] (a node identity). *)
Definition declares (declaration : Node) (n : nat) : Prop :=
  In (Some n, false) (declOps declaration).

(** The name token [n] belongs to [declaration] alone: no other node of the
    file registers or consumes it. *)
Definition ownsToken (sourceFile declaration : Node) (n : nat) : Prop :=
  forall x, In x (preorder sourceFile) ->
            In (Some n) (map fst (declOps x)) -> x = declaration.

(** No node of the file other than the name token itself resolves to a
    declaration named by [n]. *)
Definition neverReferenced (sourceFile : Node) (n : nat) : Prop :=
  forall x, In x (preorder sourceFile) -> id x <> n ->
            ~ In (Some n) (markKeys x).

(** The reference [r] resolves to a declaration whose name token is [n]. *)
Definition resolvesTo (r : Node) (n : nat) : Prop :=
  exists symbol declarations declaration,
    getSymbolAtLocation typeChecker r = Some symbol /\
    getDeclarations symbol = Some declarations /\
    In declaration declarations /\
    keyOf (getIdentifier declaration) = Some n.

(** [r] is a plain reference: an identifier that is no name token of a
    declaration of the file. *)
Definition isReference (sourceFile r : Node) : Prop :=
  kind r = Identifier /\
  forall x, In x (preorder sourceFile) ->
            ~ In (Some (id r)) (map fst (declOps x)).

End Pass.

End NoUnusedDeclaration.

(* ===================================================================== *)
(** * no-unsafe-callback-scope *)
(* ===================================================================== *)

Module NoUnsafeCallbackScope.
Import Ts.

Definition FAILURE_STRING : string := "Unsafe scopes are forbidden".

(** ** The regular expressions of the rule *)

(** The alternatives of [knownGlobalRegExp]. *)
Definition knownGlobals : list string :=
  ["Array"; "BigInt"; "Date"; "Intl"; "JSON"; "Math"; "Number"; "Object";
   "Promise"; "Proxy"; "Reflect"; "String"; "Symbol"; "console"].

(** What is left of [s] after the literal [p], when [s] starts with it. *)
Fixpoint stripPrefix (p s : string) : option string :=
  match p with
  | EmptyString => Some s
  | String a p' =>
      match s with
      | EmptyString => None
      | String b s' => if Ascii.eqb a b then stripPrefix p' s' else None
      end
  end.

(** [/^(a1|a2|...)$/.test(s)]: the match starts at the start of the input,
    tries the alternatives in order, and after the alternative the end of
    the input must follow; an alternative that leaves input over fails and
    the next one is tried. *)
Definition testAnchoredAlternatives (alternatives : list string) (s : string)
  : bool :=
  existsb (fun alternative =>
             match stripPrefix alternative s with
             | Some EmptyString => true
             | _ => false
             end) alternatives.

(** [knownGlobalRegExp.test(s)] for
    [/^(Array|BigInt|Date|Intl|JSON|Math|Number|Object|Promise|Proxy|Reflect|String|Symbol|console)$/]. *)
Definition knownGlobalRegExp_test (s : string) : bool :=
  testAnchoredAlternatives knownGlobals s.

(** [/^[A-Z]/.test(s)]. *)
Definition startsWithCapital (s : string) : bool :=
  match s with
  | EmptyString => false
  | String c _ => (65 <=? nat_of_ascii c)%nat && (nat_of_ascii c <=? 90)%nat
  end.

(** ** Nodes with their parents *)

(** A node as the walk meets it.  The tree holds children only, so
    [node.parent] is read off the chain of ancestors, the parent first. *)
Record Located : Type := { self : Node; ancestors : list Node }.

(** [node.parent]. *)
Definition parent (node : Located) : option Node := hd_error (ancestors node).

(** [node.parent] as a node of its own, with its ancestors. *)
Definition parentLocated (node : Located) : option Located :=
  match ancestors node with
  | [] => None
  | p :: up => Some {| self := p; ancestors := up |}
  end.

(** ** The helpers of [../support/util]

    The file is not under the sources; the rule is stated against the
    signatures of the helpers it imports. *)
Record Util : Type := {
  findDeclaration : Node -> TypeChecker -> option Node;
  isConstDeclaration : Node -> bool;
  isInstanceofCtor : Located -> bool;
  isThis : Node -> bool;
  isWithinCallExpressionExpression : Located -> bool;
  isWithinParameterDeclaration : Node -> bool
}.

(** ** The walker *)

(** The rule's options object: each field may be absent. *)
Record Options : Type := {
  optAllowMethods : option bool;
  optAllowParameters : option bool;
  optAllowProperties : option bool
}.

(** The walker's state: the three settings, the [callbackMap] and
    [callbackStack] of [ScopeWalker] and the failures reported so far.
    The stack grows at its end: its head is [callbackStack[0]], the callback
    pushed first. *)
Record Walker : Type := {
  allowMethods : bool;
  allowParameters : bool;
  allowProperties : bool;
  callbackMap : list (nat * option Node);
  callbackStack : list Node;
  failures : list RuleFailure
}.

(** The constructor: [const [options] = this.getOptions()], the defaults
    where [options] or one of its fields is [undefined]. *)
Definition newWalker (options : option Options) : Walker :=
  let setting (field : Options -> option bool) (default : bool) : bool :=
    match options with
    | Some o => match field o with
                | Some b => b
                | None => default
                end
    | None => default
    end in
  {| allowMethods := setting optAllowMethods true;
     allowParameters := setting optAllowParameters true;
     allowProperties := setting optAllowProperties false;
     callbackMap := [];
     callbackStack := [];
     failures := [] |}.

Definition addFailureAtNode (failureNode : Node) (message : string)
  (w : Walker) : Walker :=
  {| allowMethods := allowMethods w;
     allowParameters := allowParameters w;
     allowProperties := allowProperties w;
     callbackMap := callbackMap w;
     callbackStack := callbackStack w;
     failures := failures w
                 ++ [{| failureNode := id failureNode; failureString := message |}] |}.

(** [getPropertyAccessExpressionRoot]: the loop follows [expression] while
    it is a property access; [innermost] returns where the loop stops, with
    the ancestors of that node. *)
Fixpoint innermost (up : list Node) (node : Node) {struct node}
  : option Located :=
  match node with
  | mkNode _ _ _ _ _ cs =>
      (fix find (l : list (string * Node)) : option Located :=
         match l with
         | [] => None
         | (q, expression) :: l' =>
             if String.eqb "expression" q then
               if isPropertyAccessExpression expression
               then innermost (node :: up) expression
               else Some {| self := expression; ancestors := node :: up |}
             else find l'
         end) cs
  end.

(** [isWithinClosure]. *)
Definition isWithinClosure (declaration callback : Node) : bool :=
  (pos callback <=? pos declaration)%Z && (pos declaration <? end_ callback)%Z.

(** [isPropertyAccessExpressionLeaf]. *)
Definition isPropertyAccessExpressionLeaf (node : Located) : bool :=
  match parentLocated node with
  | None => false
  | Some p =>
      if negb (isPropertyAccessExpression (self p)) then false
      else if negb (sameOpt (self node) (prop "name" (self p))) then false
      else negb (isKindOpt isPropertyAccessExpression (parent p))
  end.

(** The nodes of a property-access chain that [visitNode] validates when
    they are identifiers or [this]: with [node] the outermost step, the name
    of every step and the expression the chain starts from, each with its
    ancestors. *)
Fixpoint chainNodes (up : list Node) (node : Node) {struct node}
  : list Located :=
  match node with
  | mkNode _ _ _ _ _ cs =>
      (fix steps (l : list (string * Node)) : list Located :=
         match l with
         | [] => []
         | (q, c) :: l' =>
             (if String.eqb "expression" q then
                if isPropertyAccessExpression c
                then chainNodes (node :: up) c
                else [{| self := c; ancestors := node :: up |}]
              else if String.eqb "name" q
                   then [{| self := c; ancestors := node :: up |}]
                   else [])
             ++ steps l'
         end) cs
  end.

(** What one child of a step contributes to [chainNodes]. *)
Definition chainStep (up : list Node) (qc : string * Node) : list Located :=
  if String.eqb "expression" (fst qc) then
    if isPropertyAccessExpression (snd qc)
    then chainNodes up (snd qc)
    else [{| self := snd qc; ancestors := up |}]
  else if String.eqb "name" (fst qc)
       then [{| self := snd qc; ancestors := up |}]
       else [].



Section Pass.

(** [this.getTypeChecker()] and the imported helpers. *)
Variable typeChecker : TypeChecker.
Variable util : Util.

Definition getPropertyAccessExpressionRoot (node : Located) : option Located :=
  match innermost (ancestors node) (self node) with
  | Some expression =>
      if isThis util (self expression) || isIdentifier (self expression)
      then Some expression
      else None
  | None => None
  end.

(** [Walker.isUnsafeRoot]. *)
Definition isUnsafeRoot (w : Walker) (node : Located) (callback : Node)
  : option Node :=
  if isKindOpt isQualifiedName (parent node) then None
  else if isInstanceofCtor util node then None
  else
    match findDeclaration util (self node) typeChecker with
    | None => None
    | Some declaration =>
        if isWithinClosure declaration callback then None
        else if allowParameters w && isWithinParameterDeclaration util declaration
        then None
        else if isKindOpt isCallExpression (parent node)
                && sameOpt (self node)
                     (match parent node with
                      | Some p => prop "expression" p
                      | None => None
                      end)
        then None
        else if isKindOpt isTaggedTemplateExpression (parent node)
                && sameOpt (self node)
                     (match parent node with
                      | Some p => prop "tag" p
                      | None => None
                      end)
        then None
        else if isKindOpt isNewExpression (parent node) then None
        else if isKindOpt isTypeReferenceNode (parent node) then None
        else if isConstDeclaration util declaration then None
        else if isImportSpecifier declaration then None
        else if isNamespaceImport declaration then None
        else Some (self node)
    end.

(** [Walker.isUnsafe].  [rootCallback] is [callbackStack[0]]: [visitNode]
    calls the method on a stack that is not empty.  The method also reads
    [leafCallback] and [leafOperator] and uses neither. *)
Definition isUnsafe (w : Walker) (node : Located) (rootCallback : Node)
  : option Node :=
  if isKindOpt isPropertyAccessExpression (parent node) then
    if negb (isPropertyAccessExpressionLeaf node) then None
    else
      match findDeclaration util (self node) typeChecker with
      | None => None
      | Some declaration =>
          if hasModifier (modifiers declaration) ReadonlyKeyword then None
          else if isTypeFlagSet (getTypeAtLocation typeChecker (self node))
                    EnumLiteral
          then None
          else
            let called := isWithinCallExpressionExpression util node in
            match parentLocated node with
            | None => None
            | Some p =>
                match getPropertyAccessExpressionRoot p with
                | None => None
                | Some root =>
                    if isThis util (self root) then
                      if called
                      then (if allowMethods w then None else Some (self root))
                      else (if allowProperties w then None else Some (self root))
                    else
                      let rootText := getText (self root) in
                      if knownGlobalRegExp_test rootText then None
                      else if startsWithCapital rootText then
                        if called
                        then (if allowMethods w then None else Some (self root))
                        else (if allowProperties w then None else Some (self root))
                      else isUnsafeRoot w root rootCallback
                end
            end
      end
  else isUnsafeRoot w node rootCallback.

(** The part of [Walker.visitNode] before [super.visitNode(node)]. *)
Definition validate (node : Located) (w : Walker) : Walker :=
  match callbackStack w with
  | [] => w
  | rootCallback :: _ =>
      let validateNode := isIdentifier (self node) || isThis util (self node) in
      if validateNode then
        match isUnsafe w node rootCallback with
        | Some failureNode => addFailureAtNode failureNode FAILURE_STRING w
        | None => w
        end
      else w
  end.

(** Modelled from the spec: [ScopeWalker] ([../support]) is not under the
    sources.  Spec 4.2: on entering a function literal that appears as an
    argument (not the callee) of a call, a constructor call or a tagged
    invocation, a callback context recording the callee or tag as operator is
    pushed; the walk proceeds into the literal with the context on the
    stack; on leaving the literal the context is popped. *)
Definition isCallbackLiteral (node : Located) : bool :=
  (isArrowFunction (self node) || isFunctionExpression (self node))
  && match parent node with
     | Some p =>
         (isCallExpression p || isNewExpression p || isTaggedTemplateExpression p)
         && existsb (same (self node)) (props "arguments" p)
     | None => false
     end.

(** Modelled from the spec: the operator of a callback context is the
    callee or tag of the enclosing invocation (spec 3, Callback Context). *)
Definition operatorOf (invocation : Node) : option Node :=
  if isTaggedTemplateExpression invocation then prop "tag" invocation
  else prop "expression" invocation.

(** Modelled from the spec: the push on entering a callback literal
    (spec 4.2). *)
Definition pushCallback (node : Located) (w : Walker) : Walker :=
  {| allowMethods := allowMethods w;
     allowParameters := allowParameters w;
     allowProperties := allowProperties w;
     callbackMap :=
       callbackMap w
       ++ [(id (self node),
            match parent node with
            | Some p => operatorOf p
            | None => None
            end)];
     callbackStack := callbackStack w ++ [self node];
     failures := failures w |}.

(** Modelled from the spec: the pop on leaving a callback literal
    (spec 4.2). *)
Definition popCallback (w : Walker) : Walker :=
  {| allowMethods := allowMethods w;
     allowParameters := allowParameters w;
     allowProperties := allowProperties w;
     callbackMap := callbackMap w;
     callbackStack := removelast (callbackStack w);
     failures := failures w |}.

(** [Walker.visitNode]: the validation of the node, then
    [super.visitNode(node)], the walk of [ScopeWalker] as modelled above. *)
Fixpoint visitNode (up : list Node) (node : Node) (w : Walker) {struct node}
  : Walker :=
  match node with
  | mkNode _ _ _ _ _ cs =>
      let here := {| self := node; ancestors := up |} in
      let walkChildren :=
        (fix walk (l : list (string * Node)) (w0 : Walker) : Walker :=
           match l with
           | [] => w0
           | (_, child) :: l' => walk l' (visitNode (node :: up) child w0)
           end) cs in
      let w1 := validate here w in
      if isCallbackLiteral here
      then popCallback (walkChildren (pushCallback here w1))
      else walkChildren w1
  end.

(** [Rule.applyWithProgram]: [applyWithWalker(new Walker(...))]. *)
Definition applyWithProgram (options : option Options) (sourceFile : Node)
  : list RuleFailure :=
  failures (visitNode [] sourceFile (newWalker options)).

(** The validation of several nodes one after the other, as the walk does
    for the nodes of a chain. *)
Definition validateAll (nodes : list Located) (w : Walker) : Walker :=
  fold_left (fun w' node => validate node w') nodes w.

End Pass.

End NoUnsafeCallbackScope.

(* ===================================================================== *)
(** * Walkers as objects *)
(* ===================================================================== *)

(** The objects of a class that a run has built.  A reference is the place
    of its object; [new] adds an object at the end and nothing is freed.  A
    statement runs on the heap and returns or throws; what it wrote before
    it threw stays written. *)
Module Heap.

Definition Ref : Type := nat.

Section Objects.

Context {Obj : Type}.

(** [new]: the reference of the new object, and the heap with it. *)
Definition alloc (o : Obj) (h : list Obj) : Ref * list Obj :=
  (List.length h, h ++ [o]).

Definition read (this : Ref) (h : list Obj) : option Obj := nth_error h this.

Fixpoint write (this : Ref) (o : Obj) (h : list Obj) : list Obj :=
  match h, this with
  | [], _ => []
  | _ :: h', O => o :: h'
  | x :: h', S r => x :: write r o h'
  end.

Definition Stmt : Type := list Obj -> Result unit * list Obj.

Definition skip : Stmt := fun h => (Ok tt, h).

Definition throw (e : Error) : Stmt := fun h => (Throw e, h).

(** [a; b] *)
Definition seq (a b : Stmt) : Stmt :=
  fun h =>
    match a h with
    | (Ok _, h') => b h'
    | (Throw e, h') => (Throw e, h')
    end.

(** A statement that reads fields of [this]; a read through a reference
    to nothing is a [TypeError]. *)
Definition withThis (this : Ref) (k : Obj -> Stmt) : Stmt :=
  fun h =>
    match read this h with
    | Some o => k o h
    | None => (Throw TypeError, h)
    end.

(** A statement that writes fields of [this]. *)
Definition modify (this : Ref) (f : Obj -> Obj) : Stmt :=
  withThis this (fun o h => (Ok tt, write this (f o) h)).

(** A call that throws before it writes, or writes and returns. *)
Definition method (this : Ref) (body : Obj -> Result Obj) : Stmt :=
  withThis this (fun o =>
                   match body o with
                   | Ok o' => modify this (fun _ => o')
                   | Throw e => throw e
                   end).

(** [l.forEach(f)] *)
Fixpoint forEach {A : Type} (f : A -> Stmt) (l : list A) : Stmt :=
  match l with
  | [] => skip
  | a :: l' => seq (f a) (forEach f l')
  end.

End Objects.

(** What a statement does to the object at [this], told by a function on
    the object: started on a heap with [o] at [this], the statement [s]
    writes to that object only, and it returns with [o'] there when
    [p o = Ok o'] and throws [e] when [p o = Throw e]. *)
Definition simAt {Obj : Type} (this : Ref) (s : @Stmt Obj)
  (p : Obj -> Result Obj) (o : Obj) : Prop :=
  forall h, read this h = Some o ->
            exists o1, snd (s h) = write this o1 h /\
                       match p o with
                       | Ok o' => fst (s h) = Ok tt /\ o1 = o'
                       | Throw e => fst (s h) = Throw e
                       end.

Definition simulates {Obj : Type} (this : Ref) (s : @Stmt Obj)
  (p : Obj -> Result Obj) : Prop :=
  forall o, simAt this s p o.

End Heap.

(** The walker of no-unused-declaration as an object: every hook runs on
    [this], the reference of a walker in the heap. *)
Module NoUnusedDeclarationObject.
Import Ts Heap.

Definition Stmt : Type := @Heap.Stmt NoUnusedDeclaration.Walker.

(** [this._identifiers.set(k, v)] *)
Definition setIdentifier (this : Ref) (k : JsMap.Key) (v : bool) : Stmt :=
  modify this (NoUnusedDeclaration.setIdentifier k v).

(** [this.addFailureAtNode(identifier, message)] *)
Definition addFailureAtNode (this : Ref) (identifier : JsMap.Key)
  (message : string) : Stmt :=
  method this (NoUnusedDeclaration.addFailureAtNode identifier message).

Definition onSourceFileEnd (this : Ref) : Stmt :=
  withThis this (fun w =>
    forEach (fun (entry : JsMap.Key * bool) =>
               let (identifier, used) := entry in
               if negb used
               then addFailureAtNode this identifier
                      NoUnusedDeclaration.FAILURE_STRING
               else skip)
            (NoUnusedDeclaration._identifiers w)).

Section Pass.

Variable typeChecker : TypeChecker.
Variable isReassignmentTarget : Node -> bool.
Variable forEachDeclaredVariable : Node -> list Node.

Definition visitClassDeclaration (this : Ref) (node : Node) (super : Stmt)
  : Stmt :=
  let name := prop "name" node in
  seq (if negb (hasModifier (modifiers node) ExportKeyword)
       then setIdentifier this (NoUnusedDeclaration.keyOf name) false
       else skip)
      super.

Definition visitEnumDeclaration (this : Ref) (node : Node) (super : Stmt)
  : Stmt :=
  let name := prop "name" node in
  seq (if negb (hasModifier (modifiers node) ExportKeyword)
       then setIdentifier this (NoUnusedDeclaration.keyOf name) false
       else skip)
      super.

Definition visitFunctionDeclaration (this : Ref) (node : Node) (super : Stmt)
  : Stmt :=
  let name := prop "name" node in
  seq (match name with
       | Some _ =>
           if negb (hasModifier (modifiers node) ExportKeyword)
           then setIdentifier this (NoUnusedDeclaration.keyOf name) false
           else skip
       | None => skip
       end)
      super.

(** The body of [declarations.forEach] in [visitIdentifier]. *)
Definition markDeclaration (this : Ref) (declaration : Node) : Stmt :=
  withThis this (fun w =>
    let identifier :=
      NoUnusedDeclaration.keyOf (NoUnusedDeclaration.getIdentifier declaration) in
    let isEnforced := JsMap.has identifier (NoUnusedDeclaration._identifiers w) in
    if isEnforced then setIdentifier this identifier true else skip).

Definition visitIdentifier (this : Ref) (node : Node) (super : Stmt) : Stmt :=
  withThis this (fun w =>
    let isDeclaration :=
      JsMap.has (Some (id node)) (NoUnusedDeclaration._identifiers w) in
    seq (if negb isDeclaration && negb (isReassignmentTarget node) then
           match getSymbolAtLocation typeChecker node with
           | None => throw TypeError          (* symbol.getDeclarations() *)
           | Some symbol =>
               match getDeclarations symbol with
               | None => throw TypeError      (* declarations.forEach(...) *)
               | Some declarations => forEach (markDeclaration this) declarations
               end
           end
         else skip)
        super).

Definition visitNamedImports (this : Ref) (node : Node) (super : Stmt) : Stmt :=
  seq (forEach (fun element =>
                  let name := prop "name" element in
                  let propertyName := prop "propertyName" element in
                  seq (match propertyName with
                       | Some _ =>
                           setIdentifier this
                             (NoUnusedDeclaration.keyOf propertyName) true
                       | None => skip
                       end)
                      (setIdentifier this (NoUnusedDeclaration.keyOf name) false))
               (props "elements" node))
      super.

Definition visitNamespaceImport (this : Ref) (node : Node) (super : Stmt)
  : Stmt :=
  let name := prop "name" node in
  seq (setIdentifier this (NoUnusedDeclaration.keyOf name) false) super.

Definition visitVariableStatement (this : Ref) (node : Node) (super : Stmt)
  : Stmt :=
  seq (if negb (hasModifier (modifiers node) ExportKeyword) then
         match prop "declarationList" node with
         | None => throw TypeError            (* declarationList.declarations *)
         | Some declarationList =>
             forEach (fun declaration =>
                        let name := prop "name" declaration in
                        setIdentifier this (NoUnusedDeclaration.keyOf name) false)
                     (forEachDeclaredVariable declarationList)
         end
       else skip)
      super.

Definition dispatch (this : Ref) (node : Node) (super : Stmt) : Stmt :=
  match kind node with
  | ClassDeclaration => visitClassDeclaration this node super
  | EnumDeclaration => visitEnumDeclaration this node super
  | FunctionDeclaration => visitFunctionDeclaration this node super
  | Identifier => visitIdentifier this node super
  | NamedImports => visitNamedImports this node super
  | NamespaceImport => visitNamespaceImport this node super
  | VariableStatement => visitVariableStatement this node super
  | _ => super
  end.

Fixpoint visitNode (this : Ref) (node : Node) {struct node} : Stmt :=
  match node with
  | mkNode _ _ _ _ _ cs =>
      let walkChildren :=
        (fix walk (l : list (string * Node)) : Stmt :=
           match l with
           | [] => skip
           | (_, child) :: l' => seq (visitNode this child) (walk l')
           end) cs in
      seq (dispatch this node walkChildren)
          (if isSourceFile node then onSourceFileEnd this else skip)
  end.

(** [Rule.applyWithProgram]: [new Walker(...)], the walk of the source
    file by [applyWithWalker], and the failures of the walker. *)
Definition applyWithProgram (sourceFile : Node)
  (h : list NoUnusedDeclaration.Walker)
  : Result (list RuleFailure) * list NoUnusedDeclaration.Walker :=
  let (this, h0) := alloc NoUnusedDeclaration.newWalker h in
  match visitNode this sourceFile h0 with
  | (Ok _, h1) =>
      (match read this h1 with
       | Some w => Ok (NoUnusedDeclaration.failures w)
       | None => Throw TypeError
       end, h1)
  | (Throw e, h1) => (Throw e, h1)
  end.

End Pass.

End NoUnusedDeclarationObject.

(** The walker of no-unsafe-callback-scope as an object. *)
Module NoUnsafeCallbackScopeObject.
Import Ts Heap NoUnsafeCallbackScope.

Definition Stmt : Type := @Heap.Stmt Walker.

Section Pass.

Variable typeChecker : TypeChecker.
Variable util : Util.

(** The part of [Walker.visitNode] before [super.visitNode(node)]. *)
Definition validate (this : Ref) (node : Located) : Stmt :=
  withThis this (fun w =>
    match callbackStack w with
    | [] => skip
    | rootCallback :: _ =>
        let validateNode := isIdentifier (self node) || isThis util (self node) in
        if validateNode then
          match isUnsafe typeChecker util w node rootCallback with
          | Some failureNode =>
              modify this (addFailureAtNode failureNode FAILURE_STRING)
          | None => skip
          end
        else skip
    end).

(** [Walker.visitNode], with the walk of [ScopeWalker] as modelled in
    [NoUnsafeCallbackScope.visitNode]: the push and the pop run on
    [this]. *)
Fixpoint visitNode (this : Ref) (up : list Node) (node : Node) {struct node}
  : Stmt :=
  match node with
  | mkNode _ _ _ _ _ cs =>
      let here := {| self := node; ancestors := up |} in
      let walkChildren :=
        (fix walk (l : list (string * Node)) : Stmt :=
           match l with
           | [] => skip
           | (_, child) :: l' => seq (visitNode this (node :: up) child) (walk l')
           end) cs in
      seq (validate this here)
          (if isCallbackLiteral here
           then seq (modify this (pushCallback here))
                    (seq walkChildren (modify this popCallback))
           else walkChildren)
  end.

(** [Rule.applyWithProgram]: [new Walker(sourceFile, this.getOptions(),
    program)], the walk, and the failures of the walker. *)
Definition applyWithProgram (options : option Options) (sourceFile : Node)
  (h : list Walker) : Result (list RuleFailure) * list Walker :=
  let (this, h0) := alloc (newWalker options) h in
  match visitNode this [] sourceFile h0 with
  | (Ok _, h1) =>
      (match read this h1 with
       | Some w => Ok (failures w)
       | None => Throw TypeError
       end, h1)
  | (Throw e, h1) => (Throw e, h1)
  end.

End Pass.

End NoUnsafeCallbackScopeObject.

(* ===================================================================== *)
(** * The host *)
(* ===================================================================== *)

Module Lint.
Import Ts.

(** The host applies a rule to the source files of a program one after
    the other, each time through [Rule.applyWithProgram], on the heap the
    passes before have left; what it collects is the result of every pass,
    in order. *)
Fixpoint run {Obj R : Type} (pass : Node -> list Obj -> R * list Obj)
  (sourceFiles : list Node) (h : list Obj) : list R * list Obj :=
  match sourceFiles with
  | [] => ([], h)
  | sourceFile :: rest =>
      let (r, h1) := pass sourceFile h in
      let (rs, h2) := run pass rest h1 in
      (r :: rs, h2)
  end.

Definition runUnusedDeclaration (typeChecker : TypeChecker)
  (isReassignmentTarget : Node -> bool)
  (forEachDeclaredVariable : Node -> list Node) (sourceFiles : list Node)
  (h : list NoUnusedDeclaration.Walker)
  : list (Result (list RuleFailure)) * list NoUnusedDeclaration.Walker :=
  run (NoUnusedDeclarationObject.applyWithProgram typeChecker
         isReassignmentTarget forEachDeclaredVariable) sourceFiles h.

Definition runUnsafeCallbackScope (typeChecker : TypeChecker)
  (util : NoUnsafeCallbackScope.Util)
  (options : option NoUnsafeCallbackScope.Options) (sourceFiles : list Node)
  (h : list NoUnsafeCallbackScope.Walker)
  : list (Result (list RuleFailure)) * list NoUnsafeCallbackScope.Walker :=
  run (NoUnsafeCallbackScopeObject.applyWithProgram typeChecker util options)
      sourceFiles h.

End Lint.

(* ===================================================================== *)
(** * Files used as examples *)
(* ===================================================================== *)

Module Fixtures.
Import Ts.

Definition leaf (i : nat) (k : SyntaxKind) (p e : Z) (t : string) : Node :=
  mkNode i k p e t [].

Definition tree (i : nat) (k : SyntaxKind) (p e : Z)
  (cs : list (string * Node)) : Node :=
  mkNode i k p e "" cs.

(** A symbol with the given declarations. *)
Definition declaredBy (declarations : list Node) : Symbol :=
  {| getDeclarations := Some declarations |}.

Fixpoint assoc {A : Type} (i : nat) (l : list (nat * A)) : option A :=
  match l with
  | [] => None
  | (j, a) :: l' => if Nat.eqb i j then Some a else assoc i l'
  end.

(** A type checker given by tables: the symbol at each resolved node and
    the type flags at each typed node (no flag elsewhere). *)
Definition checker (symbols : list (nat * Symbol)) (types : list (nat * Z))
  : TypeChecker :=
  {| getSymbolAtLocation := fun node => assoc (id node) symbols;
     getTypeAtLocation := fun node =>
       {| flags := match assoc (id node) types with
                   | Some f => f
                   | None => 0%Z
                   end |} |}.

(** [tsutils.forEachDeclaredVariable] on a list without destructuring: its
    declarations. *)
Definition declaredVariables (declarationList : Node) : list Node :=
  props "declarations" declarationList.

(** ** [function f() {}] and [export function f() {}] *)

Definition f_name : Node := leaf 2 Identifier 9 10 "f".

Definition f_declaration : Node :=
  tree 1 FunctionDeclaration 0 15
    [("name", f_name); ("body", tree 3 Block 13 15 [])].

Definition unusedFunction : Node :=
  tree 0 SourceFile 0 15 [("statements", f_declaration)].

Definition f_exported : Node :=
  tree 1 FunctionDeclaration 0 22
    [("modifiers", leaf 4 ExportKeyword 0 6 "export");
     ("name", leaf 2 Identifier 16 17 "f");
     ("body", tree 3 Block 20 22 [])].

Definition exportedFunction : Node :=
  tree 0 SourceFile 0 22 [("statements", f_exported)].

Definition unusedFunction_checker : TypeChecker :=
  checker [(2, declaredBy [f_declaration])] [].

Definition exportedFunction_checker : TypeChecker :=
  checker [(2, declaredBy [f_exported])] [].

Definition neverReassigned (node : Node) : bool := false.

(** ** [function g() { g(); }] *)

Definition g_call : Node := leaf 6 Identifier 15 16 "g".

Definition g_declaration : Node :=
  tree 1 FunctionDeclaration 0 21
    [("name", leaf 2 Identifier 9 10 "g");
     ("body",
      tree 3 Block 13 21
        [("statements",
          tree 4 ExpressionStatement 15 19
            [("expression",
              tree 5 CallExpression 15 18 [("expression", g_call)])])])].

Definition recursiveFunction : Node :=
  tree 0 SourceFile 0 21 [("statements", g_declaration)].

Definition recursiveFunction_checker : TypeChecker :=
  checker [(2, declaredBy [g_declaration]); (6, declaredBy [g_declaration])] [].

(** ** [let x = 1; x = 2;] *)

Definition x_declaration : Node :=
  tree 3 VariableDeclaration 4 9
    [("name", leaf 4 Identifier 4 5 "x");
     ("initializer", leaf 5 NumericLiteral 8 9 "1")].

Definition x_statement : Node :=
  tree 1 VariableStatement 0 10
    [("declarationList",
      tree 2 VariableDeclarationList 0 9 [("declarations", x_declaration)])].

Definition x_assigned : Node := leaf 8 Identifier 11 12 "x".

Definition reassignedOnly : Node :=
  tree 0 SourceFile 0 17
    [("statements", x_statement);
     ("statements",
      tree 6 ExpressionStatement 11 17
        [("expression",
          tree 7 BinaryExpression 11 16
            [("left", x_assigned);
             ("operatorToken", leaf 9 EqualsToken 13 14 "=");
             ("right", leaf 10 NumericLiteral 15 16 "2")])])].

Definition reassignedOnly_checker : TypeChecker :=
  checker [(4, declaredBy [x_declaration]); (8, declaredBy [x_declaration])] [].

(** [tsutils.isReassignmentTarget] on this file: the left side of the
    assignment. *)
Definition reassignedOnly_targets (node : Node) : bool := Nat.eqb (id node) 8.

(** ** [foo;] with [foo] declared nowhere *)

Definition unresolvedReference : Node :=
  tree 0 SourceFile 0 4
    [("statements",
      tree 1 ExpressionStatement 0 4
        [("expression", leaf 2 Identifier 0 3 "foo")])].

Definition unresolvedReference_checker : TypeChecker := checker [] [].

(** ** [foo(); function foo() {}] *)

Definition foo_declaration : Node :=
  tree 4 FunctionDeclaration 7 24
    [("name", leaf 5 Identifier 16 19 "foo");
     ("body", tree 6 Block 22 24 [])].

Definition usedBeforeDeclaration : Node :=
  tree 0 SourceFile 0 24
    [("statements",
      tree 1 ExpressionStatement 0 6
        [("expression",
          tree 2 CallExpression 0 5
            [("expression", leaf 3 Identifier 0 3 "foo")])]);
     ("statements", foo_declaration)].

Definition usedBeforeDeclaration_checker : TypeChecker :=
  checker [(3, declaredBy [foo_declaration]); (5, declaredBy [foo_declaration])] [].

(** ** The helpers of [../support/util] for the callback rule *)

(** Modelled from the spec: [findDeclaration] is not under the sources.
    Spec 4.1 (resolveDeclaration): the declaration site of the symbol of
    the reference, or none if the symbol cannot be resolved or has no
    declarations.  The first declaration is taken as the declaration
    site. *)
Definition findDeclaration (node : Node) (typeChecker : TypeChecker)
  : option Node :=
  match getSymbolAtLocation typeChecker node with
  | Some symbol =>
      match getDeclarations symbol with
      | Some (declaration :: _) => Some declaration
      | _ => None
      end
  | None => None
  end.

(** Modelled from the spec: [isThis] is not under the sources.  Spec 4.1
    (isSelfReference): the node denotes the implicit receiver. *)
Definition isThis (node : Node) : bool := kind_eqb (kind node) ThisKeyword.

(** Modelled from the spec: [isInstanceofCtor] is not under the sources.
    Spec 4.1 (isConstructorReference): the node is the operand of an
    [instanceof] test, taken here as its right operand, the constructor. *)
Definition isInstanceofCtor (node : NoUnsafeCallbackScope.Located) : bool :=
  match NoUnsafeCallbackScope.parent node with
  | Some p =>
      kind_eqb (kind p) BinaryExpression
      && isKindOpt (fun t => kind_eqb (kind t) InstanceOfKeyword)
           (prop "operatorToken" p)
      && sameOpt (NoUnsafeCallbackScope.self node) (prop "right" p)
  | None => false
  end.

(** Modelled from the spec: [isWithinCallExpressionExpression] is not
    under the sources.  Spec 4.3 (3): the access is a method invocation,
    that is, the property access the node names is the callee of a call. *)
Definition isWithinCallExpressionExpression
  (node : NoUnsafeCallbackScope.Located) : bool :=
  match NoUnsafeCallbackScope.ancestors node with
  | p :: call :: _ => isCallExpression call && sameOpt p (prop "expression" call)
  | _ => false
  end.

(** Modelled from the spec: [isWithinParameterDeclaration] is not under
    the sources.  Spec 4.1 (isParameterBinding): the declaration is a formal
    parameter of a function. *)
Definition isWithinParameterDeclaration (declaration : Node) : bool :=
  kind_eqb (kind declaration) Parameter_.

(** Modelled from the spec: [isConstDeclaration] is not under the sources.
    Spec 4.1 (isImmutableBinding): the declaration introduces a binding
    that cannot be reassigned.  The tree carries no [const] flag, so the
    [const] declarations of a file are listed. *)
Definition isConstDeclaration (consts : list nat) (declaration : Node) : bool :=
  existsb (Nat.eqb (id declaration)) consts.

Definition util (consts : list nat) : NoUnsafeCallbackScope.Util :=
  {| NoUnsafeCallbackScope.findDeclaration := findDeclaration;
     NoUnsafeCallbackScope.isConstDeclaration := isConstDeclaration consts;
     NoUnsafeCallbackScope.isInstanceofCtor := isInstanceofCtor;
     NoUnsafeCallbackScope.isThis := isThis;
     NoUnsafeCallbackScope.isWithinCallExpressionExpression :=
       isWithinCallExpressionExpression;
     NoUnsafeCallbackScope.isWithinParameterDeclaration :=
       isWithinParameterDeclaration |}.

(** [list.forEach], the callee of every scenario. *)
Definition forEachOf (i : nat) (p : Z) : Node :=
  tree i PropertyAccessExpression p (p + 12)
    [("expression", leaf (i + 1) Identifier p (p + 4) "list");
     ("name", leaf (i + 2) Identifier (p + 5) (p + 12) "forEach")].

(** ** Scenario A:
    [function outer(){ let x = 1; list.forEach(v => { x = v; }); }] *)

Definition A_x : Node :=
  tree 6 VariableDeclaration 22 27
    [("name", leaf 7 Identifier 22 23 "x");
     ("initializer", leaf 8 NumericLiteral 26 27 "1")].

Definition A_v : Node :=
  tree 15 Parameter_ 42 43 [("name", leaf 16 Identifier 42 43 "v")].

Definition A_x_reference : Node := leaf 20 Identifier 49 50 "x".

Definition A_assignment : Node :=
  tree 19 BinaryExpression 49 54
    [("left", A_x_reference);
     ("operatorToken", leaf 21 EqualsToken 51 52 "=");
     ("right", leaf 22 Identifier 53 54 "v")].

Definition A_callback : Node :=
  tree 14 ArrowFunction 42 57
    [("parameters", A_v);
     ("body",
      tree 17 Block 47 57
        [("statements",
          tree 18 ExpressionStatement 49 55 [("expression", A_assignment)])])].

Definition A_call : Node :=
  tree 10 CallExpression 29 58
    [("expression", forEachOf 11 29); ("arguments", A_callback)].

Definition scenarioA : Node :=
  tree 0 SourceFile 0 61
    [("statements",
      tree 1 FunctionDeclaration 0 61
        [("name", leaf 2 Identifier 9 14 "outer");
         ("body",
          tree 3 Block 16 61
            [("statements",
              tree 4 VariableStatement 18 28
                [("declarationList",
                  tree 5 VariableDeclarationList 18 27
                    [("declarations", A_x)])]);
             ("statements",
              tree 9 ExpressionStatement 29 59 [("expression", A_call)])])])].

Definition scenarioA_checker : TypeChecker :=
  checker [(7, declaredBy [A_x]); (20, declaredBy [A_x]);
           (16, declaredBy [A_v]); (22, declaredBy [A_v])] [].

(** ** Scenario C:
    [class C { readonly v = 1; m(){ list.forEach(() => this.v); } }] *)

Definition C_v : Node :=
  tree 3 PropertyDeclaration 10 25
    [("modifiers", leaf 4 ReadonlyKeyword 10 18 "readonly");
     ("name", leaf 5 Identifier 19 20 "v");
     ("initializer", leaf 6 NumericLiteral 23 24 "1")].

Definition C_this : Node := leaf 17 ThisKeyword 50 54 "this".
Definition C_v_reference : Node := leaf 18 Identifier 55 56 "v".

Definition C_access : Node :=
  tree 16 PropertyAccessExpression 50 56
    [("expression", C_this); ("name", C_v_reference)].

Definition C_callback : Node :=
  tree 15 ArrowFunction 44 56 [("body", C_access)].

Definition C_call : Node :=
  tree 11 CallExpression 31 57
    [("expression", forEachOf 12 31); ("arguments", C_callback)].

Definition scenarioC : Node :=
  tree 0 SourceFile 0 62
    [("statements",
      tree 1 ClassDeclaration 0 62
        [("name", leaf 2 Identifier 6 7 "C");
         ("members", C_v);
         ("members",
          tree 7 MethodDeclaration 26 60
            [("name", leaf 8 Identifier 26 27 "m");
             ("body",
              tree 9 Block 29 60
                [("statements",
                  tree 10 ExpressionStatement 31 58
                    [("expression", C_call)])])])])].

Definition scenarioC_checker : TypeChecker :=
  checker [(5, declaredBy [C_v]); (18, declaredBy [C_v])] [].

(** ** Scenario D: [list.forEach(() => { const y = 2; return y; })] *)

Definition D_y : Node :=
  tree 10 VariableDeclaration 27 32
    [("name", leaf 11 Identifier 27 28 "y");
     ("initializer", leaf 12 NumericLiteral 31 32 "2")].

Definition D_y_reference : Node := leaf 14 Identifier 41 42 "y".

Definition D_callback : Node :=
  tree 6 ArrowFunction 13 45
    [("body",
      tree 7 Block 19 45
        [("statements",
          tree 8 VariableStatement 21 33
            [("declarationList",
              tree 9 VariableDeclarationList 21 32 [("declarations", D_y)])]);
         ("statements",
          tree 13 ReturnStatement 34 43 [("expression", D_y_reference)])])].

Definition D_call : Node :=
  tree 2 CallExpression 0 46
    [("expression", forEachOf 3 0); ("arguments", D_callback)].

Definition scenarioD : Node :=
  tree 0 SourceFile 0 46
    [("statements", tree 1 ExpressionStatement 0 46 [("expression", D_call)])].

Definition scenarioD_checker : TypeChecker :=
  checker [(11, declaredBy [D_y]); (14, declaredBy [D_y])] [].

(** ** A qualified name in a callback:
    [let ns = { x: 1 }; list.forEach(() => { let t: typeof ns.x; });] *)














(** ** An argument of a constructor call in a callback:
    [let x = 1; list.forEach(() => new Foo(x));] *)

Definition N_x : Node :=
  tree 3 VariableDeclaration 4 9
    [("name", leaf 4 Identifier 4 5 "x");
     ("initializer", leaf 5 NumericLiteral 8 9 "1")].

Definition N_x_reference : Node := leaf 14 Identifier 38 39 "x".

Definition N_new : Node :=
  tree 12 NewExpression 30 40
    [("expression", leaf 13 Identifier 34 37 "Foo");
     ("arguments", N_x_reference)].

Definition N_callback : Node := tree 11 ArrowFunction 24 40 [("body", N_new)].

Definition N_call : Node :=
  tree 7 CallExpression 11 41
    [("expression", forEachOf 8 11); ("arguments", N_callback)].

Definition constructorArgument : Node :=
  tree 0 SourceFile 0 42
    [("statements",
      tree 1 VariableStatement 0 10
        [("declarationList",
          tree 2 VariableDeclarationList 0 9 [("declarations", N_x)])]);
     ("statements", tree 6 ExpressionStatement 11 42 [("expression", N_call)])].

Definition constructorArgument_checker : TypeChecker :=
  checker [(4, declaredBy [N_x]); (14, declaredBy [N_x])] [].

(** ** The global [Math] in a callback: [list.forEach(() => Math.floor)] *)

Definition G_floor : Node := leaf 100 MethodDeclaration 5000 5030 "".
Definition G_Math : Node := leaf 101 VariableDeclaration 6000 6010 "".

Definition G_access : Node :=
  tree 7 PropertyAccessExpression 19 29
    [("expression", leaf 8 Identifier 19 23 "Math");
     ("name", leaf 9 Identifier 24 29 "floor")].

Definition G_callback : Node := tree 6 ArrowFunction 13 29 [("body", G_access)].

Definition globalMath : Node :=
  tree 0 SourceFile 0 30
    [("statements",
      tree 1 ExpressionStatement 0 30
        [("expression",
          tree 2 CallExpression 0 30
            [("expression", forEachOf 3 0); ("arguments", G_callback)])])].

Definition globalMath_checker : TypeChecker :=
  checker [(8, declaredBy [G_Math]); (9, declaredBy [G_floor])] [].

(** ** A chain on a call result: [list.forEach(() => f().a)] *)

Definition R_a : Node := leaf 102 PropertyDeclaration 7000 7010 "".

Definition R_access : Node :=
  tree 7 PropertyAccessExpression 19 24
    [("expression",
      tree 8 CallExpression 19 22
        [("expression", leaf 9 Identifier 19 20 "f")]);
     ("name", leaf 10 Identifier 23 24 "a")].

Definition R_callback : Node := tree 6 ArrowFunction 13 24 [("body", R_access)].

Definition callResult : Node :=
  tree 0 SourceFile 0 25
    [("statements",
      tree 1 ExpressionStatement 0 25
        [("expression",
          tree 2 CallExpression 0 25
            [("expression", forEachOf 3 0); ("arguments", R_callback)])])].

Definition callResult_checker : TypeChecker :=
  checker [(10, declaredBy [R_a])] [].

(** ** Nodes of the files with their ancestors *)

(** The node of identity [i] below [n], with its ancestors. *)
Fixpoint locate (up : list Node) (n : Node) (i : nat) {struct n}
  : option NoUnsafeCallbackScope.Located :=
  match n with
  | mkNode j _ _ _ _ cs =>
      if Nat.eqb i j
      then Some {| NoUnsafeCallbackScope.self := n;
                   NoUnsafeCallbackScope.ancestors := up |}
      else (fix first (l : list (string * Node))
              : option NoUnsafeCallbackScope.Located :=
              match l with
              | [] => None
              | (_, c) :: l' =>
                  match locate (n :: up) c i with
                  | Some x => Some x
                  | None => first l'
                  end
              end) cs
  end.

Definition located (sourceFile : Node) (i : nat)
  : NoUnsafeCallbackScope.Located :=
  match locate [] sourceFile i with
  | Some x => x
  | None => {| NoUnsafeCallbackScope.self := sourceFile;
               NoUnsafeCallbackScope.ancestors := [] |}
  end.

(** A walker inside the callbacks of [stack], the outermost first. *)
Definition inside (options : option NoUnsafeCallbackScope.Options)
  (stack : list Node) : NoUnsafeCallbackScope.Walker :=
  let w := NoUnsafeCallbackScope.newWalker options in
  {| NoUnsafeCallbackScope.allowMethods := NoUnsafeCallbackScope.allowMethods w;
     NoUnsafeCallbackScope.allowParameters :=
       NoUnsafeCallbackScope.allowParameters w;
     NoUnsafeCallbackScope.allowProperties :=
       NoUnsafeCallbackScope.allowProperties w;
     NoUnsafeCallbackScope.callbackMap := [];
     NoUnsafeCallbackScope.callbackStack := stack;
     NoUnsafeCallbackScope.failures := [] |}.

(** ** [const a = undefined_;] with a symbol that has no declarations *)

Definition undeclaredSymbol_checker : TypeChecker :=
  checker [(2, {| getDeclarations := None |})] [].

End Fixtures.

(* ===================================================================== *)
(** * Files with imports, and settings that relax *)
(* ===================================================================== *)

Module ImportFixtures.
Import Ts Fixtures.

(** The declaration of [a] in the imported module. *)
Definition a_exported : Node :=
  tree 200 FunctionDeclaration 0 30
    [("modifiers", leaf 202 ExportKeyword 0 6 "export");
     ("name", leaf 201 Identifier 16 17 "a")].

Definition ab_specifier : Node :=
  tree 4 ImportSpecifier 9 15
    [("propertyName", leaf 5 Identifier 9 10 "a");
     ("name", leaf 6 Identifier 14 15 "b")].

Definition ab_imports : Node :=
  tree 3 NamedImports 7 17 [("elements", ab_specifier)].

Definition ab_declaration : Node :=
  tree 1 ImportDeclaration 0 27
    [("importClause", tree 2 ImportClause 7 17 [("namedBindings", ab_imports)])].

(** [import { a as b } from "m";] *)
Definition unusedImport : Node :=
  tree 0 SourceFile 0 27 [("statements", ab_declaration)].

Definition b_reference : Node := leaf 8 Identifier 28 29 "b".

(** [import { a as b } from "m"; b;] *)
Definition usedImport : Node :=
  tree 0 SourceFile 0 30
    [("statements", ab_declaration);
     ("statements",
      tree 7 ExpressionStatement 28 30 [("expression", b_reference)])].

Definition import_checker : TypeChecker :=
  checker [(5, declaredBy [a_exported]); (6, declaredBy [ab_specifier]);
           (8, declaredBy [ab_specifier])] [].

End ImportFixtures.

Module Settings.
Import NoUnsafeCallbackScope.

(** [w'] allows whatever [w] allows: each of the three settings that is on
    in [w] is on in [w']. *)
Definition relaxes (w w' : Walker) : Prop :=
  (allowMethods w = true -> allowMethods w' = true) /\
  (allowParameters w = true -> allowParameters w' = true) /\
  (allowProperties w = true -> allowProperties w' = true).

(** [isUnsafeRoot] without the tests on the parent of the node. *)
Definition rootTestOfChainRoot (typeChecker : Ts.TypeChecker) (util : Util)
  (w : Walker) (root : Located) (callback : Ts.Node) : option Ts.Node :=
  if isInstanceofCtor util root then None
  else
    match findDeclaration util (self root) typeChecker with
    | None => None
    | Some declaration =>
        if isWithinClosure declaration callback then None
        else if allowParameters w && isWithinParameterDeclaration util declaration
        then None
        else if isConstDeclaration util declaration then None
        else if Ts.isImportSpecifier declaration then None
        else if Ts.isNamespaceImport declaration then None
        else Some (self root)
    end.

(** The options object with every setting on. *)
Definition allowAll : option Options :=
  Some {| optAllowMethods := Some true; optAllowParameters := Some true;
          optAllowProperties := Some true |}.

End Settings.

(* ===================================================================== *)
(** * Further files: a lost declaration, a chain of two steps *)
(* ===================================================================== *)

Module ChainFixtures.
Import Ts Fixtures.

(** ** [function f() {} foo;] with [foo] declared nowhere *)

Definition foo_unresolved : Node := leaf 5 Identifier 16 19 "foo".

Definition unusedThenUnresolved : Node :=
  tree 0 SourceFile 0 20
    [("statements", f_declaration);
     ("statements",
      tree 4 ExpressionStatement 16 20 [("expression", foo_unresolved)])].

(** ** A chain of two steps in a callback:
    [class K { s = { n: 1 }; m(){ list.forEach(() => this.s.n); } }] *)

Definition K_n : Node :=
  tree 6 PropertyAssignment 16 20
    [("name", leaf 7 Identifier 16 17 "n");
     ("initializer", leaf 8 NumericLiteral 19 20 "1")].

Definition K_s : Node :=
  tree 3 PropertyDeclaration 10 23
    [("name", leaf 4 Identifier 10 11 "s");
     ("initializer", tree 5 ObjectLiteralExpression 14 22 [("properties", K_n)])].

Definition K_this : Node := leaf 20 ThisKeyword 48 52 "this".
Definition K_s_reference : Node := leaf 21 Identifier 53 54 "s".
Definition K_n_reference : Node := leaf 22 Identifier 55 56 "n".

(** [this.s] *)
Definition K_inner : Node :=
  tree 19 PropertyAccessExpression 48 54
    [("expression", K_this); ("name", K_s_reference)].

(** [this.s.n] *)
Definition K_access : Node :=
  tree 18 PropertyAccessExpression 48 56
    [("expression", K_inner); ("name", K_n_reference)].

Definition K_callback : Node :=
  tree 17 ArrowFunction 42 56 [("body", K_access)].

Definition K_call : Node :=
  tree 13 CallExpression 29 57
    [("expression", forEachOf 14 29); ("arguments", K_callback)].

Definition twoStepChain : Node :=
  tree 0 SourceFile 0 62
    [("statements",
      tree 1 ClassDeclaration 0 62
        [("name", leaf 2 Identifier 6 7 "K");
         ("members", K_s);
         ("members",
          tree 9 MethodDeclaration 24 60
            [("name", leaf 10 Identifier 24 25 "m");
             ("body",
              tree 11 Block 27 60
                [("statements",
                  tree 12 ExpressionStatement 29 58
                    [("expression", K_call)])])])])].

Definition twoStepChain_checker : TypeChecker :=
  checker [(4, declaredBy [K_s]); (21, declaredBy [K_s]);
           (7, declaredBy [K_n]); (22, declaredBy [K_n])] [].

End ChainFixtures.

(* ===================================================================== *)
(** * Proofs: the error monad and the map *)
(* ===================================================================== *)

Lemma bind_Ok_inv {A B : Type} (r : Result A) (k : A -> Result B) (b : B) :
  bind r k = Ok b -> exists a, r = Ok a /\ k a = Ok b.
Proof.
  destruct r as [a | e]; simpl; intros H.
  - exists a; split; [reflexivity | exact H].
  - discriminate.
Qed.

Lemma forEachM_app {A S : Type} (f : A -> S -> Result S) (l1 l2 : list A) (s : S) :
  forEachM f (l1 ++ l2) s = (s' <- forEachM f l1 s ;; forEachM f l2 s').
Proof.
  revert s; induction l1 as [| a l1 IH]; intros s; simpl.
  - reflexivity.
  - destruct (f a s) as [s1 | e]; simpl; [apply IH | reflexivity].
Qed.

(** An invariant that every step keeps is kept by the whole loop. *)
Lemma forEachM_invariant {A S : Type} (f : A -> S -> Result S) (I : S -> Prop)
  (l : list A) :
  (forall a s s', In a l -> I s -> f a s = Ok s' -> I s') ->
  forall s s', I s -> forEachM f l s = Ok s' -> I s'.
Proof.
  induction l as [| a l IH]; intros Hstep s s' Hs Hrun; simpl in Hrun.
  - inversion Hrun; subst; exact Hs.
  - apply bind_Ok_inv in Hrun as (s1 & H1 & H2).
    apply (IH (fun a0 t t' Hin => Hstep a0 t t' (or_intror Hin)) s1 s').
    + apply (Hstep a s s1); [left; reflexivity | exact Hs | exact H1].
    + exact H2.
Qed.

(** A loop whose steps cannot throw under an invariant they keep returns. *)
Lemma forEachM_total {A S : Type} (f : A -> S -> Result S) (I : S -> Prop)
  (l : list A) :
  (forall a s, In a l -> I s -> exists s', f a s = Ok s' /\ I s') ->
  forall s, I s -> exists s', forEachM f l s = Ok s' /\ I s'.
Proof.
  induction l as [| a l IH]; intros Hstep s Hs; simpl.
  - exists s; split; [reflexivity | exact Hs].
  - destruct (Hstep a s (or_introl eq_refl) Hs) as (s1 & H1 & HI1).
    rewrite H1; simpl.
    apply IH; [| exact HI1].
    intros a0 t Hin Ht; apply Hstep; [right; exact Hin | exact Ht].
Qed.

Module JsMapFacts.
Import JsMap.

Lemma key_eqb_eq (a b : Key) : key_eqb a b = true <-> a = b.
Proof.
  destruct a as [x |], b as [y |]; simpl; split; intros H;
    try discriminate; try reflexivity.
  - apply Nat.eqb_eq in H; subst; reflexivity.
  - inversion H; subst; apply Nat.eqb_refl.
Qed.

Lemma key_eqb_refl (a : Key) : key_eqb a a = true.
Proof. apply key_eqb_eq; reflexivity. Qed.

Lemma key_eqb_neq (a b : Key) : key_eqb a b = false <-> a <> b.
Proof.
  split; intros H.
  - intros E; apply key_eqb_eq in E; congruence.
  - destruct (key_eqb a b) eqn:E; [apply key_eqb_eq in E; contradiction | reflexivity].
Qed.

Lemma key_eq_dec (a b : Key) : {a = b} + {a <> b}.
Proof. decide equality; apply Nat.eq_dec. Defined.

Lemma has_get (k : Key) (m : t) :
  has k m = match get k m with Some _ => true | None => false end.
Proof.
  induction m as [| [k' v] m IH]; simpl; [reflexivity |].
  destruct (key_eqb k k'); [reflexivity | exact IH].
Qed.

Lemma has_In (k : Key) (m : t) : has k m = true <-> In k (keys m).
Proof.
  induction m as [| [k' v] m IH]; simpl.
  - split; [discriminate | contradiction].
  - destruct (key_eqb k k') eqn:E.
    + apply key_eqb_eq in E; subst; split; intros _; [left |]; reflexivity.
    + apply key_eqb_neq in E; rewrite IH; split; intros H.
      * right; exact H.
      * destruct H as [H | H]; [congruence | exact H].
Qed.

Lemma get_set_same (k : Key) (v : bool) (m : t) : get k (set k v m) = Some v.
Proof.
  induction m as [| [k' v'] m IH]; simpl.
  - rewrite key_eqb_refl; reflexivity.
  - destruct (key_eqb k k') eqn:E; simpl; rewrite E; [reflexivity | exact IH].
Qed.

Lemma get_set_other (k k0 : Key) (v : bool) (m : t) :
  k <> k0 -> get k (set k0 v m) = get k m.
Proof.
  intros Hne; induction m as [| [k' v'] m IH]; simpl.
  - apply key_eqb_neq in Hne; rewrite Hne; reflexivity.
  - destruct (key_eqb k0 k') eqn:E; simpl.
    + apply key_eqb_eq in E; subst k'.
      apply key_eqb_neq in Hne; rewrite Hne; reflexivity.
    + destruct (key_eqb k k'); [reflexivity | exact IH].
Qed.

Lemma has_set (k k0 : Key) (v : bool) (m : t) :
  has k (set k0 v m) = key_eqb k k0 || has k m.
Proof.
  rewrite !has_get.
  destruct (key_eqb k k0) eqn:E.
  - apply key_eqb_eq in E; subst; rewrite get_set_same; reflexivity.
  - apply key_eqb_neq in E; rewrite get_set_other by exact E; reflexivity.
Qed.

(** [set] keeps the keys and their order; a new key goes last. *)
Lemma keys_set (k : Key) (v : bool) (m : t) :
  keys (set k v m) = if has k m then keys m else keys m ++ [k].
Proof.
  unfold keys; induction m as [| [k' v'] m IH]; simpl; [reflexivity |].
  destruct (key_eqb k k') eqn:E; simpl; [reflexivity |].
  rewrite IH; destruct (has k m); reflexivity.
Qed.

Lemma NoDup_keys_set (k : Key) (v : bool) (m : t) :
  NoDup (keys m) -> NoDup (keys (set k v m)).
Proof.
  intros Hnd; rewrite keys_set.
  destruct (has k m) eqn:E; [exact Hnd |].
  apply NoDup_app; repeat split.
  - exact Hnd.
  - constructor; [intros [] | constructor].
  - intros x Hx [Hk | []]; subst x.
    apply has_In in Hx; congruence.
Qed.

Lemma get_In (k : Key) (v : bool) (m : t) : get k m = Some v -> In (k, v) m.
Proof.
  induction m as [| [k' v'] m IH]; simpl; [discriminate |].
  destruct (key_eqb k k') eqn:E.
  - apply key_eqb_eq in E; subst; intros H; inversion H; left; reflexivity.
  - intros H; right; apply IH; exact H.
Qed.

Lemma In_get (k : Key) (v : bool) (m : t) :
  NoDup (keys m) -> In (k, v) m -> get k m = Some v.
Proof.
  induction m as [| [k' v'] m IH]; simpl; [contradiction |].
  intros Hnd Hin; inversion Hnd as [| ? ? Hnotin Hnd']; subst.
  destruct Hin as [Heq | Hin].
  - inversion Heq; subst; rewrite key_eqb_refl; reflexivity.
  - destruct (key_eqb k k') eqn:E.
    + apply key_eqb_eq in E; subst k'.
      exfalso; apply Hnotin; apply (in_map fst) in Hin; exact Hin.
    + apply IH; assumption.
Qed.

End JsMapFacts.

(* ===================================================================== *)
(** * Proofs: the tree *)
(* ===================================================================== *)

Module TsFacts.
Import Ts.

(** Induction on a node with the hypothesis on every child. *)
Section NodeInduction.

Variable P : Node -> Prop.

Hypothesis step :
  forall i k p e t cs,
    Forall (fun qc : string * Node => P (snd qc)) cs -> P (mkNode i k p e t cs).

Fixpoint Node_induction (n : Node) : P n :=
  match n with
  | mkNode i k p e t cs =>
      step i k p e t cs
        ((fix all (l : list (string * Node))
            : Forall (fun qc : string * Node => P (snd qc)) l :=
            match l with
            | [] => Forall_nil _
            | qc :: l' => Forall_cons qc (Node_induction (snd qc)) (all l')
            end) cs)
  end.

End NodeInduction.

Lemma preorder_eq (n : Node) : preorder n = n :: preorderList (children n).
Proof.
  destruct n as [i k p e t cs]; simpl; f_equal.
  unfold preorderList.
  induction cs as [| [q c] cs IH]; simpl; [reflexivity |].
  rewrite IH; reflexivity.
Qed.

Lemma preorder_self (n : Node) : In n (preorder n).
Proof. rewrite preorder_eq; left; reflexivity. Qed.

Lemma kind_eqb_eq (a b : SyntaxKind) : kind_eqb a b = true <-> a = b.
Proof.
  unfold kind_eqb; destruct (SyntaxKind_eq_dec a b); split; intros H;
    congruence.
Qed.

Lemma kind_eqb_refl (a : SyntaxKind) : kind_eqb a a = true.
Proof. apply kind_eqb_eq; reflexivity. Qed.

Lemma lookup_In (p : string) (cs : list (string * Node)) (c : Node) :
  lookup p cs = Some c -> In (p, c) cs.
Proof.
  induction cs as [| [q c0] cs IH]; simpl; [discriminate |].
  destruct (String.eqb p q) eqn:E.
  - apply String.eqb_eq in E; subst q. intros H; inversion H; left; reflexivity.
  - intros H; right; apply IH, H.
Qed.

End TsFacts.

(* ===================================================================== *)
(** * Proofs: no-unused-declaration *)
(* ===================================================================== *)

Lemma bind_ret_r {A : Type} (r : Result A) : (a <- r ;; Ok a) = r.
Proof. destruct r; reflexivity. Qed.

Lemma bind_assoc {A B C : Type} (r : Result A) (f : A -> Result B)
  (g : B -> Result C) :
  (b <- (a <- r ;; f a) ;; g b) = (a <- r ;; b <- f a ;; g b).
Proof. destruct r; reflexivity. Qed.

Module NoUnusedDeclarationFacts.
Import Ts JsMap JsMapFacts TsFacts NoUnusedDeclaration.

Section Pass.

Variable typeChecker : TypeChecker.
Variable isReassignmentTarget : Node -> bool.
Variable forEachDeclaredVariable : Node -> list Node.

Local Abbreviation enter' :=
  (enter typeChecker isReassignmentTarget forEachDeclaredVariable).
Local Abbreviation visitNode' :=
  (visitNode typeChecker isReassignmentTarget forEachDeclaredVariable).
Local Abbreviation setOps' := (setOps forEachDeclaredVariable).
Local Abbreviation declOps' := (declOps forEachDeclaredVariable).
Local Abbreviation markKeys' := (markKeys typeChecker isReassignmentTarget).

(** ** The walk as a loop over the nodes in pre-order *)

Lemma dispatch_super (node : Node) (super : Walker -> Result Walker) (w : Walker) :
  dispatch typeChecker isReassignmentTarget forEachDeclaredVariable node super w
  = (w' <- enter' node w ;; super w').
Proof.
  unfold enter, dispatch.
  destruct (kind node); try reflexivity.
  - unfold visitIdentifier; rewrite bind_assoc; reflexivity.
  - unfold visitVariableStatement; rewrite bind_assoc; reflexivity.
Qed.

Lemma visitNode_eq (n : Node) (w : Walker) :
  visitNode' n w
  = (w1 <- enter' n w ;;
     w2 <- forEachM visitNode' (map snd (children n)) w1 ;;
     if isSourceFile n then onSourceFileEnd w2 else Ok w2).
Proof.
  destruct n as [i k p e t cs]; simpl visitNode.
  rewrite dispatch_super, bind_assoc.
  destruct (enter' (mkNode i k p e t cs) w) as [w1 | err]; simpl; [| reflexivity].
  f_equal. clear w. revert w1.
  induction cs as [| [q c] cs IH]; intros w1; simpl; [reflexivity |].
  destruct (visitNode' c w1); simpl; [apply IH | reflexivity].
Qed.

Lemma visitNode_flat (n : Node) :
  forall w,
    (forall x, In x (preorder n) -> isSourceFile x = false) ->
    visitNode' n w = forEachM enter' (preorder n) w.
Proof.
  induction n as [i k p e t cs IH] using Node_induction; intros w Hsf.
  rewrite visitNode_eq, preorder_eq.
  rewrite (Hsf _ (preorder_self _)).
  simpl forEachM.
  destruct (enter' (mkNode i k p e t cs) w) as [w1 | err]; simpl; [| reflexivity].
  rewrite bind_ret_r.
  assert (Hcs : forall x, In x (preorderList cs) -> isSourceFile x = false).
  { intros x Hx; apply Hsf; rewrite preorder_eq; right; exact Hx. }
  clear Hsf w. revert w1.
  induction cs as [| [q c] cs IHcs]; intros w1; simpl; [reflexivity |].
  inversion IH as [| ? ? Hc Hrest]; subst.
  unfold preorderList in *; simpl in *.
  rewrite forEachM_app.
  rewrite Hc by (intros x Hx; apply Hcs; apply in_or_app; left; exact Hx).
  destruct (forEachM enter' (preorder c) w1); simpl; [| reflexivity].
  apply IHcs; [exact Hrest |].
  intros x Hx; apply Hcs; apply in_or_app; right; exact Hx.
Qed.

(** A pass over a source file: enter every node in pre-order, then report. *)
Lemma visitNode_file (sourceFile : Node) (w : Walker) :
  isFile sourceFile = true ->
  visitNode' sourceFile w
  = (w1 <- forEachM enter' (preorder sourceFile) w ;; onSourceFileEnd w1).
Proof.
  unfold isFile; intros H; apply andb_true_iff in H as [Hroot Hrest].
  rewrite forallb_forall in Hrest.
  rewrite visitNode_eq, preorder_eq, Hroot; simpl forEachM.
  rewrite bind_assoc.
  destruct (enter' sourceFile w) as [w1 | err]; simpl; [| reflexivity].
  f_equal.
  assert (Hcs : forall x, In x (preorderList (children sourceFile)) ->
                          isSourceFile x = false).
  { intros x Hx; apply Hrest in Hx; destruct (isSourceFile x);
      [discriminate | reflexivity]. }
  clear Hrest Hroot w. revert w1.
  generalize dependent (children sourceFile).
  induction l as [| [q c] cs IHcs]; intros Hcs w1; simpl; [reflexivity |].
  unfold preorderList in *; simpl in *.
  rewrite forEachM_app.
  rewrite visitNode_flat
    by (intros x Hx; apply Hcs; apply in_or_app; left; exact Hx).
  destruct (forEachM enter' (preorder c) w1); simpl; [| reflexivity].
  apply IHcs. intros x Hx; apply Hcs; apply in_or_app; right; exact Hx.
Qed.

(** ** What the map writes do to one key *)

Lemma applySets_other (k : Key) (ops : list (Key * bool)) (m : JsMap.t) :
  ~ In k (map fst ops) -> get k (applySets ops m) = get k m.
Proof.
  revert m; induction ops as [| [k0 v0] ops IH]; intros m Hni; simpl;
    [reflexivity |].
  simpl in Hni. rewrite IH by tauto.
  apply get_set_other; intros E; apply Hni; left; symmetry; exact E.
Qed.

Lemma applySets_false_stays (k : Key) (ops : list (Key * bool)) (m : JsMap.t) :
  get k m = Some false ->
  (forall v, In (k, v) ops -> v = false) ->
  get k (applySets ops m) = Some false.
Proof.
  revert m; induction ops as [| [k0 v0] ops IH]; intros m Hget Hall; simpl;
    [exact Hget |].
  apply IH; [| intros v Hv; apply Hall; right; exact Hv].
  destruct (key_eq_dec k k0) as [E | E].
  - subst k0. rewrite (Hall v0 (or_introl eq_refl)). apply get_set_same.
  - simpl; rewrite get_set_other by exact E; exact Hget.
Qed.

Lemma applySets_registers (k : Key) (ops : list (Key * bool)) (m : JsMap.t) :
  In (k, false) ops ->
  (forall v, In (k, v) ops -> v = false) ->
  get k (applySets ops m) = Some false.
Proof.
  revert m; induction ops as [| [k0 v0] ops IH]; intros m Hin Hall;
    [contradiction |].
  destruct Hin as [E | Hin].
  - inversion E; subst k0 v0. simpl.
    apply applySets_false_stays; [apply get_set_same |].
    intros v Hv; apply Hall; right; exact Hv.
  - simpl; apply IH; [exact Hin |].
    intros v Hv; apply Hall; right; exact Hv.
Qed.

Lemma applySets_has (k : Key) (ops : list (Key * bool)) (m : JsMap.t) :
  has k (applySets ops m) = true <-> has k m = true \/ In k (map fst ops).
Proof.
  revert m; induction ops as [| [k0 v0] ops IH]; intros m; simpl.
  - tauto.
  - rewrite IH, has_set, orb_true_iff, key_eqb_eq.
    split; intros H.
    + destruct H as [[H | H] | H]; [right; left; congruence | tauto | tauto].
    + destruct H as [H | [H | H]]; [tauto | left; left; congruence | tauto].
Qed.

Lemma applySets_NoDup (ops : list (Key * bool)) (m : JsMap.t) :
  NoDup (keys m) -> NoDup (keys (applySets ops m)).
Proof.
  revert m; induction ops as [| [k0 v0] ops IH]; intros m Hnd; simpl;
    [exact Hnd |].
  apply IH, NoDup_keys_set, Hnd.
Qed.

(** ** What the marking of a reference does to one key *)

Local Abbreviation markAll :=
  (fold_left (fun (m : JsMap.t) (d : Node) => markDeclaration d m)).

Lemma markDeclaration_has (k : Key) (d : Node) (m : JsMap.t) :
  has k (markDeclaration d m) = has k m.
Proof.
  unfold markDeclaration.
  destruct (has (keyOf (getIdentifier d)) m) eqn:E; [| reflexivity].
  rewrite has_set.
  destruct (key_eqb k (keyOf (getIdentifier d))) eqn:Ek; [| reflexivity].
  apply key_eqb_eq in Ek; subst k; simpl; symmetry; exact E.
Qed.

Lemma markDeclaration_keys (d : Node) (m : JsMap.t) :
  keys (markDeclaration d m) = keys m.
Proof.
  unfold markDeclaration.
  destruct (has (keyOf (getIdentifier d)) m) eqn:E; [| reflexivity].
  rewrite keys_set, E; reflexivity.
Qed.

Lemma markAll_has (k : Key) (ds : list Node) (m : JsMap.t) :
  has k (markAll ds m) = has k m.
Proof.
  revert m; induction ds as [| d ds IH]; intros m; simpl; [reflexivity |].
  rewrite IH; apply markDeclaration_has.
Qed.

Lemma markAll_keys (ds : list Node) (m : JsMap.t) :
  keys (markAll ds m) = keys m.
Proof.
  revert m; induction ds as [| d ds IH]; intros m; simpl; [reflexivity |].
  rewrite IH; apply markDeclaration_keys.
Qed.

Lemma markAll_other (k : Key) (ds : list Node) (m : JsMap.t) :
  ~ In k (map (fun d => keyOf (getIdentifier d)) ds) ->
  get k (markAll ds m) = get k m.
Proof.
  revert m; induction ds as [| d ds IH]; intros m Hni; simpl; [reflexivity |].
  simpl in Hni. rewrite IH by tauto.
  unfold markDeclaration.
  destruct (has (keyOf (getIdentifier d)) m); [| reflexivity].
  apply get_set_other; intros E; apply Hni; left; symmetry; exact E.
Qed.

Lemma markAll_true_stays (k : Key) (ds : list Node) (m : JsMap.t) :
  get k m = Some true -> get k (markAll ds m) = Some true.
Proof.
  revert m; induction ds as [| d ds IH]; intros m Hget; simpl; [exact Hget |].
  apply IH. unfold markDeclaration.
  destruct (has (keyOf (getIdentifier d)) m); [| exact Hget].
  destruct (key_eq_dec k (keyOf (getIdentifier d))) as [E | E].
  - rewrite <- E; apply get_set_same.
  - rewrite get_set_other by exact E; exact Hget.
Qed.

Lemma markAll_hit (k : Key) (ds : list Node) (m : JsMap.t) :
  has k m = true ->
  In k (map (fun d => keyOf (getIdentifier d)) ds) ->
  get k (markAll ds m) = Some true.
Proof.
  revert m; induction ds as [| d ds IH]; intros m Hhas Hin; [contradiction |].
  simpl. destruct Hin as [E | Hin].
  - apply markAll_true_stays. unfold markDeclaration.
    rewrite E, Hhas. apply get_set_same.
  - apply IH; [rewrite markDeclaration_has; exact Hhas | exact Hin].
Qed.

(** ** The hooks as map writes *)

Lemma walker_eta (w : Walker) :
  {| _identifiers := _identifiers w; failures := failures w |} = w.
Proof. destruct w; reflexivity. Qed.

Lemma applySets_app (a b : list (Key * bool)) (m : JsMap.t) :
  applySets (a ++ b) m = applySets b (applySets a m).
Proof. unfold applySets; apply fold_left_app. Qed.

Lemma fold_setIdentifier {A : Type} (key : A -> Key) (v : bool) (l : list A)
  (w : Walker) :
  fold_left (fun w' x => setIdentifier (key x) v w') l w
  = {| _identifiers := applySets (map (fun x => (key x, v)) l) (_identifiers w);
       failures := failures w |}.
Proof.
  revert w; induction l as [| x l IH]; intros w; simpl.
  - symmetry; apply walker_eta.
  - rewrite IH; reflexivity.
Qed.

Lemma registerImportSpecifier_spec (element : Node) (w : Walker) :
  registerImportSpecifier element w
  = {| _identifiers := applySets (importOps element) (_identifiers w);
       failures := failures w |}.
Proof.
  unfold registerImportSpecifier, importOps.
  destruct (prop "propertyName" element); reflexivity.
Qed.

Lemma fold_registerImportSpecifier (l : list Node) (w : Walker) :
  fold_left (fun w' element => registerImportSpecifier element w') l w
  = {| _identifiers := applySets (flat_map importOps l) (_identifiers w);
       failures := failures w |}.
Proof.
  revert w; induction l as [| x l IH]; intros w; simpl.
  - symmetry; apply walker_eta.
  - rewrite IH, registerImportSpecifier_spec, applySets_app; reflexivity.
Qed.

(** A node that is no identifier performs the writes of [setOps]. *)
Lemma enter_sets (node : Node) (w w' : Walker) :
  kind node <> Identifier ->
  enter' node w = Ok w' ->
  w' = {| _identifiers := applySets (setOps' node) (_identifiers w);
          failures := failures w |}.
Proof.
  intros Hk.
  unfold enter, dispatch, setOps, isExported, declOps.
  destruct (kind node) eqn:K; try congruence;
    try (intros H; inversion H; subst; symmetry; apply walker_eta).
  - (* class *)
    unfold visitClassDeclaration.
    destruct (hasModifier (modifiers node) ExportKeyword); simpl;
      intros H; inversion H; subst; [symmetry; apply walker_eta | reflexivity].
  - (* enum *)
    unfold visitEnumDeclaration.
    destruct (hasModifier (modifiers node) ExportKeyword); simpl;
      intros H; inversion H; subst; [symmetry; apply walker_eta | reflexivity].
  - (* function *)
    unfold visitFunctionDeclaration.
    destruct (prop "name" node);
      destruct (hasModifier (modifiers node) ExportKeyword); simpl;
      intros H; inversion H; subst;
      first [symmetry; apply walker_eta | reflexivity].
  - (* variable statement *)
    unfold visitVariableStatement.
    destruct (hasModifier (modifiers node) ExportKeyword); simpl.
    + intros H; inversion H; subst; symmetry; apply walker_eta.
    + destruct (prop "declarationList" node); simpl; [| discriminate].
      intros H; inversion H; subst. apply fold_setIdentifier.
  - (* named imports *)
    unfold visitNamedImports. intros H; inversion H; subst.
    apply fold_registerImportSpecifier.
  - (* namespace import *)
    unfold visitNamespaceImport. intros H; inversion H; subst. reflexivity.
Qed.

(** An identifier is skipped, or marks the declarations of its symbol. *)
Lemma enter_identifier (node : Node) (w w' : Walker) :
  kind node = Identifier ->
  enter' node w = Ok w' ->
  failures w' = failures w /\
  (((has (Some (id node)) (_identifiers w) = true \/
     isReassignmentTarget node = true) /\
    _identifiers w' = _identifiers w)
   \/
   (has (Some (id node)) (_identifiers w) = false /\
    isReassignmentTarget node = false /\
    exists symbol declarations,
      getSymbolAtLocation typeChecker node = Some symbol /\
      getDeclarations symbol = Some declarations /\
      _identifiers w' = markAll declarations (_identifiers w))).
Proof.
  intros K. unfold enter, dispatch. rewrite K. unfold visitIdentifier.
  destruct (has (Some (id node)) (_identifiers w)) eqn:Hhas; simpl.
  - intros H; inversion H; subst; split; [reflexivity |].
    left; split; [left |]; reflexivity.
  - destruct (isReassignmentTarget node) eqn:Hrt; simpl.
    + intros H; inversion H; subst; split; [reflexivity |].
      left; split; [right |]; reflexivity.
    + destruct (getSymbolAtLocation typeChecker node) as [symbol |];
        simpl; [| discriminate].
      destruct (getDeclarations symbol) as [declarations |] eqn:Hd;
        simpl; [| discriminate].
      intros H; inversion H; subst; simpl; split; [reflexivity |].
      right; repeat split. exists symbol, declarations; repeat split; assumption.
Qed.

Lemma setOps_identifier (node : Node) :
  kind node = Identifier -> setOps' node = [].
Proof.
  intros K; unfold setOps, isExported, declOps; rewrite K; reflexivity.
Qed.

Lemma markKeys_not_identifier (node : Node) :
  kind node <> Identifier -> markKeys' node = [].
Proof.
  intros K; unfold markKeys; destruct (kind node); congruence.
Qed.

Lemma markKeys_identifier (node : Node) (symbol : Symbol)
  (declarations : list Node) :
  kind node = Identifier ->
  isReassignmentTarget node = false ->
  getSymbolAtLocation typeChecker node = Some symbol ->
  getDeclarations symbol = Some declarations ->
  markKeys' node = map (fun d => keyOf (getIdentifier d)) declarations.
Proof.
  intros K Hrt Hs Hd; unfold markKeys; rewrite K, Hrt, Hs, Hd; reflexivity.
Qed.

Lemma enter_failures (node : Node) (w w' : Walker) :
  enter' node w = Ok w' -> failures w' = failures w.
Proof.
  intros H. destruct (SyntaxKind_eq_dec (kind node) Identifier) as [K | K].
  - apply (enter_identifier _ _ _ K H).
  - rewrite (enter_sets _ _ _ K H); reflexivity.
Qed.

Lemma enter_NoDup (node : Node) (w w' : Walker) :
  enter' node w = Ok w' ->
  NoDup (keys (_identifiers w)) -> NoDup (keys (_identifiers w')).
Proof.
  intros H Hnd. destruct (SyntaxKind_eq_dec (kind node) Identifier) as [K | K].
  - destruct (enter_identifier _ _ _ K H) as [_ [[_ E] | (_ & _ & s & ds & _ & _ & E)]];
      rewrite E; [exact Hnd | rewrite markAll_keys; exact Hnd].
  - rewrite (enter_sets _ _ _ K H); simpl. apply applySets_NoDup, Hnd.
Qed.

(** Entries are never removed. *)
Lemma enter_has_mono (k : Key) (node : Node) (w w' : Walker) :
  enter' node w = Ok w' ->
  has k (_identifiers w) = true -> has k (_identifiers w') = true.
Proof.
  intros H Hhas. destruct (SyntaxKind_eq_dec (kind node) Identifier) as [K | K].
  - destruct (enter_identifier _ _ _ K H) as [_ [[_ E] | (_ & _ & s & ds & _ & _ & E)]];
      rewrite E; [exact Hhas | rewrite markAll_has; exact Hhas].
  - rewrite (enter_sets _ _ _ K H); simpl. apply applySets_has; left; exact Hhas.
Qed.

(** A key enters the map only through a write of the hook. *)
Lemma enter_absent (k : Key) (node : Node) (w w' : Walker) :
  enter' node w = Ok w' ->
  has k (_identifiers w) = false ->
  ~ In k (map fst (setOps' node)) ->
  has k (_identifiers w') = false.
Proof.
  intros H Hhas Hni. destruct (SyntaxKind_eq_dec (kind node) Identifier) as [K | K].
  - destruct (enter_identifier _ _ _ K H) as [_ [[_ E] | (_ & _ & s & ds & _ & _ & E)]];
      rewrite E; [exact Hhas | rewrite markAll_has; exact Hhas].
  - rewrite (enter_sets _ _ _ K H); simpl.
    destruct (has k (applySets (setOps' node) (_identifiers w))) eqn:E;
      [| reflexivity].
    apply applySets_has in E as [E | E]; [congruence | contradiction].
Qed.

(** An unused entry stays unused unless the node writes [true] to it or is
    a reference that marks it. *)
Lemma enter_false_stays (k : Key) (node : Node) (w w' : Walker) :
  enter' node w = Ok w' ->
  get k (_identifiers w) = Some false ->
  (forall v, In (k, v) (setOps' node) -> v = false) ->
  (In k (markKeys' node) -> has (Some (id node)) (_identifiers w) = true) ->
  get k (_identifiers w') = Some false.
Proof.
  intros H Hget Hsets Hmarks.
  destruct (SyntaxKind_eq_dec (kind node) Identifier) as [K | K].
  - destruct (enter_identifier _ _ _ K H)
      as [_ [[_ E] | (Hhas & Hrt & s & ds & Hs & Hd & E)]];
      rewrite E; [exact Hget |].
    rewrite markAll_other; [exact Hget |].
    intros Hin. rewrite <- (markKeys_identifier _ _ _ K Hrt Hs Hd) in Hin.
    apply Hmarks in Hin. congruence.
  - rewrite (enter_sets _ _ _ K H); simpl.
    apply applySets_false_stays; assumption.
Qed.

(** A used entry stays used unless the node registers the key again. *)
Lemma enter_true_stays (k : Key) (node : Node) (w w' : Walker) :
  enter' node w = Ok w' ->
  get k (_identifiers w) = Some true ->
  ~ In k (map fst (setOps' node)) ->
  get k (_identifiers w') = Some true.
Proof.
  intros H Hget Hni.
  destruct (SyntaxKind_eq_dec (kind node) Identifier) as [K | K].
  - destruct (enter_identifier _ _ _ K H) as [_ [[_ E] | (_ & _ & s & ds & _ & _ & E)]];
      rewrite E; [exact Hget | apply markAll_true_stays; exact Hget].
  - rewrite (enter_sets _ _ _ K H); simpl.
    rewrite applySets_other; assumption.
Qed.

(** A declaration that is registered is in the map, unused, afterwards. *)
Lemma enter_registers (k : Key) (node : Node) (w w' : Walker) :
  enter' node w = Ok w' ->
  In (k, false) (setOps' node) ->
  (forall v, In (k, v) (setOps' node) -> v = false) ->
  get k (_identifiers w') = Some false.
Proof.
  intros H Hin Hall.
  destruct (SyntaxKind_eq_dec (kind node) Identifier) as [K | K].
  - rewrite (setOps_identifier _ K) in Hin; contradiction.
  - rewrite (enter_sets _ _ _ K H); simpl.
    apply applySets_registers; assumption.
Qed.

(** A reference that is no declaration and no reassignment target marks
    every registered declaration of its symbol. *)
Lemma enter_marks (k : Key) (node : Node) (w : Walker) :
  kind node = Identifier ->
  isReassignmentTarget node = false ->
  has (Some (id node)) (_identifiers w) = false ->
  has k (_identifiers w) = true ->
  In k (markKeys' node) ->
  forall w', enter' node w = Ok w' -> get k (_identifiers w') = Some true.
Proof.
  intros K Hrt Hnd Hhas Hin w' H.
  destruct (enter_identifier _ _ _ K H)
    as [_ [[[C | C] _] | (_ & _ & s & ds & Hs & Hd & E)]]; try congruence.
  rewrite E. apply markAll_hit; [exact Hhas |].
  rewrite <- (markKeys_identifier _ _ _ K Hrt Hs Hd); exact Hin.
Qed.

(** On a resolved reference and on a well-formed node the hook returns. *)
Lemma enter_total (node : Node) (w : Walker) :
  resolved typeChecker isReassignmentTarget node = true ->
  wellFormed forEachDeclaredVariable node = true ->
  exists w', enter' node w = Ok w'.
Proof.
  unfold resolved, wellFormed, enter, dispatch, isExported.
  intros Hr Hw. apply andb_true_iff in Hw as [Hw _].
  destruct (kind node) eqn:K; try (eexists; reflexivity).
  - unfold visitIdentifier.
    destruct (has (Some (id node)) (_identifiers w)); simpl;
      [eexists; reflexivity |].
    destruct (isReassignmentTarget node); simpl; [eexists; reflexivity |].
    simpl in Hr.
    destruct (getSymbolAtLocation typeChecker node) as [s |]; [| discriminate].
    destruct (getDeclarations s); [| discriminate].
    eexists; reflexivity.
  - unfold visitVariableStatement.
    destruct (hasModifier (modifiers node) ExportKeyword); simpl;
      [eexists; reflexivity |].
    simpl in Hw.
    destruct (prop "declarationList" node); [| discriminate].
    eexists; reflexivity.
Qed.

(** ** The report at the end of the file *)

Local Abbreviation report :=
  (fun (entry : Key * bool) (w' : Walker) =>
     let (identifier, used) := entry in
     if negb used then addFailureAtNode identifier FAILURE_STRING w' else Ok w').

Lemma report_spec (l : JsMap.t) (w w' : Walker) :
  forEachM report l w = Ok w' ->
  _identifiers w' = _identifiers w /\
  exists ids, map Some ids = unusedKeys l /\
              reportedAt (failures w') = reportedAt (failures w) ++ ids.
Proof.
  revert w; induction l as [| [k used] l IH]; intros w H; simpl in H.
  - inversion H; subst; split; [reflexivity |].
    exists []; split; [reflexivity | symmetry; apply app_nil_r].
  - apply bind_Ok_inv in H as (w1 & H1 & H2).
    destruct (IH _ H2) as (Hm & ids & Hids & Hfs).
    destruct used; simpl in H1.
    + inversion H1; subst w1. split; [exact Hm |].
      exists ids; split; [exact Hids | exact Hfs].
    + destruct k as [i |]; simpl in H1; [| discriminate].
      inversion H1; subst w1; simpl in *. split; [exact Hm |].
      exists (i :: ids); split.
      * unfold unusedKeys in *; simpl; rewrite Hids; reflexivity.
      * rewrite Hfs; unfold reportedAt; rewrite map_app, <- app_assoc; reflexivity.
Qed.

Lemma report_total (l : JsMap.t) (w : Walker) :
  ~ In None (keys l) -> exists w', forEachM report l w = Ok w'.
Proof.
  revert w; induction l as [| [k used] l IH]; intros w Hn; simpl.
  - eexists; reflexivity.
  - simpl in Hn.
    destruct used; simpl.
    + apply IH; tauto.
    + destruct k as [i |]; simpl; [apply IH; tauto | exfalso; tauto].
Qed.

Lemma unusedKeys_In (k : Key) (m : JsMap.t) :
  In k (unusedKeys m) <-> In (k, false) m.
Proof.
  unfold unusedKeys; rewrite in_map_iff; split.
  - intros ([k' v] & E & Hin); simpl in E; subst k'.
    apply filter_In in Hin as [Hin Hv]; simpl in Hv.
    destruct v; [discriminate | exact Hin].
  - intros Hin; exists (k, false); split; [reflexivity |].
    apply filter_In; split; [exact Hin | reflexivity].
Qed.

Lemma unusedKeys_NoDup (m : JsMap.t) : NoDup (keys m) -> NoDup (unusedKeys m).
Proof.
  unfold unusedKeys, keys; induction m as [| [k v] m IH]; simpl; intros Hnd;
    [constructor |].
  inversion Hnd as [| ? ? Hni Hnd']; subst.
  destruct v; simpl; [apply IH; exact Hnd' |].
  constructor; [| apply IH; exact Hnd'].
  intros Hin; apply Hni.
  apply in_map_iff in Hin as (e & E & Hin); apply filter_In in Hin as [Hin _].
  apply in_map_iff; exists e; split; assumption.
Qed.

Lemma count_occ_Some (n : nat) (ids : list nat) :
  count_occ Nat.eq_dec ids n = count_occ key_eq_dec (map Some ids) (Some n).
Proof.
  induction ids as [| i ids IH]; simpl; [reflexivity |].
  destruct (Nat.eq_dec i n) as [E | E];
    destruct (key_eq_dec (Some i) (Some n)) as [E' | E'];
    try (rewrite IH; reflexivity); congruence.
Qed.

Lemma In_Some (n : nat) (ids : list nat) : In n ids <-> In (Some n) (map Some ids).
Proof.
  rewrite in_map_iff; split.
  - intros H; exists n; split; [reflexivity | exact H].
  - intros (x & E & H); inversion E; subst; exact H.
Qed.

(** With the map of the finished walk known, so are the failures. *)
Lemma onSourceFileEnd_unused (n : nat) (w w' : Walker) :
  failures w = [] ->
  NoDup (keys (_identifiers w)) ->
  get (Some n) (_identifiers w) = Some false ->
  onSourceFileEnd w = Ok w' ->
  count_occ Nat.eq_dec (reportedAt (failures w')) n = 1.
Proof.
  intros Hf Hnd Hget H. unfold onSourceFileEnd in H.
  destruct (report_spec _ _ _ H) as (_ & ids & Hids & Hfs).
  rewrite Hfs, Hf; simpl. rewrite count_occ_Some, Hids.
  apply NoDup_count_occ'; [apply unusedKeys_NoDup; exact Hnd |].
  apply unusedKeys_In, get_In; exact Hget.
Qed.

Lemma onSourceFileEnd_not_unused (n : nat) (w w' : Walker) :
  failures w = [] ->
  ~ In (Some n, false) (_identifiers w) ->
  onSourceFileEnd w = Ok w' ->
  ~ In n (reportedAt (failures w')).
Proof.
  intros Hf Hni H. unfold onSourceFileEnd in H.
  destruct (report_spec _ _ _ H) as (_ & ids & Hids & Hfs).
  rewrite Hfs, Hf; simpl. rewrite In_Some, Hids, unusedKeys_In. exact Hni.
Qed.

(** ** A whole pass *)

Lemma declOps_tracked (node : Node) (k : Key) (v : bool) :
  isTrackedDeclaration node = true -> In (k, v) (declOps' node) -> v = false.
Proof.
  unfold isTrackedDeclaration, declOps.
  destruct (kind node); try discriminate; intros _.
  - intros [E | []]; inversion E; reflexivity.
  - intros [E | []]; inversion E; reflexivity.
  - destruct (prop "name" node); [| contradiction].
    intros [E | []]; inversion E; reflexivity.
  - destruct (prop "declarationList" node); [| contradiction].
    intros Hin; apply in_map_iff in Hin as (x & E & _); inversion E; reflexivity.
Qed.

Lemma setOps_incl (node : Node) (op : Key * bool) :
  In op (setOps' node) -> In op (declOps' node).
Proof. unfold setOps; destruct (isExported node); [contradiction | tauto]. Qed.

Lemma setOps_exported (node : Node) : isExported node = true -> setOps' node = [].
Proof. unfold setOps; intros E; rewrite E; reflexivity. Qed.

Lemma setOps_not_exported (node : Node) :
  isExported node = false -> setOps' node = declOps' node.
Proof. unfold setOps; intros E; rewrite E; reflexivity. Qed.

Lemma wellFormed_named (node : Node) :
  wellFormed forEachDeclaredVariable node = true ->
  ~ In None (map fst (setOps' node)).
Proof.
  unfold wellFormed; intros H; apply andb_true_iff in H as [_ H].
  apply negb_true_iff in H. intros Hin.
  apply in_map_iff in Hin as (op & E & Hin).
  assert (X : existsb (fun op => key_eqb (fst op) None) (setOps' node) = true).
  { apply existsb_exists; exists op; split; [exact Hin |].
    rewrite E; reflexivity. }
  congruence.
Qed.

(** The walk of a resolved, well-formed file returns; the map of the
    finished walk has distinct keys, none of them [undefined]. *)
Lemma walk_total (l : list Node) (w : Walker) :
  forallb (resolved typeChecker isReassignmentTarget) l = true ->
  forallb (wellFormed forEachDeclaredVariable) l = true ->
  NoDup (keys (_identifiers w)) ->
  ~ In None (keys (_identifiers w)) ->
  exists w', forEachM enter' l w = Ok w' /\
             NoDup (keys (_identifiers w')) /\
             ~ In None (keys (_identifiers w')).
Proof.
  intros Hr Hw Hnd Hnone.
  rewrite forallb_forall in Hr, Hw.
  apply (forEachM_total enter'
           (fun w => NoDup (keys (_identifiers w)) /\
                     ~ In None (keys (_identifiers w)))); [| tauto].
  intros x s Hx [Hs1 Hs2].
  destruct (enter_total x s (Hr x Hx) (Hw x Hx)) as (s' & Hs').
  exists s'; split; [exact Hs' | split].
  - apply (enter_NoDup x s s' Hs' Hs1).
  - rewrite <- has_In. intros Hhas.
    rewrite (enter_absent None x s s' Hs') in Hhas; [discriminate | |].
    + destruct (has None (_identifiers s)) eqn:E; [| reflexivity].
      apply has_In in E; contradiction.
    + apply wellFormed_named, Hw, Hx.
Qed.

Lemma walk_failures (l : list Node) (w w' : Walker) :
  forEachM enter' l w = Ok w' -> failures w' = failures w.
Proof.
  intros H.
  apply (forEachM_invariant enter' (fun s => failures s = failures w) l)
    with (s := w) (s' := w'); [| reflexivity | exact H].
  intros a s s' _ Hs Hstep. rewrite (enter_failures _ _ _ Hstep); exact Hs.
Qed.

(** The pass over a resolved, well-formed file returns. *)
Lemma applyWithProgram_total (sourceFile : Node) :
  isFile sourceFile = true ->
  forallb (resolved typeChecker isReassignmentTarget) (preorder sourceFile) = true ->
  forallb (wellFormed forEachDeclaredVariable) (preorder sourceFile) = true ->
  exists w1 w2,
    forEachM enter' (preorder sourceFile) newWalker = Ok w1 /\
    NoDup (keys (_identifiers w1)) /\
    failures w1 = [] /\
    onSourceFileEnd w1 = Ok w2 /\
    applyWithProgram typeChecker isReassignmentTarget forEachDeclaredVariable
      sourceFile = Ok (failures w2).
Proof.
  intros Hfile Hr Hw.
  destruct (walk_total (preorder sourceFile) newWalker Hr Hw)
    as (w1 & Hw1 & Hnd & Hnone); [constructor | intros [] |].
  destruct (report_total (_identifiers w1) w1 Hnone) as (w2 & Hw2).
  exists w1, w2. repeat split; try assumption.
  - apply (walk_failures _ _ _ Hw1).
  - unfold applyWithProgram. rewrite visitNode_file by exact Hfile.
    rewrite Hw1; simpl. unfold onSourceFileEnd; rewrite Hw2; reflexivity.
Qed.

Lemma In_has (k : Key) (v : bool) (m : JsMap.t) : In (k, v) m -> has k m = true.
Proof.
  intros H; apply has_In; unfold keys; apply in_map_iff.
  exists (k, v); split; [reflexivity | exact H].
Qed.

Lemma get_has (k : Key) (v : bool) (m : JsMap.t) :
  get k m = Some v -> has k m = true.
Proof. intros H; rewrite has_get, H; reflexivity. Qed.

Lemma nth_error_split2 {A : Type} (l : list A) (i j : nat) (a b : A) :
  nth_error l i = Some a -> nth_error l j = Some b -> i < j ->
  exists l1 l2 l3, l = l1 ++ a :: l2 ++ b :: l3.
Proof.
  intros Hi Hj Hlt.
  apply nth_error_split in Hi as (l1 & l2' & E & Hlen); subst l.
  rewrite nth_error_app2 in Hj by lia.
  destruct (j - List.length l1) as [| k] eqn:Ek; [lia |].
  simpl in Hj.
  apply nth_error_split in Hj as (l2 & l3 & E & _); subst l2'.
  exists l1, l2, l3; reflexivity.
Qed.

(** After its registration an unreferenced declaration stays unused. *)
Lemma unused_after_registration (sourceFile d : Node) (n : nat)
  (l : list Node) (w w' : Walker) :
  (forall x, In x l -> In x (preorder sourceFile)) ->
  isTrackedDeclaration d = true ->
  ownsToken forEachDeclaredVariable sourceFile d n ->
  neverReferenced typeChecker isReassignmentTarget sourceFile n ->
  get (Some n) (_identifiers w) = Some false ->
  forEachM enter' l w = Ok w' ->
  get (Some n) (_identifiers w') = Some false.
Proof.
  intros Hl Htr Hown Hnever Hget Hrun.
  apply (forEachM_invariant enter'
           (fun s => get (Some n) (_identifiers s) = Some false) l)
    with (s := w) (s' := w'); [| exact Hget | exact Hrun].
  intros x s s' Hx Hs Hstep.
  apply (enter_false_stays _ x s s' Hstep Hs).
  - intros v Hv. apply setOps_incl in Hv.
    assert (x = d) as ->.
    { apply Hown; [apply Hl, Hx |].
      apply in_map_iff; exists (Some n, v); split; [reflexivity | exact Hv]. }
    apply (declOps_tracked d (Some n) v Htr Hv).
  - intros Hm. destruct (Nat.eq_dec (id x) n) as [E | E].
    + rewrite E; apply (get_has _ _ _ Hs).
    + exfalso; apply (Hnever x (Hl x Hx) E Hm).
Qed.

(** A token that no hook writes never enters the map. *)
Lemma never_registered (k : Key) (l : list Node) (w w' : Walker) :
  (forall x, In x l -> ~ In k (map fst (setOps' x))) ->
  has k (_identifiers w) = false ->
  forEachM enter' l w = Ok w' ->
  has k (_identifiers w') = false.
Proof.
  intros Hl Hhas Hrun.
  apply (forEachM_invariant enter'
           (fun s => has k (_identifiers s) = false) l)
    with (s := w) (s' := w'); [| exact Hhas | exact Hrun].
  intros x s s' Hx Hs Hstep.
  apply (enter_absent k x s s' Hstep Hs (Hl x Hx)).
Qed.

(** In every resolved, well-formed file the pass returns, and for a
    class, enum, function or variable statement [d] of the file that
    declares the name token [n] (a token of [d] alone): when [d] is not
    exported and [n] is never referenced elsewhere, exactly one failure is
    reported at [n]; when [d] carries the export modifier, none is, because
    the hook of an exported declaration performs no [set]. *)
Theorem unused_declaration_reported_once (sourceFile d : Node) (n : nat) :
  isFile sourceFile = true ->
  forallb (resolved typeChecker isReassignmentTarget) (preorder sourceFile) = true ->
  forallb (wellFormed forEachDeclaredVariable) (preorder sourceFile) = true ->
  In d (preorder sourceFile) ->
  isTrackedDeclaration d = true ->
  declares forEachDeclaredVariable d n ->
  ownsToken forEachDeclaredVariable sourceFile d n ->
  exists fs,
    applyWithProgram typeChecker isReassignmentTarget forEachDeclaredVariable
      sourceFile = Ok fs /\
    (isExported d = false ->
     neverReferenced typeChecker isReassignmentTarget sourceFile n ->
     count_occ Nat.eq_dec (reportedAt fs) n = 1) /\
    (isExported d = true ->
     setOps' d = [] /\ ~ In n (reportedAt fs)).
Proof.
  intros Hfile Hr Hw Hd Htr Hdecl Hown.
  destruct (applyWithProgram_total sourceFile Hfile Hr Hw)
    as (w1 & w2 & Hw1 & Hnd & Hf & Hend & Happ).
  exists (failures w2); split; [exact Happ | split].
  - intros Hexp Hnever.
    apply (onSourceFileEnd_unused n w1 w2 Hf Hnd); [| exact Hend].
    apply in_split in Hd as (l1 & l2 & Hsplit).
    rewrite Hsplit, forEachM_app in Hw1.
    apply bind_Ok_inv in Hw1 as (wa & _ & Hw1). simpl in Hw1.
    apply bind_Ok_inv in Hw1 as (wb & Hd1 & Hw1).
    apply (unused_after_registration sourceFile d n l2 wb w1); try assumption.
    + intros x Hx; rewrite Hsplit; apply in_or_app; right; right; exact Hx.
    + apply (enter_registers _ d wa wb Hd1).
      * rewrite setOps_not_exported by exact Hexp. exact Hdecl.
      * intros v Hv; apply setOps_incl in Hv.
        apply (declOps_tracked d (Some n) v Htr Hv).
  - intros Hexp. split; [apply setOps_exported, Hexp |].
    apply (onSourceFileEnd_not_unused n w1 w2 Hf); [| exact Hend].
    intros Hin. apply In_has in Hin.
    rewrite (never_registered (Some n) (preorder sourceFile) newWalker w1) in Hin;
      [discriminate | | reflexivity | exact Hw1].
    intros x Hx Hk.
    assert (x = d) as ->.
    { apply Hown; [exact Hx |].
      apply in_map_iff in Hk as (op & E & Hop).
      apply in_map_iff; exists op; split; [exact E | apply setOps_incl, Hop]. }
    rewrite setOps_exported in Hk by exact Hexp. contradiction.
Qed.

(** In every resolved, well-formed file, a reference [r]
    that is no declaration name and no reassignment target, that resolves
    to the non-exported tracked declaration [d] of name token [n] and is
    visited after [d] (also inside [d] itself: an initializer, a recursive
    call) sets the entry of [n] to used, and the pass reports nothing at
    [n]. *)
Theorem reference_after_declaration_marks_used
  (sourceFile d r : Node) (n i j : nat) :
  isFile sourceFile = true ->
  forallb (resolved typeChecker isReassignmentTarget) (preorder sourceFile) = true ->
  forallb (wellFormed forEachDeclaredVariable) (preorder sourceFile) = true ->
  NoDup (map id (preorder sourceFile)) ->
  nth_error (preorder sourceFile) i = Some d ->
  nth_error (preorder sourceFile) j = Some r ->
  i < j ->
  isTrackedDeclaration d = true ->
  isExported d = false ->
  declares forEachDeclaredVariable d n ->
  ownsToken forEachDeclaredVariable sourceFile d n ->
  isReference forEachDeclaredVariable sourceFile r ->
  isReassignmentTarget r = false ->
  resolvesTo typeChecker r n ->
  (forall w,
      has (Some n) (_identifiers w) = true ->
      has (Some (id r)) (_identifiers w) = false ->
      exists w',
        visitIdentifier typeChecker isReassignmentTarget r (fun w0 => Ok w0) w
        = Ok w' /\
        get (Some n) (_identifiers w') = Some true) /\
  exists fs,
    applyWithProgram typeChecker isReassignmentTarget forEachDeclaredVariable
      sourceFile = Ok fs /\
    ~ In n (reportedAt fs).
Proof.
  intros Hfile Hr Hw Hids Hi Hj Hlt Htr Hexp Hdecl Hown [Hkr Hplain] Hrt
         (symbol & declarations & declaration & Hsym & Hds & Hin & Hkey).
  assert (Hmark : In (Some n) (markKeys' r)).
  { rewrite (markKeys_identifier r symbol declarations Hkr Hrt Hsym Hds).
    apply in_map_iff; exists declaration; split; assumption. }
  assert (Hent : forall w, enter' r w
                 = visitIdentifier typeChecker isReassignmentTarget r
                     (fun w0 => Ok w0) w).
  { intros w; unfold enter, dispatch; rewrite Hkr; reflexivity. }
  assert (Hlocal : forall w,
             has (Some n) (_identifiers w) = true ->
             has (Some (id r)) (_identifiers w) = false ->
             exists w', enter' r w = Ok w' /\
                        get (Some n) (_identifiers w') = Some true).
  { intros w Hn Hnr.
    rewrite forallb_forall in Hr, Hw.
    destruct (enter_total r w (Hr r (nth_error_In _ _ Hj)) (Hw r (nth_error_In _ _ Hj)))
      as (w' & Hw').
    exists w'; split; [exact Hw' |].
    apply (enter_marks (Some n) r w Hkr Hrt Hnr Hn Hmark w' Hw'). }
  split.
  { intros w Hn Hnr. rewrite <- Hent. apply Hlocal; assumption. }
  destruct (applyWithProgram_total sourceFile Hfile Hr Hw)
    as (w1 & w2 & Hw1 & Hnd & Hf & Hend & Happ).
  exists (failures w2); split; [exact Happ |].
  apply (onSourceFileEnd_not_unused n w1 w2 Hf); [| exact Hend].
  destruct (nth_error_split2 _ _ _ _ _ Hi Hj Hlt) as (l1 & l2 & l3 & Hsplit).
  assert (Hall : forall x, In x (l1 ++ d :: l2 ++ r :: l3) ->
                           In x (preorder sourceFile))
    by (intros x Hx; rewrite Hsplit; exact Hx).
  rewrite Hsplit in Hw1, Hids.
  (* the walk, cut at [d] and at [r] *)
  rewrite forEachM_app in Hw1.
  apply bind_Ok_inv in Hw1 as (wa & Hl1 & Hw1). simpl in Hw1.
  apply bind_Ok_inv in Hw1 as (wb & Hd1 & Hw1).
  rewrite forEachM_app in Hw1.
  apply bind_Ok_inv in Hw1 as (wc & Hl2 & Hw1). simpl in Hw1.
  apply bind_Ok_inv in Hw1 as (wd & Hr1 & Hl3).
  (* [n] is in the map once [d] is entered, and stays *)
  assert (Hnb : has (Some n) (_identifiers wb) = true).
  { apply (get_has _ false).
    apply (enter_registers _ d wa wb Hd1).
    - rewrite setOps_not_exported by exact Hexp. exact Hdecl.
    - intros v Hv; apply setOps_incl in Hv.
      apply (declOps_tracked d (Some n) v Htr Hv). }
  assert (Hnc : has (Some n) (_identifiers wc) = true).
  { apply (forEachM_invariant enter'
             (fun s => has (Some n) (_identifiers s) = true) l2)
      with (s := wb) (s' := wc); [| exact Hnb | exact Hl2].
    intros x s s' _ Hs Hstep. apply (enter_has_mono _ x s s' Hstep Hs). }
  (* [r] itself is never registered *)
  assert (Hrc : has (Some (id r)) (_identifiers wc) = false).
  { assert (Hcut : forEachM enter' (l1 ++ d :: l2) newWalker = Ok wc).
    { rewrite forEachM_app, Hl1; simpl. rewrite Hd1; simpl. exact Hl2. }
    apply (never_registered (Some (id r)) (l1 ++ d :: l2) newWalker wc);
      [| reflexivity | exact Hcut].
    intros x Hx Hk. apply (Hplain x).
    - apply Hall. apply in_app_or in Hx as [Hx | [Hx | Hx]];
        apply in_or_app; [left; exact Hx | right; left; exact Hx |].
      right; right; apply in_or_app; left; exact Hx.
    - apply in_map_iff in Hk as (op & E & Hop).
      apply in_map_iff; exists op; split; [exact E | apply setOps_incl, Hop]. }
  (* entering [r] marks [n] *)
  assert (Hnd' : get (Some n) (_identifiers wd) = Some true).
  { apply (enter_marks (Some n) r wc Hkr Hrt Hrc Hnc Hmark wd Hr1). }
  (* and nothing after [r] registers [n] again *)
  assert (Hn1 : get (Some n) (_identifiers w1) = Some true).
  { apply (forEachM_invariant enter'
             (fun s => get (Some n) (_identifiers s) = Some true) l3)
      with (s := wd) (s' := w1); [| exact Hnd' | exact Hl3].
    intros x s s' Hx Hs Hstep.
    apply (enter_true_stays _ x s s' Hstep Hs).
    intros Hk.
    assert (x = d) as E.
    { apply Hown.
      - apply Hall. apply in_or_app; right; right.
        apply in_or_app; right; right; exact Hx.
      - apply in_map_iff in Hk as (op & E & Hop).
        apply in_map_iff; exists op; split; [exact E | apply setOps_incl, Hop]. }
    subst x.
    rewrite map_app in Hids; simpl in Hids.
    apply NoDup_remove_2 in Hids. apply Hids.
    apply in_or_app; right. apply in_map.
    apply in_or_app; right; right; exact Hx. }
  intros Hunused. apply (In_get _ _ _ Hnd) in Hunused. congruence.
Qed.

End Pass.

End NoUnusedDeclarationFacts.

(* ===================================================================== *)
(** * Proofs: no-unsafe-callback-scope *)
(* ===================================================================== *)

Module NoUnsafeCallbackScopeFacts.
Import Ts TsFacts NoUnsafeCallbackScope.

(** ** The allow-list of globals *)

Lemma stripPrefix_exact (p s : string) :
  stripPrefix p s = Some EmptyString <-> s = p.
Proof.
  revert s; induction p as [| a p IH]; intros s; simpl.
  - split; intros H; [inversion H; reflexivity | subst; reflexivity].
  - destruct s as [| b s]; [split; discriminate |].
    destruct (Ascii.eqb a b) eqn:E.
    + apply Ascii.eqb_eq in E; subst b. rewrite IH.
      split; intros H; [subst; reflexivity | inversion H; reflexivity].
    + apply Ascii.eqb_neq in E. split; [discriminate |].
      intros H; inversion H; congruence.
Qed.

Lemma testAnchoredAlternatives_In (alternatives : list string) (s : string) :
  testAnchoredAlternatives alternatives s = true <-> In s alternatives.
Proof.
  unfold testAnchoredAlternatives. rewrite existsb_exists. split.
  - intros (a & Hin & H).
    destruct (stripPrefix a s) as [[| c r] |] eqn:E; try discriminate.
    apply stripPrefix_exact in E; subst; exact Hin.
  - intros Hin. exists s; split; [exact Hin |].
    rewrite (proj2 (stripPrefix_exact s s) eq_refl); reflexivity.
Qed.

Section Pass.

Variable typeChecker : TypeChecker.
Variable util : Util.

Local Abbreviation isUnsafe' := (isUnsafe typeChecker util).
Local Abbreviation isUnsafeRoot' := (isUnsafeRoot typeChecker util).
Local Abbreviation validate' := (validate typeChecker util).
Local Abbreviation visitNode' := (visitNode typeChecker util).

(** ** One validation *)

Lemma validate_safe (node : Located) (w : Walker) :
  (forall rootCallback rest,
      callbackStack w = rootCallback :: rest ->
      isUnsafe' w node rootCallback = None) ->
  validate' node w = w.
Proof.
  intros H. unfold validate.
  destruct (callbackStack w) as [| rootCallback rest] eqn:E; [reflexivity |].
  rewrite (H rootCallback rest eq_refl).
  destruct (isIdentifier (self node) || isThis util (self node)); reflexivity.
Qed.


(** A validation leaves the settings and the stack alone and adds at most
    one failure. *)
Lemma validate_frame (node : Located) (w : Walker) :
  allowMethods (validate' node w) = allowMethods w /\
  allowParameters (validate' node w) = allowParameters w /\
  allowProperties (validate' node w) = allowProperties w /\
  callbackMap (validate' node w) = callbackMap w /\
  callbackStack (validate' node w) = callbackStack w.
Proof.
  unfold validate.
  destruct (callbackStack w) as [| rootCallback rest] eqn:E;
    [repeat split; auto |].
  destruct (isIdentifier (self node) || isThis util (self node));
    [| repeat split; auto].
  destruct (isUnsafe' w node rootCallback); repeat split; auto.
Qed.

Lemma validate_failures (node : Located) (w : Walker) :
  failures (validate' node w) = failures w \/
  exists failureNode,
    failures (validate' node w)
    = failures w ++ [{| failureNode := id failureNode;
                        failureString := FAILURE_STRING |}].
Proof.
  unfold validate.
  destruct (callbackStack w) as [| rootCallback rest]; [left; reflexivity |].
  destruct (isIdentifier (self node) || isThis util (self node));
    [| left; reflexivity].
  destruct (isUnsafe' w node rootCallback) as [f |]; [| left; reflexivity].
  right; exists f; reflexivity.
Qed.

(** ** The root-safety test *)

(** The test abstains when no declaration is found. *)
Lemma isUnsafeRoot_unresolved (w : Walker) (node : Located) (callback : Node) :
  findDeclaration util (self node) typeChecker = None ->
  isUnsafeRoot' w node callback = None.
Proof.
  intros H; unfold isUnsafeRoot; rewrite H.
  destruct (isKindOpt isQualifiedName (parent node)); [reflexivity |].
  destruct (isInstanceofCtor util node); reflexivity.
Qed.

Lemma isUnsafeRoot_within (w : Walker) (node : Located)
  (callback declaration : Node) :
  findDeclaration util (self node) typeChecker = Some declaration ->
  isWithinClosure declaration callback = true ->
  isUnsafeRoot' w node callback = None.
Proof.
  intros Hd Hw; unfold isUnsafeRoot; rewrite Hd, Hw.
  destruct (isKindOpt isQualifiedName (parent node)); [reflexivity |].
  destruct (isInstanceofCtor util node); reflexivity.
Qed.

Lemma isWithinClosure_span (declaration callback : Node) :
  isWithinClosure declaration callback = true <->
  (pos callback <= pos declaration < end_ callback)%Z.
Proof.
  unfold isWithinClosure. rewrite andb_true_iff, Z.leb_le, Z.ltb_lt. tauto.
Qed.

(** C3: a bare identifier or [this] (its parent is no property access)
    validated while the stack is not empty, whose declaration starts within
    the span of the callback pushed first, passes the root-safety test, is
    classified safe, and no failure is reported. *)
Theorem declaration_within_closure_is_safe (w : Walker) (node : Located)
  (rootCallback : Node) (rest : list Node) (declaration : Node) :
  callbackStack w = rootCallback :: rest ->
  isKindOpt isPropertyAccessExpression (parent node) = false ->
  findDeclaration util (self node) typeChecker = Some declaration ->
  (pos rootCallback <= pos declaration < end_ rootCallback)%Z ->
  isUnsafeRoot' w node rootCallback = None /\
  isUnsafe' w node rootCallback = None /\
  validate' node w = w.
Proof.
  intros Hstack Hbare Hd Hspan.
  apply isWithinClosure_span in Hspan.
  assert (Hroot : isUnsafeRoot' w node rootCallback = None)
    by (apply (isUnsafeRoot_within w node rootCallback declaration Hd Hspan)).
  assert (Hun : isUnsafe' w node rootCallback = None)
    by (unfold isUnsafe; rewrite Hbare; exact Hroot).
  repeat split; try assumption.
  apply validate_safe. intros rc rest' E.
  rewrite Hstack in E; inversion E; subst. exact Hun.
Qed.


(** ** Chain classification *)

(** The classification abstains when the member cannot be resolved. *)
Lemma isUnsafe_unresolved (w : Walker) (node : Located) (rootCallback : Node) :
  findDeclaration util (self node) typeChecker = None ->
  isUnsafe' w node rootCallback = None.
Proof.
  intros H; unfold isUnsafe; rewrite H.
  destruct (isKindOpt isPropertyAccessExpression (parent node)).
  - destruct (negb (isPropertyAccessExpressionLeaf node)); reflexivity.
  - apply isUnsafeRoot_unresolved, H.
Qed.

(** C5: in chain classification a member whose declaration carries the
    [readonly] modifier is safe whatever the settings of the walker are
    ([allowProperties] included): the test of the modifier comes before
    the one of the implicit receiver, and no failure is reported. *)
Theorem readonly_member_is_safe (w : Walker) (node : Located)
  (rootCallback declaration : Node) :
  isKindOpt isPropertyAccessExpression (parent node) = true ->
  findDeclaration util (self node) typeChecker = Some declaration ->
  hasModifier (modifiers declaration) ReadonlyKeyword = true ->
  isUnsafe' w node rootCallback = None /\
  forall w', validate' node w' = w'.
Proof.
  intros Hp Hd Hro.
  assert (H : forall w0 rc, isUnsafe' w0 node rc = None).
  { intros w0 rc. unfold isUnsafe; rewrite Hp, Hd, Hro.
    destruct (negb (isPropertyAccessExpressionLeaf node)); reflexivity. }
  split; [apply H |].
  intros w'; apply validate_safe; intros rc rest' _; apply H.
Qed.

(** C10: when the expression a chain starts from is neither [this] nor an
    identifier, the root of the chain is [undefined] and every node of
    the chain is classified safe: nothing is reported for the chain. *)
Theorem chain_without_root_is_safe (w : Walker) (node p expression : Located)
  (rootCallback : Node) :
  parentLocated node = Some p ->
  isPropertyAccessExpression (self p) = true ->
  innermost (ancestors p) (self p) = Some expression ->
  isThis util (self expression) = false ->
  isIdentifier (self expression) = false ->
  getPropertyAccessExpressionRoot util p = None /\
  isUnsafe' w node rootCallback = None /\
  validate' node w = w.
Proof.
  intros Hp Hpa Hin Hthis Hid.
  assert (Hroot : getPropertyAccessExpressionRoot util p = None).
  { unfold getPropertyAccessExpressionRoot; rewrite Hin, Hthis, Hid; reflexivity. }
  assert (H : forall rc, isUnsafe' w node rc = None).
  { intros rc. unfold isUnsafe.
    assert (Hparent : parent node = Some (self p)).
    { unfold parent, parentLocated in *.
      destruct (ancestors node); [discriminate |].
      inversion Hp; reflexivity. }
    rewrite Hparent; simpl; rewrite Hpa.
    destruct (negb (isPropertyAccessExpressionLeaf node)); [reflexivity |].
    destruct (findDeclaration util (self node) typeChecker) as [declaration |];
      [| reflexivity].
    destruct (hasModifier (modifiers declaration) ReadonlyKeyword);
      [reflexivity |].
    destruct (isTypeFlagSet (getTypeAtLocation typeChecker (self node))
                EnumLiteral); [reflexivity |].
    rewrite Hp, Hroot; reflexivity. }
  repeat split; [exact Hroot | apply H |].
  apply validate_safe; intros rc rest' _; apply H.
Qed.

(** ** One classification per chain *)

Lemma chainNodes_eq (up : list Node) (node : Node) :
  chainNodes up node = flat_map (chainStep (node :: up)) (children node).
Proof.
  destruct node as [i k p e t cs]; simpl.
  generalize (mkNode i k p e t cs) as n0; intros n0.
  induction cs as [| [q c] cs IH]; simpl; [reflexivity |].
  rewrite IH. unfold chainStep at 2; simpl. reflexivity.
Qed.

(** Every node of a chain has a property access as its parent. *)
Lemma chainNodes_parent (node : Node) :
  forall up x,
    isPropertyAccessExpression node = true ->
    In x (chainNodes up node) ->
    isKindOpt isPropertyAccessExpression (parent x) = true.
Proof.
  induction node as [i k p e t cs IH] using Node_induction.
  intros up x Hpa Hx. rewrite chainNodes_eq in Hx.
  apply in_flat_map in Hx as ([q c] & Hqc & Hx).
  rewrite Forall_forall in IH. specialize (IH _ Hqc). simpl in IH.
  unfold chainStep in Hx; cbn [fst snd] in Hx.
  destruct (String.eqb "expression" q).
  - destruct (isPropertyAccessExpression c) eqn:Hc.
    + apply (IH _ _ eq_refl Hx).
    + destruct Hx as [<- | []]; exact Hpa.
  - destruct (String.eqb "name" q); [| contradiction].
    destruct Hx as [<- | []]; exact Hpa.
Qed.

(** Below the outermost step no node is a leaf. *)
Lemma chainNodes_inner (node : Node) :
  forall up x,
    isPropertyAccessExpression node = true ->
    isKindOpt isPropertyAccessExpression (hd_error up) = true ->
    In x (chainNodes up node) ->
    isPropertyAccessExpressionLeaf x = false.
Proof.
  induction node as [i k p e t cs IH] using Node_induction.
  intros up x Hpa Hup Hx. rewrite chainNodes_eq in Hx.
  apply in_flat_map in Hx as ([q c] & Hqc & Hx).
  rewrite Forall_forall in IH. specialize (IH _ Hqc). simpl in IH.
  assert (Hhere : isPropertyAccessExpressionLeaf
                    {| self := c; ancestors := mkNode i k p e t cs :: up |}
                  = false).
  { unfold isPropertyAccessExpressionLeaf, parentLocated; simpl ancestors.
    cbv beta iota. simpl self. rewrite Hpa. simpl negb. cbv iota.
    destruct (sameOpt c (prop "name" (mkNode i k p e t cs))); simpl;
      [| reflexivity].
    unfold parent; simpl ancestors. rewrite Hup; reflexivity. }
  unfold chainStep in Hx; cbn [fst snd] in Hx.
  destruct (String.eqb "expression" q).
  - destruct (isPropertyAccessExpression c) eqn:Hc.
    + apply (IH (mkNode i k p e t cs :: up) x eq_refl); [exact Hpa | exact Hx].
    + destruct Hx as [<- | []]; exact Hhere.
  - destruct (String.eqb "name" q); [| contradiction].
    destruct Hx as [<- | []]; exact Hhere.
Qed.

(** A leaf of a chain is the name of its outermost step. *)
Lemma chainNodes_leaf (up : list Node) (top : Node) (x : Located) :
  isPropertyAccessExpression top = true ->
  In x (chainNodes up top) ->
  isPropertyAccessExpressionLeaf x = true ->
  ancestors x = top :: up /\ sameOpt (self x) (prop "name" top) = true.
Proof.
  intros Hpa Hx Hleaf. rewrite chainNodes_eq in Hx.
  apply in_flat_map in Hx as ([q c] & Hqc & Hx).
  assert (Hhere : forall y,
             y = {| self := c; ancestors := top :: up |} ->
             isPropertyAccessExpressionLeaf y = true ->
             ancestors y = top :: up /\ sameOpt (self y) (prop "name" top) = true).
  { intros y -> Hy. split; [reflexivity |].
    unfold isPropertyAccessExpressionLeaf, parentLocated in Hy; simpl in Hy.
    rewrite Hpa in Hy; simpl in Hy. cbn [self].
    destruct (sameOpt c (prop "name" top)); [reflexivity | discriminate]. }
  unfold chainStep in Hx; cbn [fst snd] in Hx.
  destruct (String.eqb "expression" q).
  - destruct (isPropertyAccessExpression c) eqn:Hc.
    + rewrite (chainNodes_inner c (top :: up) x Hc) in Hleaf;
        [discriminate | exact Hpa | exact Hx].
    + destruct Hx as [E | []]. apply (Hhere x (eq_sym E) Hleaf).
  - destruct (String.eqb "name" q); [| contradiction].
    destruct Hx as [E | []]. apply (Hhere x (eq_sym E) Hleaf).
Qed.

Lemma isUnsafe_inner (w : Walker) (node : Located) (rootCallback : Node) :
  isKindOpt isPropertyAccessExpression (parent node) = true ->
  isPropertyAccessExpressionLeaf node = false ->
  isUnsafe' w node rootCallback = None.
Proof. intros Hp Hl; unfold isUnsafe; rewrite Hp, Hl; reflexivity. Qed.

Lemma validateAll_inner (l : list Located) (w : Walker) :
  (forall x, In x l ->
             isKindOpt isPropertyAccessExpression (parent x) = true /\
             isPropertyAccessExpressionLeaf x = false) ->
  validateAll typeChecker util l w = w.
Proof.
  revert w; induction l as [| x l IH]; intros w H; simpl; [reflexivity |].
  destruct (H x (or_introl eq_refl)) as [Hp Hl].
  rewrite validate_safe
    by (intros rc rest _; apply isUnsafe_inner; assumption).
  apply IH. intros y Hy; apply H; right; exact Hy.
Qed.

Lemma validateAll_once (l : list Located) (w : Walker) :
  (forall x, In x l -> isKindOpt isPropertyAccessExpression (parent x) = true) ->
  (forall x y, In x l -> In y l ->
               isPropertyAccessExpressionLeaf x = true ->
               isPropertyAccessExpressionLeaf y = true ->
               id (self x) = id (self y)) ->
  NoDup (map (fun x => id (self x)) l) ->
  (List.length (failures (validateAll typeChecker util l w))
   <= List.length (failures w) + 1)%nat.
Proof.
  revert w; induction l as [| x l IH]; intros w Hp Hsame Hnd; simpl; [lia |].
  inversion Hnd as [| ? ? Hx Hnd']; subst.
  destruct (isPropertyAccessExpressionLeaf x) eqn:Hleaf.
  - rewrite validateAll_inner.
    + destruct (validate_failures x w) as [E | (f & E)]; rewrite E;
        [lia | rewrite length_app; simpl; lia].
    + intros y Hy; split; [apply Hp; right; exact Hy |].
      destruct (isPropertyAccessExpressionLeaf y) eqn:Hy'; [| reflexivity].
      exfalso; apply Hx.
      rewrite (Hsame x y (or_introl eq_refl) (or_intror Hy) Hleaf Hy').
      apply (in_map (fun z => id (self z))); exact Hy.
  - rewrite validate_safe
      by (intros rc rest _; apply isUnsafe_inner;
          [apply Hp; left; reflexivity | exact Hleaf]).
    apply IH; [| | exact Hnd'].
    + intros y Hy; apply Hp; right; exact Hy.
    + intros y z Hy Hz; apply Hsame; right; assumption.
Qed.

(** Two nodes of a list of distinct objects that are the same object are
    the same node. *)
Lemma same_object (l : list Located) (x y : Located) :
  NoDup (map (fun z => id (self z)) l) ->
  In x l -> In y l -> id (self x) = id (self y) -> x = y.
Proof.
  induction l as [| a l IH]; intros Hnd Hx Hy E; [contradiction |].
  inversion Hnd as [| ? ? Ha Hnd']; subst.
  destruct Hx as [-> | Hx], Hy as [-> | Hy].
  - reflexivity.
  - exfalso; apply Ha. rewrite E.
    apply (in_map (fun z => id (self z))); exact Hy.
  - exfalso; apply Ha. rewrite <- E.
    apply (in_map (fun z => id (self z))); exact Hx.
  - apply (IH Hnd' Hx Hy E).
Qed.

Lemma validateAll_skipped (l : list Located) (w : Walker) :
  (forall x, In x l -> forall w0, validate' x w0 = w0) ->
  validateAll typeChecker util l w = w.
Proof.
  revert w; induction l as [| x l IH]; intros w H; simpl; [reflexivity |].
  rewrite (H x (or_introl eq_refl)). apply IH.
  intros y Hy; apply H; right; exact Hy.
Qed.

(** When every node of a list but one is skipped, validating the list is
    validating that node. *)
Lemma validateAll_only (l : list Located) (x0 : Located) (w : Walker) :
  In x0 l ->
  NoDup (map (fun z => id (self z)) l) ->
  (forall x, In x l -> x <> x0 -> forall w0, validate' x w0 = w0) ->
  validateAll typeChecker util l w = validate' x0 w.
Proof.
  revert w; induction l as [| x l IH]; intros w Hin Hnd Hskip;
    [contradiction |].
  inversion Hnd as [| ? ? Hx Hnd']; subst. simpl.
  destruct Hin as [-> | Hin].
  - apply validateAll_skipped. intros y Hy.
    apply Hskip; [right; exact Hy |].
    intros ->. apply Hx.
    apply (in_map (fun z => id (self z))); exact Hy.
  - rewrite (Hskip x (or_introl eq_refl)).
    + apply IH; [exact Hin | exact Hnd' |].
      intros y Hy; apply Hskip; right; exact Hy.
    + intros ->. apply Hx.
      apply (in_map (fun z => id (self z))); exact Hin.
Qed.

(** The name of the outermost step is a node of the chain. *)
Lemma chainNodes_name (up : list Node) (top name : Node) :
  prop "name" top = Some name ->
  In {| self := name; ancestors := top :: up |} (chainNodes up top).
Proof.
  intros Hname. rewrite chainNodes_eq. apply in_flat_map.
  exists ("name", name); split; [apply lookup_In; exact Hname |].
  unfold chainStep; simpl. left; reflexivity.
Qed.

Lemma leaf_of_outermost (up : list Node) (top name : Node) :
  isPropertyAccessExpression top = true ->
  isKindOpt isPropertyAccessExpression (hd_error up) = false ->
  prop "name" top = Some name ->
  isPropertyAccessExpressionLeaf {| self := name; ancestors := top :: up |}
  = true.
Proof.
  intros Hpa Hup Hname.
  unfold isPropertyAccessExpressionLeaf, parentLocated; simpl ancestors.
  cbv beta iota. simpl self. rewrite Hpa, Hname. simpl.
  unfold same; rewrite Nat.eqb_refl. simpl.
  unfold parent; simpl ancestors. rewrite Hup. reflexivity.
Qed.

(** C6: for a property-access chain with outermost step [top] (the parent
    of [top] is no property access) whose nodes are distinct objects:
    - a node of the chain that is no leaf is skipped without classification;
    - a node that is a leaf is the name of the outermost step;
    - that name is a leaf;
    - validating every node of the chain adds at most one failure;
    - validating every node of the chain is validating the leaf alone:
      the classification runs once, there;
    - and it does run there: for a member that resolves and is neither
      readonly nor an enum literal, the leaf is classified by the root of
      the chain, through the gate of the settings when the root is [this]
      or starts with a capital letter, as safe when it is a known global,
      and through the root-safety test otherwise. *)
Theorem chain_classified_once (w : Walker) (up : list Node)
  (top rootCallback : Node) :
  isPropertyAccessExpression top = true ->
  isKindOpt isPropertyAccessExpression (hd_error up) = false ->
  NoDup (map (fun x => id (self x)) (chainNodes up top)) ->
  (forall node,
      In node (chainNodes up top) ->
      isPropertyAccessExpressionLeaf node = false ->
      isUnsafe' w node rootCallback = None) /\
  (forall node,
      In node (chainNodes up top) ->
      isPropertyAccessExpressionLeaf node = true ->
      ancestors node = top :: up /\
      sameOpt (self node) (prop "name" top) = true) /\
  (forall name,
      prop "name" top = Some name ->
      isPropertyAccessExpressionLeaf {| self := name; ancestors := top :: up |}
      = true) /\
  (List.length (failures (validateAll typeChecker util (chainNodes up top) w))
   <= List.length (failures w) + 1)%nat /\
  (forall name,
      prop "name" top = Some name ->
      validateAll typeChecker util (chainNodes up top) w
      = validate' {| self := name; ancestors := top :: up |} w) /\
  (forall name declaration root,
      prop "name" top = Some name ->
      findDeclaration util name typeChecker = Some declaration ->
      hasModifier (modifiers declaration) ReadonlyKeyword = false ->
      isTypeFlagSet (getTypeAtLocation typeChecker name) EnumLiteral = false ->
      getPropertyAccessExpressionRoot util {| self := top; ancestors := up |}
      = Some root ->
      let leaf := {| self := name; ancestors := top :: up |} in
      let gate :=
        if isWithinCallExpressionExpression util leaf
        then (if allowMethods w then None else Some (self root))
        else (if allowProperties w then None else Some (self root)) in
      isUnsafe' w leaf rootCallback
      = if isThis util (self root) then gate
        else if knownGlobalRegExp_test (getText (self root)) then None
             else if startsWithCapital (getText (self root)) then gate
                  else isUnsafeRoot' w root rootCallback).
Proof.
  intros Hpa Hup Hnd. split; [| split; [| split; [| split; [| split]]]].
  - intros node Hin Hleaf. apply isUnsafe_inner; [| exact Hleaf].
    apply (chainNodes_parent top up node Hpa Hin).
  - intros node Hin Hleaf. apply (chainNodes_leaf up top node Hpa Hin Hleaf).
  - intros name Hname. apply (leaf_of_outermost up top name Hpa Hup Hname).
  - apply validateAll_once; [| | exact Hnd].
    + intros x Hx. apply (chainNodes_parent top up x Hpa Hx).
    + intros x y Hx Hy Hlx Hly.
      destruct (chainNodes_leaf up top x Hpa Hx Hlx) as [_ Ex].
      destruct (chainNodes_leaf up top y Hpa Hy Hly) as [_ Ey].
      unfold sameOpt, same in Ex, Ey.
      destruct (prop "name" top) as [nm |]; [| discriminate].
      apply Nat.eqb_eq in Ex, Ey. congruence.
  - intros name Hname.
    apply validateAll_only;
      [apply (chainNodes_name up top name Hname) | exact Hnd |].
    intros x Hx Hne w0. apply validate_safe. intros rc rest _.
    apply isUnsafe_inner; [apply (chainNodes_parent top up x Hpa Hx) |].
    destruct (isPropertyAccessExpressionLeaf x) eqn:Hleaf; [| reflexivity].
    exfalso; apply Hne.
    apply (same_object (chainNodes up top) _ _ Hnd Hx
             (chainNodes_name up top name Hname)).
    destruct (chainNodes_leaf up top x Hpa Hx Hleaf) as [_ Ex].
    rewrite Hname in Ex. apply Nat.eqb_eq in Ex. exact Ex.
  - intros name declaration root Hname Hd Hro Hen Hroot leaf gate.
    subst gate.
    pose proof (leaf_of_outermost up top name Hpa Hup Hname) as Hleaf.
    fold leaf in Hleaf. unfold isUnsafe.
    replace (parent leaf) with (Some top) by reflexivity.
    replace (parentLocated leaf)
      with (Some {| self := top; ancestors := up |}) by reflexivity.
    replace (self leaf) with name by reflexivity.
    cbn [isKindOpt]. rewrite Hpa, Hleaf, Hd, Hro, Hen, Hroot.
    reflexivity.
Qed.

(** ** The allow-list in chain classification *)

Lemma isUnsafe_known_global (w : Walker) (node p root : Located)
  (rootCallback declaration : Node) :
  isKindOpt isPropertyAccessExpression (parent node) = true ->
  isPropertyAccessExpressionLeaf node = true ->
  findDeclaration util (self node) typeChecker = Some declaration ->
  hasModifier (modifiers declaration) ReadonlyKeyword = false ->
  isTypeFlagSet (getTypeAtLocation typeChecker (self node)) EnumLiteral = false ->
  parentLocated node = Some p ->
  getPropertyAccessExpressionRoot util p = Some root ->
  isThis util (self root) = false ->
  isUnsafe' w node rootCallback
  = if knownGlobalRegExp_test (getText (self root)) then None
    else if startsWithCapital (getText (self root)) then
           if isWithinCallExpressionExpression util node
           then (if allowMethods w then None else Some (self root))
           else (if allowProperties w then None else Some (self root))
         else isUnsafeRoot' w root rootCallback.
Proof.
  intros Hp Hleaf Hd Hro Hen Hpl Hroot Hthis.
  unfold isUnsafe. rewrite Hp, Hleaf, Hd, Hro, Hen, Hpl, Hroot, Hthis.
  reflexivity.
Qed.

(** C9: [knownGlobalRegExp] accepts exactly the fourteen names of its
    alternatives, as whole strings (a longer, shorter or differently cased
    text is refused); and in chain classification a root that is not
    [this], of a resolved member that is neither readonly nor an enum
    literal, is safe by this rule when the test accepts its text, whatever
    the settings of the walker are. *)
Theorem knownGlobal_exact_match :
  (forall s,
      knownGlobalRegExp_test s = true <->
      In s ["Array"; "BigInt"; "Date"; "Intl"; "JSON"; "Math"; "Number";
            "Object"; "Promise"; "Proxy"; "Reflect"; "String"; "Symbol";
            "console"]) /\
  knownGlobalRegExp_test "Arrays" = false /\
  knownGlobalRegExp_test "Mat" = false /\
  knownGlobalRegExp_test "myMath" = false /\
  knownGlobalRegExp_test "math" = false /\
  knownGlobalRegExp_test "console.log" = false /\
  (forall (w : Walker) (node p root : Located) (rootCallback declaration : Node),
      isKindOpt isPropertyAccessExpression (parent node) = true ->
      isPropertyAccessExpressionLeaf node = true ->
      findDeclaration util (self node) typeChecker = Some declaration ->
      hasModifier (modifiers declaration) ReadonlyKeyword = false ->
      isTypeFlagSet (getTypeAtLocation typeChecker (self node)) EnumLiteral
      = false ->
      parentLocated node = Some p ->
      getPropertyAccessExpressionRoot util p = Some root ->
      isThis util (self root) = false ->
      knownGlobalRegExp_test (getText (self root)) = true ->
      isUnsafe' w node rootCallback = None).
Proof.
  split; [| repeat split; try reflexivity].
  - intros s. unfold knownGlobalRegExp_test.
    apply (testAnchoredAlternatives_In knownGlobals s).
  - intros w node p root rootCallback declaration
           Hp Hleaf Hd Hro Hen Hpl Hroot Hthis Htest.
    rewrite (isUnsafe_known_global w node p root rootCallback declaration
               Hp Hleaf Hd Hro Hen Hpl Hroot Hthis), Htest.
    reflexivity.
Qed.

(** ** The callback stack is balanced *)

Local Abbreviation walkList :=
  (fun (up : list Node) (cs : list (string * Node)) (w : Walker) =>
     fold_left (fun w' (qc : string * Node) => visitNode' up (snd qc) w') cs w).

Lemma visitNode_unfold (up : list Node) (node : Node) (w : Walker) :
  visitNode' up node w
  = let here := {| self := node; ancestors := up |} in
    let w1 := validate' here w in
    if isCallbackLiteral here
    then popCallback (walkList (node :: up) (children node) (pushCallback here w1))
    else walkList (node :: up) (children node) w1.
Proof.
  destruct node as [i k p e t cs]; simpl.
  assert (H : forall l w0,
             (fix walk (l : list (string * Node)) (w0 : Walker) {struct l}
                : Walker :=
                match l with
                | [] => w0
                | (_, child) :: l' =>
                    walk l' (visitNode' (mkNode i k p e t cs :: up) child w0)
                end) l w0
             = walkList (mkNode i k p e t cs :: up) l w0).
  { induction l as [| [q c] l IH]; intros w0; simpl; [reflexivity | apply IH]. }
  rewrite !H. reflexivity.
Qed.

Lemma visitNode_stack (node : Node) :
  forall up w, callbackStack (visitNode' up node w) = callbackStack w.
Proof.
  induction node as [i k p e t cs IH] using Node_induction; intros up w.
  rewrite visitNode_unfold; cbv zeta.
  assert (Hwalk : forall anc w0,
             callbackStack (walkList anc cs w0) = callbackStack w0).
  { intros anc. induction cs as [| [q c] cs IHcs]; intros w0; simpl;
      [reflexivity |].
    inversion IH as [| ? ? Hc Hrest]; subst.
    rewrite (IHcs Hrest). apply Hc. }
  destruct (validate_frame {| self := mkNode i k p e t cs; ancestors := up |} w)
    as (_ & _ & _ & _ & Hstack).
  destruct (isCallbackLiteral {| self := mkNode i k p e t cs; ancestors := up |}).
  - simpl. rewrite Hwalk. simpl. rewrite removelast_last. exact Hstack.
  - rewrite Hwalk. exact Hstack.
Qed.

End Pass.

End NoUnsafeCallbackScopeFacts.

(* ===================================================================== *)
(** * Proofs: walkers as objects *)
(* ===================================================================== *)

Module HeapFacts.
Import Ts Heap.

Section Objects.

Context {Obj : Type}.

Lemma read_write (this : Ref) (o o0 : Obj) (h : list Obj) :
  read this h = Some o0 -> read this (write this o h) = Some o.
Proof.
  unfold read. revert this; induction h as [| x h IH]; intros [| r] H;
    simpl in *; try discriminate; [reflexivity | apply IH, H].
Qed.

Lemma write_write (this : Ref) (o1 o2 : Obj) (h : list Obj) :
  write this o2 (write this o1 h) = write this o2 h.
Proof.
  revert this; induction h as [| x h IH]; intros [| r]; simpl;
    try reflexivity. rewrite IH; reflexivity.
Qed.

Lemma write_read (this : Ref) (o : Obj) (h : list Obj) :
  read this h = Some o -> write this o h = h.
Proof.
  unfold read. revert this; induction h as [| x h IH]; intros [| r] H;
    simpl in *; try discriminate.
  - inversion H; reflexivity.
  - rewrite (IH r H); reflexivity.
Qed.

Lemma read_alloc (o : Obj) (h : list Obj) :
  read (List.length h) (h ++ [o]) = Some o.
Proof.
  unfold read. rewrite nth_error_app2 by lia.
  rewrite Nat.sub_diag; reflexivity.
Qed.

Lemma write_alloc (o o' : Obj) (h : list Obj) :
  write (List.length h) o' (h ++ [o]) = h ++ [o'].
Proof. induction h as [| x h IH]; simpl; [| rewrite IH]; reflexivity. Qed.

Variable this : Ref.

Lemma simAt_ext (s : Stmt) (p p' : Obj -> Result Obj) (o : Obj) :
  p o = p' o -> simAt this s p o -> simAt this s p' o.
Proof.
  intros E H h Hr. destruct (H h Hr) as (o1 & Hs & Hp).
  exists o1; split; [exact Hs |]. rewrite <- E; exact Hp.
Qed.

Lemma simulates_ext (s : Stmt) (p p' : Obj -> Result Obj) :
  (forall o, p o = p' o) -> simulates this s p -> simulates this s p'.
Proof. intros E H o. apply (simAt_ext s p p' o (E o) (H o)). Qed.

Lemma simulates_skip : simulates this skip (fun o : Obj => Ok o).
Proof.
  intros o h Hr. exists o; split; [| split; reflexivity].
  simpl. symmetry; apply write_read, Hr.
Qed.

Lemma simulates_throw (e : Error) :
  simulates this (throw e) (fun _ : Obj => Throw e).
Proof.
  intros o h Hr. exists o; split; [| reflexivity].
  simpl. symmetry; apply write_read, Hr.
Qed.

Lemma simulates_withThis (k : Obj -> Stmt) (p : Obj -> Result Obj) :
  (forall o, simAt this (k o) p o) -> simulates this (withThis this k) p.
Proof.
  intros H o h Hr. unfold withThis; rewrite Hr. apply (H o h Hr).
Qed.

Lemma simulates_modify (f : Obj -> Obj) :
  simulates this (modify this f) (fun o => Ok (f o)).
Proof.
  apply simulates_withThis. intros o h Hr.
  exists (f o); split; [reflexivity | split; reflexivity].
Qed.

Lemma simulates_method (body : Obj -> Result Obj) :
  simulates this (method this body) body.
Proof.
  apply simulates_withThis. intros o.
  destruct (body o) as [o' | e] eqn:E.
  - apply (simAt_ext _ (fun _ => Ok o')); [symmetry; exact E |].
    apply (simulates_modify (fun _ => o')).
  - apply (simAt_ext _ (fun _ => Throw e)); [symmetry; exact E |].
    apply simulates_throw.
Qed.

Lemma simAt_seq (a b : Stmt) (pa pb : Obj -> Result Obj) (o : Obj) :
  simAt this a pa o -> simulates this b pb ->
  simAt this (seq a b) (fun o0 => bind (pa o0) pb) o.
Proof.
  intros Ha Hb h Hr. destruct (Ha h Hr) as (o1 & Hs & Hp).
  unfold seq. destruct (a h) as [r h1]; simpl in *. subst h1.
  destruct (pa o) as [o' | e]; simpl.
  - destruct Hp as [-> ->].
    destruct (Hb o' (write this o' h) (read_write this o' o h Hr))
      as (o2 & Hs2 & Hp2).
    exists o2; split; [| exact Hp2].
    rewrite Hs2. apply write_write.
  - subst r. exists o1; split; reflexivity.
Qed.

Lemma simulates_seq (a b : Stmt) (pa pb : Obj -> Result Obj) :
  simulates this a pa -> simulates this b pb ->
  simulates this (seq a b) (fun o => bind (pa o) pb).
Proof. intros Ha Hb o. apply simAt_seq; [apply Ha | exact Hb]. Qed.

Lemma simulates_forEach {A : Type} (f : A -> Stmt)
  (pf : A -> Obj -> Result Obj) (l : list A) :
  (forall a, simulates this (f a) (pf a)) ->
  simulates this (forEach f l) (forEachM pf l).
Proof.
  intros H. induction l as [| a l IH]; simpl.
  - apply simulates_skip.
  - apply (simulates_seq (f a) (forEach f l) (pf a) (forEachM pf l));
      [apply H | exact IH].
Qed.

Lemma forEachM_Ok {A : Type} (g : A -> Obj -> Obj) (l : list A) (o : Obj) :
  forEachM (fun a o0 => Ok (g a o0)) l o
  = Ok (fold_left (fun o0 a => g a o0) l o).
Proof. revert o; induction l as [| a l IH]; intros o; simpl; auto. Qed.

End Objects.

(** A pass that builds one object and whose result does not depend on the
    heap returns, in a run, what it returns alone; and the run leaves the
    objects that were there as they were. *)
Lemma run_stateless {Obj R : Type} (pass : Node -> list Obj -> R * list Obj)
  (alone : Node -> R) (sourceFiles : list Node) :
  (forall sourceFile h,
      fst (pass sourceFile h) = alone sourceFile /\
      exists o, snd (pass sourceFile h) = h ++ [o]) ->
  forall h,
    fst (Lint.run pass sourceFiles h) = map alone sourceFiles /\
    exists l, snd (Lint.run pass sourceFiles h) = h ++ l /\
              List.length l = List.length sourceFiles.
Proof.
  intros Hpass. induction sourceFiles as [| f fs IH]; intros h; simpl.
  - split; [reflexivity |]. exists []; split; [symmetry; apply app_nil_r |
                                                 reflexivity].
  - destruct (Hpass f h) as [Hr (o & Hh)].
    destruct (pass f h) as [r h1]; simpl in *. subst r h1.
    destruct (IH (h ++ [o])) as [Hrs (l & Hl & Hlen)].
    destruct (Lint.run pass fs (h ++ [o])) as [rs h2]; simpl in *.
    subst rs h2. split; [reflexivity |].
    exists (o :: l); split; [rewrite <- app_assoc; reflexivity |].
    simpl; rewrite Hlen; reflexivity.
Qed.

End HeapFacts.

Module NoUnusedDeclarationObjectFacts.
Import Ts Heap HeapFacts TsFacts.

Lemma simulates_setIdentifier (this : Ref) (k : JsMap.Key) (v : bool) :
  simulates this (NoUnusedDeclarationObject.setIdentifier this k v)
    (fun w => Ok (NoUnusedDeclaration.setIdentifier k v w)).
Proof. apply simulates_modify. Qed.

Lemma simulates_onSourceFileEnd (this : Ref) :
  simulates this (NoUnusedDeclarationObject.onSourceFileEnd this)
    NoUnusedDeclaration.onSourceFileEnd.
Proof.
  apply simulates_withThis. intros w.
  apply (simAt_ext this _
           (forEachM
              (fun (entry : JsMap.Key * bool) w' =>
                 let (identifier, used) := entry in
                 if negb used
                 then NoUnusedDeclaration.addFailureAtNode identifier
                        NoUnusedDeclaration.FAILURE_STRING w'
                 else Ok w')
              (NoUnusedDeclaration._identifiers w))); [reflexivity |].
  apply simulates_forEach.
  intros [identifier used]. destruct used; simpl.
  - apply simulates_skip.
  - apply simulates_method.
Qed.

Section Pass.

Variable typeChecker : TypeChecker.
Variable isReassignmentTarget : Node -> bool.
Variable forEachDeclaredVariable : Node -> list Node.
Variable this : Ref.

Local Abbreviation Walker := NoUnusedDeclaration.Walker.

(** The writes of [declarations.forEach] in [visitIdentifier]. *)
Lemma simulates_markAll (declarations : list Node) :
  simulates this
    (forEach (NoUnusedDeclarationObject.markDeclaration this) declarations)
    (fun w : Walker =>
       Ok {| NoUnusedDeclaration._identifiers :=
               fold_left (fun m d => NoUnusedDeclaration.markDeclaration d m)
                         declarations (NoUnusedDeclaration._identifiers w);
             NoUnusedDeclaration.failures := NoUnusedDeclaration.failures w |}).
Proof.
  apply (simulates_ext this _
           (forEachM
              (fun d (w : Walker) =>
                 Ok {| NoUnusedDeclaration._identifiers :=
                         NoUnusedDeclaration.markDeclaration d
                           (NoUnusedDeclaration._identifiers w);
                       NoUnusedDeclaration.failures :=
                         NoUnusedDeclaration.failures w |})
              declarations)).
  - intros w. rewrite forEachM_Ok. f_equal.
    revert w; induction declarations as [| d ds IH]; intros [m fs]; simpl;
      [reflexivity | apply IH].
  - apply simulates_forEach. intros d.
    apply simulates_withThis. intros [m fs].
    unfold NoUnusedDeclaration.markDeclaration.
    cbv beta zeta. simpl NoUnusedDeclaration._identifiers.
    simpl NoUnusedDeclaration.failures.
    destruct (JsMap.has
                (NoUnusedDeclaration.keyOf
                   (NoUnusedDeclaration.getIdentifier d)) m) eqn:E.
    + apply (simAt_ext this _
               (fun w => Ok (NoUnusedDeclaration.setIdentifier
                               (NoUnusedDeclaration.keyOf
                                  (NoUnusedDeclaration.getIdentifier d))
                               true w)));
        [simpl; rewrite E; reflexivity |].
      apply simulates_setIdentifier.
    + apply (simAt_ext this _ (fun w => Ok w));
        [simpl; rewrite E; reflexivity |].
      apply simulates_skip.
Qed.

Lemma simulates_dispatch (node : Node) (super : NoUnusedDeclarationObject.Stmt)
  (super' : Walker -> Result Walker) :
  simulates this super super' ->
  simulates this
    (NoUnusedDeclarationObject.dispatch typeChecker isReassignmentTarget
       forEachDeclaredVariable this node super)
    (NoUnusedDeclaration.dispatch typeChecker isReassignmentTarget
       forEachDeclaredVariable node super').
Proof.
  intros Hsuper.
  unfold NoUnusedDeclarationObject.dispatch, NoUnusedDeclaration.dispatch.
  destruct (kind node); try exact Hsuper.
  - (* Identifier *)
    apply simulates_withThis. intros w.
    unfold NoUnusedDeclaration.visitIdentifier.
    set (guard := negb (JsMap.has (Some (id node))
                          (NoUnusedDeclaration._identifiers w))
                  && negb (isReassignmentTarget node)).
    apply (simAt_ext this _
             (fun w0 : Walker =>
                bind (if guard then
                        match getSymbolAtLocation typeChecker node with
                        | None => Throw TypeError
                        | Some symbol =>
                            match getDeclarations symbol with
                            | None => Throw TypeError
                            | Some declarations =>
                                Ok {| NoUnusedDeclaration._identifiers :=
                                        fold_left
                                          (fun m d =>
                                             NoUnusedDeclaration.markDeclaration d m)
                                          declarations
                                          (NoUnusedDeclaration._identifiers w0);
                                      NoUnusedDeclaration.failures :=
                                        NoUnusedDeclaration.failures w0 |}
                            end
                        end
                      else Ok w0) super')); [reflexivity |].
    apply simAt_seq; [| exact Hsuper].
    destruct guard; [| apply simulates_skip].
    destruct (getSymbolAtLocation typeChecker node) as [symbol |];
      [| apply simulates_throw].
    destruct (getDeclarations symbol) as [declarations |];
      [| apply simulates_throw].
    apply simulates_markAll.
  - (* ClassDeclaration *)
    unfold NoUnusedDeclarationObject.visitClassDeclaration,
      NoUnusedDeclaration.visitClassDeclaration.
    apply (simulates_ext this _
             (fun w => bind (Ok (if negb (hasModifier (modifiers node) ExportKeyword)
                                 then NoUnusedDeclaration.setIdentifier
                                        (NoUnusedDeclaration.keyOf (prop "name" node))
                                        false w
                                 else w)) super')); [reflexivity |].
    apply simulates_seq; [| exact Hsuper].
    destruct (negb (hasModifier (modifiers node) ExportKeyword));
      [apply simulates_setIdentifier | apply simulates_skip].
  - (* EnumDeclaration *)
    unfold NoUnusedDeclarationObject.visitEnumDeclaration,
      NoUnusedDeclaration.visitEnumDeclaration.
    apply (simulates_ext this _
             (fun w => bind (Ok (if negb (hasModifier (modifiers node) ExportKeyword)
                                 then NoUnusedDeclaration.setIdentifier
                                        (NoUnusedDeclaration.keyOf (prop "name" node))
                                        false w
                                 else w)) super')); [reflexivity |].
    apply simulates_seq; [| exact Hsuper].
    destruct (negb (hasModifier (modifiers node) ExportKeyword));
      [apply simulates_setIdentifier | apply simulates_skip].
  - (* FunctionDeclaration *)
    unfold NoUnusedDeclarationObject.visitFunctionDeclaration,
      NoUnusedDeclaration.visitFunctionDeclaration.
    apply (simulates_ext this _
             (fun w => bind (Ok (match prop "name" node with
                                 | Some _ =>
                                     if negb (hasModifier (modifiers node)
                                                ExportKeyword)
                                     then NoUnusedDeclaration.setIdentifier
                                            (NoUnusedDeclaration.keyOf
                                               (prop "name" node)) false w
                                     else w
                                 | None => w
                                 end)) super')); [reflexivity |].
    apply simulates_seq; [| exact Hsuper].
    destruct (prop "name" node); [| apply simulates_skip].
    destruct (negb (hasModifier (modifiers node) ExportKeyword));
      [apply simulates_setIdentifier | apply simulates_skip].
  - (* VariableStatement *)
    unfold NoUnusedDeclarationObject.visitVariableStatement,
      NoUnusedDeclaration.visitVariableStatement.
    apply simulates_seq; [| exact Hsuper].
    destruct (negb (hasModifier (modifiers node) ExportKeyword));
      [| apply simulates_skip].
    destruct (prop "declarationList" node) as [declarationList |];
      [| apply simulates_throw].
    apply (simulates_ext this _
             (forEachM
                (fun declaration w =>
                   Ok (NoUnusedDeclaration.setIdentifier
                         (NoUnusedDeclaration.keyOf (prop "name" declaration))
                         false w))
                (forEachDeclaredVariable declarationList))).
    + intros w. rewrite forEachM_Ok. reflexivity.
    + apply simulates_forEach. intros declaration.
      apply simulates_setIdentifier.
  - (* NamedImports *)
    unfold NoUnusedDeclarationObject.visitNamedImports,
      NoUnusedDeclaration.visitNamedImports.
    apply (simulates_ext this _
             (fun w => bind (forEachM
                               (fun element w0 =>
                                  Ok (NoUnusedDeclaration.registerImportSpecifier
                                        element w0))
                               (props "elements" node) w) super')).
    + intros w. rewrite forEachM_Ok. reflexivity.
    + apply simulates_seq; [| exact Hsuper].
      apply simulates_forEach. intros element.
      unfold NoUnusedDeclaration.registerImportSpecifier.
      apply (simulates_ext this _
               (fun w => bind (Ok (match prop "propertyName" element with
                                   | Some _ =>
                                       NoUnusedDeclaration.setIdentifier
                                         (NoUnusedDeclaration.keyOf
                                            (prop "propertyName" element)) true w
                                   | None => w
                                   end))
                              (fun w0 => Ok (NoUnusedDeclaration.setIdentifier
                                               (NoUnusedDeclaration.keyOf
                                                  (prop "name" element))
                                               false w0)))); [reflexivity |].
      apply simulates_seq; [| apply simulates_setIdentifier].
      destruct (prop "propertyName" element);
        [apply simulates_setIdentifier | apply simulates_skip].
  - (* NamespaceImport *)
    unfold NoUnusedDeclarationObject.visitNamespaceImport,
      NoUnusedDeclaration.visitNamespaceImport.
    apply (simulates_ext this _
             (fun w => bind (Ok (NoUnusedDeclaration.setIdentifier
                                   (NoUnusedDeclaration.keyOf (prop "name" node))
                                   false w)) super')); [reflexivity |].
    apply simulates_seq; [apply simulates_setIdentifier | exact Hsuper].
Qed.

(** The walk on [this] does to the walker at [this] what the walk of
    [NoUnusedDeclaration] does to its walker, and touches no other
    object. *)
Lemma simulates_visitNode (node : Node) :
  simulates this
    (NoUnusedDeclarationObject.visitNode typeChecker isReassignmentTarget
       forEachDeclaredVariable this node)
    (NoUnusedDeclaration.visitNode typeChecker isReassignmentTarget
       forEachDeclaredVariable node).
Proof.
  induction node as [i k p e t cs IH] using Node_induction.
  simpl NoUnusedDeclarationObject.visitNode.
  simpl NoUnusedDeclaration.visitNode.
  apply simulates_seq.
  - apply simulates_dispatch.
    induction IH as [| [q c] cs Hc _ IHcs]; [apply simulates_skip |].
    apply simulates_seq; [exact Hc | exact IHcs].
  - destruct (isSourceFile (mkNode i k p e t cs));
      [apply simulates_onSourceFileEnd | apply simulates_skip].
Qed.

End Pass.

End NoUnusedDeclarationObjectFacts.

Module NoUnsafeCallbackScopeObjectFacts.
Import Ts Heap HeapFacts TsFacts NoUnsafeCallbackScope.

Section Pass.

Variable typeChecker : TypeChecker.
Variable util : Util.
Variable this : Ref.

Lemma simulates_validate (node : Located) :
  simulates this
    (NoUnsafeCallbackScopeObject.validate typeChecker util this node)
    (fun w => Ok (validate typeChecker util node w)).
Proof.
  apply simulates_withThis. intros w. cbv beta zeta.
  destruct (callbackStack w) as [| rootCallback rest] eqn:Es.
  - apply (simAt_ext this _ (fun w0 => Ok w0));
      [unfold validate; rewrite Es; reflexivity | apply simulates_skip].
  - destruct (isIdentifier (self node) || isThis util (self node)) eqn:Ev.
    + destruct (isUnsafe typeChecker util w node rootCallback)
        as [failureNode |] eqn:Eu.
      * apply (simAt_ext this _
                 (fun w0 => Ok (addFailureAtNode failureNode FAILURE_STRING w0)));
          [unfold validate; rewrite Es, Ev, Eu; reflexivity |].
        apply simulates_modify.
      * apply (simAt_ext this _ (fun w0 => Ok w0));
          [unfold validate; rewrite Es, Ev, Eu; reflexivity |].
        apply simulates_skip.
    + apply (simAt_ext this _ (fun w0 => Ok w0));
        [unfold validate; rewrite Es, Ev; reflexivity | apply simulates_skip].
Qed.

(** The walk on [this] does to the walker at [this] what the walk of
    [NoUnsafeCallbackScope] does to its walker, touches no other object
    and does not throw. *)
Lemma simulates_walk (node : Node) :
  forall up,
    simulates this
      (NoUnsafeCallbackScopeObject.visitNode typeChecker util this up node)
      (fun w => Ok (visitNode typeChecker util up node w)).
Proof.
  induction node as [i k p e t cs IH] using Node_induction. intros up.
  simpl NoUnsafeCallbackScopeObject.visitNode. simpl visitNode.
  set (node := mkNode i k p e t cs) in *.
  set (here := {| self := node; ancestors := up |}).
  set (walk' :=
         fix walk (l : list (string * Node)) (w0 : Walker) : Walker :=
           match l with
           | [] => w0
           | (_, child) :: l' =>
               walk l' (visitNode typeChecker util (node :: up) child w0)
           end).
  set (walk :=
         fix walk (l : list (string * Node)) : NoUnsafeCallbackScopeObject.Stmt :=
           match l with
           | [] => skip
           | (_, child) :: l' =>
               seq (NoUnsafeCallbackScopeObject.visitNode typeChecker util this
                      (node :: up) child) (walk l')
           end).
  assert (Hwalk : simulates this (walk cs) (fun w => Ok (walk' cs w))).
  { clearbody node. induction IH as [| [q c] l Hc _ IHl]; simpl.
    - apply simulates_skip.
    - apply (simulates_ext this _
               (fun w => bind (Ok (visitNode typeChecker util (node :: up) c w))
                              (fun w1 => Ok (walk' l w1)))); [reflexivity |].
      apply simulates_seq; [apply Hc | exact IHl]. }
  apply (simulates_ext this _
           (fun w => bind (Ok (validate typeChecker util here w))
                          (fun w1 => Ok (if isCallbackLiteral here
                                         then popCallback
                                                (walk' cs (pushCallback here w1))
                                         else walk' cs w1)))); [reflexivity |].
  apply simulates_seq; [apply simulates_validate |].
  destruct (isCallbackLiteral here); [| exact Hwalk].
  apply (simulates_ext this _
           (fun w => bind (Ok (pushCallback here w))
                          (fun w1 => bind (Ok (walk' cs w1))
                                          (fun w2 => Ok (popCallback w2)))));
    [reflexivity |].
  apply simulates_seq; [apply simulates_modify |].
  apply simulates_seq; [exact Hwalk | apply simulates_modify].
Qed.

End Pass.

End NoUnsafeCallbackScopeObjectFacts.

Module LintFacts.
Import Ts Heap HeapFacts.

Lemma nth_error_middle {A : Type} (l1 l2 : list A) (a : A) :
  nth_error (l1 ++ a :: l2) (List.length l1) = Some a.
Proof.
  rewrite nth_error_app2 by lia. rewrite Nat.sub_diag. reflexivity.
Qed.

Lemma map_twice {A B : Type} (f : A -> B) (before between after : list A)
  (a : A) :
  let results := map f (before ++ a :: between ++ a :: after) in
  nth_error results (List.length before) = Some (f a) /\
  nth_error results (List.length before + 1 + List.length between)
  = Some (f a).
Proof.
  cbv zeta. rewrite map_app; simpl map. rewrite map_app; simpl map. split.
  - rewrite <- (length_map f before). apply nth_error_middle.
  - rewrite app_comm_cons, app_assoc.
    replace (List.length before + 1 + List.length between)%nat
      with (List.length (map f before ++ f a :: map f between)).
    + apply nth_error_middle.
    + rewrite length_app; simpl. rewrite !length_map. lia.
Qed.

(** A pass of no-unused-declaration on any heap builds one walker, leaves
    the walkers that were there as they were, and returns what the pass
    returns on a walker of its own. *)
Lemma unusedDeclaration_pass (typeChecker : TypeChecker)
  (isReassignmentTarget : Node -> bool)
  (forEachDeclaredVariable : Node -> list Node) (sourceFile : Node)
  (h : list NoUnusedDeclaration.Walker) :
  fst (NoUnusedDeclarationObject.applyWithProgram typeChecker
         isReassignmentTarget forEachDeclaredVariable sourceFile h)
  = NoUnusedDeclaration.applyWithProgram typeChecker isReassignmentTarget
      forEachDeclaredVariable sourceFile /\
  exists w,
    snd (NoUnusedDeclarationObject.applyWithProgram typeChecker
           isReassignmentTarget forEachDeclaredVariable sourceFile h)
    = h ++ [w].
Proof.
  unfold NoUnusedDeclarationObject.applyWithProgram,
    NoUnusedDeclaration.applyWithProgram, alloc.
  destruct (NoUnusedDeclarationObjectFacts.simulates_visitNode typeChecker
              isReassignmentTarget forEachDeclaredVariable (List.length h)
              sourceFile NoUnusedDeclaration.newWalker
              (h ++ [NoUnusedDeclaration.newWalker])
              (read_alloc _ h))
    as (w1 & Hs & Hp).
  rewrite write_alloc in Hs.
  destruct (NoUnusedDeclarationObject.visitNode typeChecker
              isReassignmentTarget forEachDeclaredVariable (List.length h)
              sourceFile (h ++ [NoUnusedDeclaration.newWalker]))
    as [r h1]; simpl in Hs, Hp. subst h1.
  destruct (NoUnusedDeclaration.visitNode typeChecker isReassignmentTarget
              forEachDeclaredVariable sourceFile NoUnusedDeclaration.newWalker)
    as [w' | e]; simpl.
  - destruct Hp as [-> ->]. rewrite read_alloc. simpl.
    split; [reflexivity | exists w'; reflexivity].
  - subst r. simpl. split; [reflexivity | exists w1; reflexivity].
Qed.

Lemma unsafeCallbackScope_pass (typeChecker : TypeChecker)
  (util : NoUnsafeCallbackScope.Util)
  (options : option NoUnsafeCallbackScope.Options) (sourceFile : Node)
  (h : list NoUnsafeCallbackScope.Walker) :
  fst (NoUnsafeCallbackScopeObject.applyWithProgram typeChecker util options
         sourceFile h)
  = Ok (NoUnsafeCallbackScope.applyWithProgram typeChecker util options
          sourceFile) /\
  exists w,
    snd (NoUnsafeCallbackScopeObject.applyWithProgram typeChecker util options
           sourceFile h)
    = h ++ [w].
Proof.
  unfold NoUnsafeCallbackScopeObject.applyWithProgram,
    NoUnsafeCallbackScope.applyWithProgram, alloc.
  destruct (NoUnsafeCallbackScopeObjectFacts.simulates_walk typeChecker
              util (List.length h) sourceFile []
              (NoUnsafeCallbackScope.newWalker options)
              (h ++ [NoUnsafeCallbackScope.newWalker options])
              (read_alloc _ h))
    as (w1 & Hs & Hp).
  rewrite write_alloc in Hs.
  destruct (NoUnsafeCallbackScopeObject.visitNode typeChecker util
              (List.length h) [] sourceFile
              (h ++ [NoUnsafeCallbackScope.newWalker options]))
    as [r h1]; simpl in Hs, Hp. subst h1.
  destruct Hp as [-> ->]. rewrite read_alloc. simpl.
  split; [reflexivity | eexists; reflexivity].
Qed.

(** In a run, the passes over a file at two places return the same, and
    what they return is what the pass returns on an empty heap; the
    walkers that were in the heap are as they were, and each pass has
    built one. *)
Lemma run_twice {Obj R : Type} (pass : Node -> list Obj -> R * list Obj)
  (alone : Node -> R) (before between after : list Node) (sourceFile : Node)
  (h : list Obj) :
  (forall sourceFile h,
      fst (pass sourceFile h) = alone sourceFile /\
      exists o, snd (pass sourceFile h) = h ++ [o]) ->
  let files := before ++ sourceFile :: between ++ sourceFile :: after in
  let first := List.length before in
  let second := (List.length before + 1 + List.length between)%nat in
  let run := Lint.run pass files h in
  nth_error (fst run) first = Some (fst (pass sourceFile [])) /\
  nth_error (fst run) second = nth_error (fst run) first /\
  firstn (List.length h) (snd run) = h /\
  List.length (snd run) = (List.length h + List.length files)%nat.
Proof.
  intros Hpass. cbv zeta.
  destruct (run_stateless pass alone
              (before ++ sourceFile :: between ++ sourceFile :: after)
              Hpass h) as [Hr (l & Hl & Hlen)].
  rewrite Hr, Hl.
  destruct (map_twice alone before between after sourceFile) as [H1 H2].
  cbv zeta in H1, H2. rewrite H1, H2.
  rewrite (proj1 (Hpass sourceFile [])).
  repeat split.
  - rewrite firstn_app, Nat.sub_diag, firstn_all; simpl. apply app_nil_r.
  - rewrite length_app, Hlen; reflexivity.
Qed.

(** C8: a pass of either rule builds its own walker with [new Walker]
    and reads and writes the fields of that object only.  So in any run of
    the host, started on any heap (whatever passes ran before and whatever
    they left in their walkers): two passes of a rule over the same file,
    tree and symbol table return the same failures in the same order, the
    ones the pass returns on an empty heap; the walkers that were in the
    heap are left as they were; and every pass has built one walker. *)
Theorem passes_are_independent
  (typeChecker : TypeChecker)
  (isReassignmentTarget : Node -> bool)
  (forEachDeclaredVariable : Node -> list Node)
  (util : NoUnsafeCallbackScope.Util)
  (options : option NoUnsafeCallbackScope.Options)
  (before between after : list Node) (sourceFile : Node)
  (unusedWalkers : list NoUnusedDeclaration.Walker)
  (scopeWalkers : list NoUnsafeCallbackScope.Walker) :
  let files := before ++ sourceFile :: between ++ sourceFile :: after in
  let first := List.length before in
  let second := (List.length before + 1 + List.length between)%nat in
  let unused :=
    Lint.runUnusedDeclaration typeChecker isReassignmentTarget
      forEachDeclaredVariable files unusedWalkers in
  let unsafe :=
    Lint.runUnsafeCallbackScope typeChecker util options files scopeWalkers in
  (nth_error (fst unused) first
   = Some (fst (NoUnusedDeclarationObject.applyWithProgram typeChecker
                  isReassignmentTarget forEachDeclaredVariable sourceFile [])) /\
   nth_error (fst unused) second = nth_error (fst unused) first /\
   firstn (List.length unusedWalkers) (snd unused) = unusedWalkers /\
   List.length (snd unused)
   = (List.length unusedWalkers + List.length files)%nat) /\
  (nth_error (fst unsafe) first
   = Some (fst (NoUnsafeCallbackScopeObject.applyWithProgram typeChecker util
                  options sourceFile [])) /\
   nth_error (fst unsafe) second = nth_error (fst unsafe) first /\
   firstn (List.length scopeWalkers) (snd unsafe) = scopeWalkers /\
   List.length (snd unsafe)
   = (List.length scopeWalkers + List.length files)%nat).
Proof.
  cbv zeta. split.
  - apply (run_twice _
             (NoUnusedDeclaration.applyWithProgram typeChecker
                isReassignmentTarget forEachDeclaredVariable)).
    intros f h. apply unusedDeclaration_pass.
  - apply (run_twice _
             (fun f => Ok (NoUnsafeCallbackScope.applyWithProgram typeChecker
                             util options f))).
    intros f h. apply unsafeCallbackScope_pass.
Qed.

End LintFacts.

(* ===================================================================== *)
(** * The rules on the example files *)
(* ===================================================================== *)

Module Examples.
Import Ts Fixtures.

(** ** no-unused-declaration *)

Ltac distinct :=
  repeat (constructor; [simpl; intuition congruence |]); constructor.

Ltac each_node H :=
  simpl in H; repeat (destruct H as [<- | H]; [| try contradiction]).

(** C1 (code bug): a reference whose symbol is not resolved, or whose
    symbol has no declarations, makes the pass of no-unused-declaration
    throw: [visitIdentifier] reads [symbol.getDeclarations()] and
    [declarations.forEach] without a guard. *)
Theorem unresolved_reference_throws :
  NoUnusedDeclaration.applyWithProgram unresolvedReference_checker
    neverReassigned declaredVariables unresolvedReference
  = Throw TypeError /\
  NoUnusedDeclaration.applyWithProgram undeclaredSymbol_checker
    neverReassigned declaredVariables unresolvedReference
  = Throw TypeError.
Proof. split; vm_compute; reflexivity. Qed.

(** The hook itself: an identifier that is neither registered nor a
    reassignment target and has no symbol throws. *)
Lemma visitIdentifier_unresolved (typeChecker : TypeChecker)
  (isReassignmentTarget : Node -> bool) (node : Node)
  (super : NoUnusedDeclaration.Walker -> Result NoUnusedDeclaration.Walker)
  (w : NoUnusedDeclaration.Walker) :
  JsMap.has (Some (id node)) (NoUnusedDeclaration._identifiers w) = false ->
  isReassignmentTarget node = false ->
  getSymbolAtLocation typeChecker node = None ->
  NoUnusedDeclaration.visitIdentifier typeChecker isReassignmentTarget node
    super w = Throw TypeError.
Proof.
  intros Hhas Hrt Hs. unfold NoUnusedDeclaration.visitIdentifier.
  rewrite Hhas, Hrt, Hs. reflexivity.
Qed.

(** [function f() {}]: one failure, at [f]. *)
Example unusedFunction_reported :
  NoUnusedDeclaration.applyWithProgram unusedFunction_checker neverReassigned
    declaredVariables unusedFunction
  = Ok [{| failureNode := 2;
           failureString := NoUnusedDeclaration.FAILURE_STRING |}].
Proof. vm_compute; reflexivity. Qed.

(** The same pass run on walkers kept as objects, on a heap that holds
    a walker in whose map [f] is marked used: the same failure. *)
Example unusedFunction_on_a_used_heap :
  fst (NoUnusedDeclarationObject.applyWithProgram unusedFunction_checker
         neverReassigned declaredVariables unusedFunction
         [{| NoUnusedDeclaration._identifiers := [(Some 2, true)];
             NoUnusedDeclaration.failures := [] |}])
  = Ok [{| failureNode := 2;
           failureString := NoUnusedDeclaration.FAILURE_STRING |}].
Proof. vm_compute; reflexivity. Qed.

(** [export function f() {}]: no failure. *)
Example exportedFunction_not_reported :
  NoUnusedDeclaration.applyWithProgram exportedFunction_checker neverReassigned
    declaredVariables exportedFunction
  = Ok [].
Proof. vm_compute; reflexivity. Qed.

(** [function g() { g(); }]: the recursive call marks [g] used. *)
Example recursiveFunction_not_reported :
  NoUnusedDeclaration.applyWithProgram recursiveFunction_checker neverReassigned
    declaredVariables recursiveFunction
  = Ok [].
Proof. vm_compute; reflexivity. Qed.

(** [foo(); function foo() {}]: the call is visited before the declaration
    is registered, marks nothing, and [foo] is reported as unused. *)
Example usedBeforeDeclaration_reported :
  NoUnusedDeclaration.applyWithProgram usedBeforeDeclaration_checker
    neverReassigned declaredVariables usedBeforeDeclaration
  = Ok [{| failureNode := 5;
           failureString := NoUnusedDeclaration.FAILURE_STRING |}].
Proof. vm_compute; reflexivity. Qed.

(** C2 (code bug): in [foo(); function foo() {}] the [foo] of the call is
    a plain reference (no declaration name, no reassignment target) that
    resolves to the function declared after it, a tracked declaration that
    is not exported; the walk is a single pass and a declaration is
    registered when the walk reaches it, so [visitIdentifier] finds no
    entry for [foo] at the call, sets nothing, and the pass reports the
    declaration as unused. *)
Theorem reference_before_declaration_does_not_mark :
  nth_error (preorder usedBeforeDeclaration) 3
  = Some (leaf 3 Identifier 0 3 "foo") /\
  nth_error (preorder usedBeforeDeclaration) 4 = Some foo_declaration /\
  NoUnusedDeclaration.isTrackedDeclaration foo_declaration = true /\
  NoUnusedDeclaration.isExported foo_declaration = false /\
  NoUnusedDeclaration.declares declaredVariables foo_declaration 5 /\
  NoUnusedDeclaration.isReference declaredVariables usedBeforeDeclaration
    (leaf 3 Identifier 0 3 "foo") /\
  neverReassigned (leaf 3 Identifier 0 3 "foo") = false /\
  NoUnusedDeclaration.resolvesTo usedBeforeDeclaration_checker
    (leaf 3 Identifier 0 3 "foo") 5 /\
  NoUnusedDeclaration.applyWithProgram usedBeforeDeclaration_checker
    neverReassigned declaredVariables usedBeforeDeclaration
  = Ok [{| failureNode := 5;
           failureString := NoUnusedDeclaration.FAILURE_STRING |}].
Proof.
  repeat split; try (vm_compute; reflexivity).
  - left; reflexivity.
  - intros x Hx Hk. each_node Hx; vm_compute in Hk; intuition congruence.
  - exists (declaredBy [foo_declaration]), [foo_declaration], foo_declaration.
    repeat split; [left; reflexivity].
Qed.

(** C7 (code bug): in [function f() {} foo;], with [foo] declared nowhere,
    [f] is a function declaration that is not exported and is never
    referenced, and no failure is reported at it: the unguarded
    [symbol.getDeclarations()] of [visitIdentifier] throws at [foo] and the
    pass returns no failure at all. *)
Theorem unused_declaration_lost_when_pass_throws :
  In f_declaration (preorder ChainFixtures.unusedThenUnresolved) /\
  NoUnusedDeclaration.isTrackedDeclaration f_declaration = true /\
  NoUnusedDeclaration.isExported f_declaration = false /\
  NoUnusedDeclaration.declares declaredVariables f_declaration 2 /\
  NoUnusedDeclaration.ownsToken declaredVariables
    ChainFixtures.unusedThenUnresolved f_declaration 2 /\
  NoUnusedDeclaration.neverReferenced unusedFunction_checker neverReassigned
    ChainFixtures.unusedThenUnresolved 2 /\
  getSymbolAtLocation unusedFunction_checker ChainFixtures.foo_unresolved
  = None /\
  NoUnusedDeclaration.applyWithProgram unusedFunction_checker neverReassigned
    declaredVariables ChainFixtures.unusedThenUnresolved
  = Throw TypeError.
Proof.
  repeat split; try (vm_compute; reflexivity).
  - simpl; tauto.
  - left; reflexivity.
  - intros x Hx Hk. each_node Hx; try reflexivity;
      vm_compute in Hk; intuition congruence.
  - intros x Hx Hne Hk. each_node Hx; vm_compute in Hk, Hne;
      intuition congruence.
Qed.

(** In [let x = 1; x = 2;] the [x] of the assignment is a reference to the
    declared variable, visited after the declaration, and the pass still
    reports the declaration as unused: a reassignment target does not
    mark. *)
Lemma reassignment_target_does_not_mark :
  nth_error (preorder reassignedOnly) 1 = Some x_statement /\
  nth_error (preorder reassignedOnly) 8 = Some x_assigned /\
  NoUnusedDeclaration.isTrackedDeclaration x_statement = true /\
  NoUnusedDeclaration.isExported x_statement = false /\
  NoUnusedDeclaration.declares declaredVariables x_statement 4 /\
  NoUnusedDeclaration.isReference declaredVariables reassignedOnly x_assigned /\
  NoUnusedDeclaration.resolvesTo reassignedOnly_checker x_assigned 4 /\
  NoUnusedDeclaration.applyWithProgram reassignedOnly_checker
    reassignedOnly_targets declaredVariables reassignedOnly
  = Ok [{| failureNode := 4;
           failureString := NoUnusedDeclaration.FAILURE_STRING |}].
Proof.
  repeat split; try (vm_compute; reflexivity).
  - left; reflexivity.
  - intros x Hx Hk. each_node Hx; vm_compute in Hk; intuition congruence.
  - exists (declaredBy [x_declaration]), [x_declaration], x_declaration.
    repeat split; [left; reflexivity].
Qed.

(** [function f() {}] is reported once, at [f]; [export function f() {}]
    is not reported. *)
Lemma unused_declaration_reported_once_witness :
  (exists fs,
      NoUnusedDeclaration.applyWithProgram unusedFunction_checker
        neverReassigned declaredVariables unusedFunction = Ok fs /\
      count_occ Nat.eq_dec (NoUnusedDeclaration.reportedAt fs) 2 = 1) /\
  (exists fs,
      NoUnusedDeclaration.applyWithProgram exportedFunction_checker
        neverReassigned declaredVariables exportedFunction = Ok fs /\
      NoUnusedDeclaration.setOps declaredVariables f_exported = [] /\
      ~ In 2 (NoUnusedDeclaration.reportedAt fs)).
Proof.
  split.
  - assert (Hin : In f_declaration (preorder unusedFunction))
      by (simpl; tauto).
    assert (Hdecl : NoUnusedDeclaration.declares declaredVariables
                      f_declaration 2) by (left; reflexivity).
    assert (Hown : NoUnusedDeclaration.ownsToken declaredVariables
                     unusedFunction f_declaration 2).
    { intros x Hx Hk. each_node Hx; try reflexivity;
        vm_compute in Hk; intuition congruence. }
    destruct (NoUnusedDeclarationFacts.unused_declaration_reported_once
                unusedFunction_checker neverReassigned declaredVariables
                unusedFunction f_declaration 2
                eq_refl eq_refl eq_refl Hin eq_refl Hdecl Hown)
      as (fs & Hfs & Hone & _).
    exists fs; split; [exact Hfs |].
    apply Hone; [reflexivity |].
    intros x Hx Hne Hk. each_node Hx; vm_compute in Hk, Hne;
      intuition congruence.
  - assert (Hin : In f_exported (preorder exportedFunction))
      by (simpl; tauto).
    assert (Hdecl : NoUnusedDeclaration.declares declaredVariables
                      f_exported 2) by (left; reflexivity).
    assert (Hown : NoUnusedDeclaration.ownsToken declaredVariables
                     exportedFunction f_exported 2).
    { intros x Hx Hk. each_node Hx; try reflexivity;
        vm_compute in Hk; intuition congruence. }
    destruct (NoUnusedDeclarationFacts.unused_declaration_reported_once
                exportedFunction_checker neverReassigned declaredVariables
                exportedFunction f_exported 2
                eq_refl eq_refl eq_refl Hin eq_refl Hdecl Hown)
      as (fs & Hfs & _ & Hexp).
    exists fs; split; [exact Hfs |].
    apply Hexp; reflexivity.
Defined.

(** [function g() { g(); }]: the recursive call marks [g]. *)
Lemma reference_after_declaration_marks_used_witness :
  (forall w,
      JsMap.has (Some 2) (NoUnusedDeclaration._identifiers w) = true ->
      JsMap.has (Some (id g_call)) (NoUnusedDeclaration._identifiers w) = false ->
      exists w',
        NoUnusedDeclaration.visitIdentifier recursiveFunction_checker
          neverReassigned g_call (fun w0 => Ok w0) w = Ok w' /\
        JsMap.get (Some 2) (NoUnusedDeclaration._identifiers w') = Some true) /\
  exists fs,
    NoUnusedDeclaration.applyWithProgram recursiveFunction_checker
      neverReassigned declaredVariables recursiveFunction = Ok fs /\
    ~ In 2 (NoUnusedDeclaration.reportedAt fs).
Proof.
  apply (NoUnusedDeclarationFacts.reference_after_declaration_marks_used
           recursiveFunction_checker neverReassigned declaredVariables
           recursiveFunction g_declaration g_call 2 1 6).
  - reflexivity.
  - reflexivity.
  - reflexivity.
  - vm_compute. distinct.
  - reflexivity.
  - reflexivity.
  - lia.
  - reflexivity.
  - reflexivity.
  - left; reflexivity.
  - intros x Hx Hk. each_node Hx; try reflexivity;
      vm_compute in Hk; intuition congruence.
  - split; [reflexivity |].
    intros x Hx Hk. each_node Hx; vm_compute in Hk; intuition congruence.
  - reflexivity.
  - exists (declaredBy [g_declaration]), [g_declaration], g_declaration.
    repeat split; [left; reflexivity].
Defined.

(** ** no-unsafe-callback-scope *)

Import NoUnsafeCallbackScope.

(** Scenario A: one failure, at the [x] inside the callback. *)
Example scenarioA_one_failure :
  applyWithProgram scenarioA_checker (util []) None scenarioA
  = [{| failureNode := 20; failureString := FAILURE_STRING |}].
Proof. vm_compute; reflexivity. Qed.

(** Scenario C: no failure, whatever the options are. *)
Example scenarioC_no_failure (options : option Options) :
  applyWithProgram scenarioC_checker (util []) options scenarioC = [].
Proof.
  destruct options as [[[[|] |] [[|] |] [[|] |]] |]; vm_compute; reflexivity.
Qed.

(** [this.s.n] in a callback, under the default settings: the pass gives
    one failure for the chain, at [this]. *)
Example twoStepChain_one_failure :
  applyWithProgram ChainFixtures.twoStepChain_checker (util []) None
    ChainFixtures.twoStepChain
  = [{| failureNode := 20; failureString := FAILURE_STRING |}].
Proof. vm_compute; reflexivity. Qed.

(** The same pass run on walkers kept as objects, on a heap that holds
    the walker of an earlier pass: the same failure. *)
Example twoStepChain_on_a_used_heap :
  fst (NoUnsafeCallbackScopeObject.applyWithProgram
         ChainFixtures.twoStepChain_checker (util []) None
         ChainFixtures.twoStepChain
         [inside None [ChainFixtures.K_callback]])
  = Ok [{| failureNode := 20; failureString := FAILURE_STRING |}].
Proof. vm_compute; reflexivity. Qed.

(** Scenario D: no failure. *)
Example scenarioD_no_failure :
  applyWithProgram scenarioD_checker (util [10]) None scenarioD = [].
Proof. vm_compute; reflexivity. Qed.

(** [list.forEach(() => new Foo(x))] with [let x] outside: the argument [x]
    has the constructor call as its parent and is not reported. *)
Example constructorArgument_no_failure :
  isUnsafeRoot constructorArgument_checker (util [])
    (inside None [N_callback]) (located constructorArgument 14) N_callback
  = None /\
  applyWithProgram constructorArgument_checker (util []) None constructorArgument
  = [].
Proof. split; vm_compute; reflexivity. Qed.

(** C3 (witness): scenario D, the [y] of [return y]. *)
Lemma declaration_within_closure_is_safe_witness :
  isUnsafeRoot scenarioD_checker (util [10]) (inside None [D_callback])
    (located scenarioD 14) D_callback = None /\
  isUnsafe scenarioD_checker (util [10]) (inside None [D_callback])
    (located scenarioD 14) D_callback = None /\
  validate scenarioD_checker (util [10]) (located scenarioD 14)
    (inside None [D_callback]) = inside None [D_callback].
Proof.
  apply (NoUnsafeCallbackScopeFacts.declaration_within_closure_is_safe
           scenarioD_checker (util [10]) (inside None [D_callback])
           (located scenarioD 14) D_callback [] D_y).
  - reflexivity.
  - reflexivity.
  - reflexivity.
  - simpl; lia.
Defined.



(** C5 (witness): scenario C, the [v] of [this.v]. *)
Lemma readonly_member_is_safe_witness :
  isUnsafe scenarioC_checker (util [])
    (inside (Some {| optAllowMethods := None; optAllowParameters := None;
                     optAllowProperties := Some false |}) [C_callback])
    (located scenarioC 18) C_callback = None /\
  forall w', validate scenarioC_checker (util []) (located scenarioC 18) w' = w'.
Proof.
  apply (NoUnsafeCallbackScopeFacts.readonly_member_is_safe
           scenarioC_checker (util [])
           (inside (Some {| optAllowMethods := None; optAllowParameters := None;
                            optAllowProperties := Some false |}) [C_callback])
           (located scenarioC 18) C_callback C_v); reflexivity.
Defined.

(** C6 (witness): the chain [this.s.n] in a callback, under the default
    settings: [this] and [s] are skipped, [n] is the leaf and is classified
    by the root [this], and the whole chain gives one failure, at [this]. *)
Lemma chain_classified_once_witness :
  (forall node,
      In node (chainNodes (ancestors (located ChainFixtures.twoStepChain 18))
                 ChainFixtures.K_access) ->
      isPropertyAccessExpressionLeaf node = false ->
      isUnsafe ChainFixtures.twoStepChain_checker (util [])
        (inside None [ChainFixtures.K_callback]) node ChainFixtures.K_callback
      = None) /\
  isUnsafe ChainFixtures.twoStepChain_checker (util [])
    (inside None [ChainFixtures.K_callback])
    (located ChainFixtures.twoStepChain 22) ChainFixtures.K_callback
  = Some ChainFixtures.K_this /\
  validateAll ChainFixtures.twoStepChain_checker (util [])
    (chainNodes (ancestors (located ChainFixtures.twoStepChain 18))
       ChainFixtures.K_access)
    (inside None [ChainFixtures.K_callback])
  = validate ChainFixtures.twoStepChain_checker (util [])
      (located ChainFixtures.twoStepChain 22)
      (inside None [ChainFixtures.K_callback]) /\
  failures
    (validateAll ChainFixtures.twoStepChain_checker (util [])
       (chainNodes (ancestors (located ChainFixtures.twoStepChain 18))
          ChainFixtures.K_access)
       (inside None [ChainFixtures.K_callback]))
  = [{| failureNode := 20; failureString := FAILURE_STRING |}].
Proof.
  assert (Hnd : NoDup (map (fun x => id (self x))
                         (chainNodes
                            (ancestors (located ChainFixtures.twoStepChain 18))
                            ChainFixtures.K_access))).
  { vm_compute. distinct. }
  destruct (NoUnsafeCallbackScopeFacts.chain_classified_once
              ChainFixtures.twoStepChain_checker (util [])
              (inside None [ChainFixtures.K_callback])
              (ancestors (located ChainFixtures.twoStepChain 18))
              ChainFixtures.K_access ChainFixtures.K_callback
              eq_refl eq_refl Hnd)
    as (Hskip & _ & _ & _ & Honce & Hleaf).
  split; [exact Hskip | split; [| split]].
  - exact (Hleaf ChainFixtures.K_n_reference ChainFixtures.K_n
             (located ChainFixtures.twoStepChain 20)
             eq_refl eq_refl eq_refl eq_refl eq_refl).
  - exact (Honce ChainFixtures.K_n_reference eq_refl).
  - rewrite (Honce ChainFixtures.K_n_reference eq_refl). reflexivity.
Defined.

(** C9 (witness): [Math.floor] in a callback. *)
Lemma knownGlobal_exact_match_witness :
  isUnsafe globalMath_checker (util []) (inside None [G_callback])
    (located globalMath 9) G_callback = None.
Proof.
  destruct (NoUnsafeCallbackScopeFacts.knownGlobal_exact_match
              globalMath_checker (util []))
    as (_ & _ & _ & _ & _ & _ & H).
  apply (H (inside None [G_callback]) (located globalMath 9)
           (located globalMath 7) (located globalMath 8) G_callback G_floor);
    reflexivity.
Defined.

(** C10 (witness): the [a] of [f().a]. *)
Lemma chain_without_root_is_safe_witness :
  getPropertyAccessExpressionRoot (util []) (located callResult 7) = None /\
  isUnsafe callResult_checker (util []) (inside None [R_callback])
    (located callResult 10) R_callback = None /\
  validate callResult_checker (util []) (located callResult 10)
    (inside None [R_callback]) = inside None [R_callback].
Proof.
  apply (NoUnsafeCallbackScopeFacts.chain_without_root_is_safe
           callResult_checker (util []) (inside None [R_callback])
           (located callResult 10) (located callResult 7)
           (located callResult 8) R_callback); reflexivity.
Defined.

End Examples.

(* ===================================================================== *)
(** * Proofs: more on no-unused-declaration *)
(* ===================================================================== *)

Module NoUnusedDeclarationMore.
Import Ts JsMap JsMapFacts TsFacts NoUnusedDeclaration NoUnusedDeclarationFacts.

Lemma applySets_kept (k : Key) (b : bool) (ops : list (Key * bool))
  (m : JsMap.t) :
  get k m = Some b ->
  (forall v, In (k, v) ops -> v = b) ->
  get k (applySets ops m) = Some b.
Proof.
  revert m; induction ops as [| [k0 v0] ops IH]; intros m Hget Hall; simpl;
    [exact Hget |].
  apply IH; [| intros v Hv; apply Hall; right; exact Hv].
  destruct (key_eq_dec k k0) as [E | E].
  - subst k0. rewrite (Hall v0 (or_introl eq_refl)). apply get_set_same.
  - simpl; rewrite get_set_other by exact E; exact Hget.
Qed.

Lemma applySets_written (k : Key) (b : bool) (ops : list (Key * bool))
  (m : JsMap.t) :
  In (k, b) ops ->
  (forall v, In (k, v) ops -> v = b) ->
  get k (applySets ops m) = Some b.
Proof.
  revert m; induction ops as [| [k0 v0] ops IH]; intros m Hin Hall;
    [contradiction |].
  destruct Hin as [E | Hin].
  - inversion E; subst k0 v0. simpl.
    apply applySets_kept; [apply get_set_same |].
    intros v Hv; apply Hall; right; exact Hv.
  - simpl; apply IH; [exact Hin |].
    intros v Hv; apply Hall; right; exact Hv.
Qed.

Lemma Throw_TypeError {A : Type} (e : Error) : @Throw A e = Throw TypeError.
Proof. destruct e; reflexivity. Qed.

Section Pass.

Variable typeChecker : TypeChecker.
Variable isReassignmentTarget : Node -> bool.
Variable forEachDeclaredVariable : Node -> list Node.

Local Abbreviation enter' :=
  (enter typeChecker isReassignmentTarget forEachDeclaredVariable).
Local Abbreviation setOps' := (setOps forEachDeclaredVariable).
Local Abbreviation declOps' := (declOps forEachDeclaredVariable).
Local Abbreviation markKeys' := (markKeys typeChecker isReassignmentTarget).
Local Abbreviation apply' :=
  (applyWithProgram typeChecker isReassignmentTarget forEachDeclaredVariable).

(** A used entry stays used while every write to it writes [true]. *)
Lemma enter_true_kept (k : Key) (node : Node) (w w' : Walker) :
  enter' node w = Ok w' ->
  get k (_identifiers w) = Some true ->
  (forall v, In (k, v) (setOps' node) -> v = true) ->
  get k (_identifiers w') = Some true.
Proof.
  intros H Hget Hall.
  destruct (SyntaxKind_eq_dec (kind node) Identifier) as [K | K].
  - apply (enter_true_stays typeChecker isReassignmentTarget
             forEachDeclaredVariable k node w w' H Hget).
    rewrite (setOps_identifier forEachDeclaredVariable node K). intros [].
  - rewrite (enter_sets typeChecker isReassignmentTarget
               forEachDeclaredVariable node w w' K H); simpl.
    apply applySets_kept; assumption.
Qed.

Lemma enter_written (k : Key) (b : bool) (node : Node) (w w' : Walker) :
  enter' node w = Ok w' ->
  In (k, b) (setOps' node) ->
  (forall v, In (k, v) (setOps' node) -> v = b) ->
  get k (_identifiers w') = Some b.
Proof.
  intros H Hin Hall.
  destruct (SyntaxKind_eq_dec (kind node) Identifier) as [K | K].
  - rewrite (setOps_identifier forEachDeclaredVariable node K) in Hin.
    contradiction.
  - rewrite (enter_sets typeChecker isReassignmentTarget
               forEachDeclaredVariable node w w' K H); simpl.
    apply applySets_written; assumption.
Qed.

(** A key is in the map only if the hook of a visited node wrote it. *)
Lemma enter_has_origin (k : Key) (node : Node) (w w' : Walker) :
  enter' node w = Ok w' ->
  has k (_identifiers w') = true ->
  has k (_identifiers w) = true \/ In k (map fst (setOps' node)).
Proof.
  intros H Hhas.
  destruct (has k (_identifiers w)) eqn:E; [left; reflexivity | right].
  destruct (in_dec key_eq_dec k (map fst (setOps' node))) as [Hin | Hni];
    [exact Hin |].
  rewrite (enter_absent typeChecker isReassignmentTarget
             forEachDeclaredVariable k node w w' H E Hni) in Hhas.
  discriminate.
Qed.

(** Only a list of named imports writes [true]. *)
Lemma declOps_true (node : Node) (k : Key) :
  In (k, true) (declOps' node) -> kind node = NamedImports.
Proof.
  unfold declOps. destruct (kind node); try contradiction; try reflexivity.
  - intros [E | []]; inversion E.
  - intros [E | []]; inversion E.
  - destruct (prop "name" node); [| contradiction].
    intros [E | []]; inversion E.
  - destruct (prop "declarationList" node); [| contradiction].
    intros Hin; apply in_map_iff in Hin as (x & E & _); inversion E.
  - intros [E | []]; inversion E.
Qed.

Lemma isExported_import (node : Node) :
  kind node = NamedImports \/ kind node = NamespaceImport ->
  isExported node = false.
Proof. unfold isExported; intros [K | K]; rewrite K; reflexivity. Qed.

(** A token whose last registration leaves it unused, and that nothing
    visited afterwards marks or consumes, is reported once. *)
Lemma registered_token_reported_once (sourceFile d : Node) (n : nat)
  (l1 l2 : list Node) :
  isFile sourceFile = true ->
  forallb (resolved typeChecker isReassignmentTarget) (preorder sourceFile) = true ->
  forallb (wellFormed forEachDeclaredVariable) (preorder sourceFile) = true ->
  preorder sourceFile = l1 ++ d :: l2 ->
  In (Some n, false) (setOps' d) ->
  (forall v, In (Some n, v) (setOps' d) -> v = false) ->
  (forall x v, In x l2 -> In (Some n, v) (setOps' x) -> v = false) ->
  (forall x, In x l2 -> id x <> n -> ~ In (Some n) (markKeys' x)) ->
  exists fs,
    apply' sourceFile = Ok fs /\
    count_occ Nat.eq_dec (reportedAt fs) n = 1.
Proof.
  intros Hfile Hr Hw Hsplit Hreg Hd Hl2 Hnever.
  destruct (applyWithProgram_total typeChecker isReassignmentTarget
              forEachDeclaredVariable sourceFile Hfile Hr Hw)
    as (w1 & w2 & Hw1 & Hnd & Hf & Hend & Happ).
  exists (failures w2); split; [exact Happ |].
  apply (onSourceFileEnd_unused n w1 w2 Hf Hnd); [| exact Hend].
  rewrite Hsplit, forEachM_app in Hw1.
  apply bind_Ok_inv in Hw1 as (wa & _ & Hw1). simpl in Hw1.
  apply bind_Ok_inv in Hw1 as (wb & Hd1 & Hw1).
  apply (forEachM_invariant enter'
           (fun s => get (Some n) (_identifiers s) = Some false) l2)
    with (s := wb) (s' := w1); [| | exact Hw1].
  - intros x s s' Hx Hs Hstep.
    apply (enter_false_stays typeChecker isReassignmentTarget
             forEachDeclaredVariable _ x s s' Hstep Hs).
    + intros v Hv. apply (Hl2 x v Hx Hv).
    + intros Hm. destruct (Nat.eq_dec (id x) n) as [E | E].
      * rewrite E. apply (get_has _ _ _ Hs).
      * exfalso. apply (Hnever x Hx E Hm).
  - apply (enter_written (Some n) false d wa wb Hd1 Hreg Hd).
Qed.

(** Only what is visited after a declaration counts as a use of it: a
    tracked, non-exported declaration that nothing after it refers to is
    reported once, whatever the nodes before it refer to. *)
Theorem references_before_declaration_do_not_count
  (sourceFile d : Node) (n : nat) (l1 l2 : list Node) :
  isFile sourceFile = true ->
  forallb (resolved typeChecker isReassignmentTarget) (preorder sourceFile) = true ->
  forallb (wellFormed forEachDeclaredVariable) (preorder sourceFile) = true ->
  preorder sourceFile = l1 ++ d :: l2 ->
  isTrackedDeclaration d = true ->
  isExported d = false ->
  declares forEachDeclaredVariable d n ->
  ownsToken forEachDeclaredVariable sourceFile d n ->
  (forall x, In x l2 -> id x <> n -> ~ In (Some n) (markKeys' x)) ->
  exists fs,
    apply' sourceFile = Ok fs /\
    count_occ Nat.eq_dec (reportedAt fs) n = 1.
Proof.
  intros Hfile Hr Hw Hsplit Htr Hexp Hdecl Hown Hnever.
  apply (registered_token_reported_once sourceFile d n l1 l2); try assumption.
  - rewrite (setOps_not_exported forEachDeclaredVariable d Hexp). exact Hdecl.
  - intros v Hv. apply (setOps_incl isReassignmentTarget) in Hv.
    apply (declOps_tracked forEachDeclaredVariable d (Some n) v Htr Hv).
  - intros x v Hx Hv. apply (setOps_incl isReassignmentTarget) in Hv.
    assert (x = d) as ->.
    { apply Hown.
      - rewrite Hsplit; apply in_or_app; right; right; exact Hx.
      - apply in_map_iff; exists (Some n, v); split; [reflexivity | exact Hv]. }
    apply (declOps_tracked forEachDeclaredVariable d (Some n) v Htr Hv).
Qed.

(** An import that is never referenced is reported once, at its local
    name: the name of an import specifier or of a namespace import. *)
Theorem unused_import_reported_once (sourceFile d : Node) (n : nat) :
  isFile sourceFile = true ->
  forallb (resolved typeChecker isReassignmentTarget) (preorder sourceFile) = true ->
  forallb (wellFormed forEachDeclaredVariable) (preorder sourceFile) = true ->
  In d (preorder sourceFile) ->
  kind d = NamedImports \/ kind d = NamespaceImport ->
  declares forEachDeclaredVariable d n ->
  ~ In (Some n, true) (declOps' d) ->
  ownsToken forEachDeclaredVariable sourceFile d n ->
  neverReferenced typeChecker isReassignmentTarget sourceFile n ->
  exists fs,
    apply' sourceFile = Ok fs /\
    count_occ Nat.eq_dec (reportedAt fs) n = 1.
Proof.
  intros Hfile Hr Hw Hd Hk Hdecl Hnot Hown Hnever.
  pose proof (setOps_not_exported forEachDeclaredVariable d
                (isExported_import d Hk)) as Hops.
  assert (Hfalse : forall v, In (Some n, v) (declOps' d) -> v = false).
  { intros [|] Hv; [contradiction | reflexivity]. }
  apply in_split in Hd as (l1 & l2 & Hsplit).
  apply (registered_token_reported_once sourceFile d n l1 l2); try assumption.
  - rewrite Hops; exact Hdecl.
  - rewrite Hops; exact Hfalse.
  - intros x v Hx Hv. apply (setOps_incl isReassignmentTarget) in Hv.
    assert (x = d) as ->.
    { apply Hown.
      - rewrite Hsplit; apply in_or_app; right; right; exact Hx.
      - apply in_map_iff; exists (Some n, v); split; [reflexivity | exact Hv]. }
    apply (Hfalse v Hv).
  - intros x Hx. apply Hnever.
    rewrite Hsplit; apply in_or_app; right; right; exact Hx.
Qed.

(** The original name of a renaming import ([a] in [a as b]) is entered as
    used and is never reported: whenever the pass returns, none of its
    failures is at that token.  Nothing is asked of the type checker: the
    token is registered when it is visited, so its symbol is not read. *)
Theorem renamed_import_source_never_reported (sourceFile d : Node) (p : nat)
  (fs : list RuleFailure) :
  isFile sourceFile = true ->
  In d (preorder sourceFile) ->
  In (Some p, true) (declOps' d) ->
  ~ In (Some p, false) (declOps' d) ->
  ownsToken forEachDeclaredVariable sourceFile d p ->
  apply' sourceFile = Ok fs ->
  kind d = NamedImports /\ ~ In p (reportedAt fs).
Proof.
  intros Hfile Hd Hin Hnot Hown Happ.
  pose proof (declOps_true d (Some p) Hin) as Hk.
  split; [exact Hk |].
  pose proof (setOps_not_exported forEachDeclaredVariable d
                (isExported_import d (or_introl Hk))) as Hops.
  assert (Htrue : forall v, In (Some p, v) (declOps' d) -> v = true).
  { intros [|] Hv; [reflexivity | contradiction]. }
  unfold applyWithProgram in Happ.
  rewrite (visitNode_file typeChecker isReassignmentTarget
             forEachDeclaredVariable sourceFile newWalker Hfile) in Happ.
  apply bind_Ok_inv in Happ as (w2 & Hrun & Hfs). inversion Hfs; subst fs.
  apply bind_Ok_inv in Hrun as (w1 & Hw1 & Hend).
  pose proof (walk_failures typeChecker isReassignmentTarget
                forEachDeclaredVariable _ _ _ Hw1) as Hf. simpl in Hf.
  assert (Hnd : NoDup (keys (_identifiers w1))).
  { apply (forEachM_invariant enter'
             (fun s => NoDup (keys (_identifiers s))) (preorder sourceFile))
      with (s := newWalker) (s' := w1); [| constructor | exact Hw1].
    intros x s s' _ Hs Hstep.
    apply (enter_NoDup typeChecker isReassignmentTarget
             forEachDeclaredVariable x s s' Hstep Hs). }
  apply (onSourceFileEnd_not_unused p w1 w2 Hf); [| exact Hend].
  apply in_split in Hd as (l1 & l2 & Hsplit).
  rewrite Hsplit, forEachM_app in Hw1.
  apply bind_Ok_inv in Hw1 as (wa & _ & Hw1). simpl in Hw1.
  apply bind_Ok_inv in Hw1 as (wb & Hd1 & Hw1).
  assert (Hfinal : get (Some p) (_identifiers w1) = Some true).
  { apply (forEachM_invariant enter'
             (fun s => get (Some p) (_identifiers s) = Some true) l2)
      with (s := wb) (s' := w1); [| | exact Hw1].
    - intros x s s' Hx Hs Hstep.
      apply (enter_true_kept (Some p) x s s' Hstep Hs).
      intros v Hv. apply (setOps_incl isReassignmentTarget) in Hv.
      assert (x = d) as ->.
      { apply Hown.
        - rewrite Hsplit; apply in_or_app; right; right; exact Hx.
        - apply in_map_iff; exists (Some p, v); split; [reflexivity | exact Hv]. }
      apply (Htrue v Hv).
    - apply (enter_written (Some p) true d wa wb Hd1).
      + rewrite Hops; exact Hin.
      + rewrite Hops; exact Htrue. }
  intros Hunused. apply (In_get _ _ _ Hnd) in Hunused. congruence.
Qed.

(** A plain reference to an import, visited after the import, marks it
    used: nothing is reported at the local name. *)
Theorem reference_marks_import_used (sourceFile d r : Node) (n i j : nat) :
  isFile sourceFile = true ->
  forallb (resolved typeChecker isReassignmentTarget) (preorder sourceFile) = true ->
  forallb (wellFormed forEachDeclaredVariable) (preorder sourceFile) = true ->
  NoDup (map id (preorder sourceFile)) ->
  nth_error (preorder sourceFile) i = Some d ->
  nth_error (preorder sourceFile) j = Some r ->
  i < j ->
  kind d = NamedImports \/ kind d = NamespaceImport ->
  declares forEachDeclaredVariable d n ->
  ownsToken forEachDeclaredVariable sourceFile d n ->
  isReference forEachDeclaredVariable sourceFile r ->
  isReassignmentTarget r = false ->
  resolvesTo typeChecker r n ->
  exists fs,
    apply' sourceFile = Ok fs /\
    ~ In n (reportedAt fs).
Proof.
  intros Hfile Hr Hw Hids Hi Hj Hlt Hk Hdecl Hown [Hkr Hplain] Hrt
         (symbol & declarations & declaration & Hsym & Hds & Hin & Hkey).
  pose proof (setOps_not_exported forEachDeclaredVariable d
                (isExported_import d Hk)) as Hops.
  assert (Hmark : In (Some n) (markKeys' r)).
  { rewrite (markKeys_identifier typeChecker isReassignmentTarget
               r symbol declarations Hkr Hrt Hsym Hds).
    apply in_map_iff; exists declaration; split; assumption. }
  destruct (applyWithProgram_total typeChecker isReassignmentTarget
              forEachDeclaredVariable sourceFile Hfile Hr Hw)
    as (w1 & w2 & Hw1 & Hnd & Hf & Hend & Happ).
  exists (failures w2); split; [exact Happ |].
  apply (onSourceFileEnd_not_unused n w1 w2 Hf); [| exact Hend].
  destruct (nth_error_split2 _ _ _ _ _ Hi Hj Hlt) as (l1 & l2 & l3 & Hsplit).
  assert (Hall : forall x, In x (l1 ++ d :: l2 ++ r :: l3) ->
                           In x (preorder sourceFile))
    by (intros x Hx; rewrite Hsplit; exact Hx).
  rewrite Hsplit in Hw1, Hids.
  rewrite forEachM_app in Hw1.
  apply bind_Ok_inv in Hw1 as (wa & Hl1 & Hw1). simpl in Hw1.
  apply bind_Ok_inv in Hw1 as (wb & Hd1 & Hw1).
  rewrite forEachM_app in Hw1.
  apply bind_Ok_inv in Hw1 as (wc & Hl2 & Hw1). simpl in Hw1.
  apply bind_Ok_inv in Hw1 as (wd & Hr1 & Hl3).
  assert (Hnb : has (Some n) (_identifiers wb) = true).
  { destruct (SyntaxKind_eq_dec (kind d) Identifier) as [K | K];
      [destruct Hk as [Hk | Hk]; congruence |].
    rewrite (enter_sets typeChecker isReassignmentTarget
               forEachDeclaredVariable d wa wb K Hd1); simpl.
    apply applySets_has; right. rewrite Hops.
    apply in_map_iff; exists (Some n, false); split; [reflexivity | exact Hdecl]. }
  assert (Hnc : has (Some n) (_identifiers wc) = true).
  { apply (forEachM_invariant enter'
             (fun s => has (Some n) (_identifiers s) = true) l2)
      with (s := wb) (s' := wc); [| exact Hnb | exact Hl2].
    intros x s s' _ Hs Hstep.
    apply (enter_has_mono typeChecker isReassignmentTarget
             forEachDeclaredVariable _ x s s' Hstep Hs). }
  assert (Hrc : has (Some (id r)) (_identifiers wc) = false).
  { assert (Hcut : forEachM enter' (l1 ++ d :: l2) newWalker = Ok wc).
    { rewrite forEachM_app, Hl1; simpl. rewrite Hd1; simpl. exact Hl2. }
    apply (never_registered typeChecker isReassignmentTarget
             forEachDeclaredVariable (Some (id r)) (l1 ++ d :: l2) newWalker wc);
      [| reflexivity | exact Hcut].
    intros x Hx Hkx. apply (Hplain x).
    - apply Hall. apply in_app_or in Hx as [Hx | [Hx | Hx]];
        apply in_or_app; [left; exact Hx | right; left; exact Hx |].
      right; right; apply in_or_app; left; exact Hx.
    - apply in_map_iff in Hkx as (op & E & Hop).
      apply in_map_iff; exists op; split; [exact E | apply (setOps_incl isReassignmentTarget), Hop]. }
  assert (Hnd' : get (Some n) (_identifiers wd) = Some true).
  { apply (enter_marks typeChecker isReassignmentTarget
             forEachDeclaredVariable (Some n) r wc Hkr Hrt Hrc Hnc Hmark wd Hr1). }
  assert (Hn1 : get (Some n) (_identifiers w1) = Some true).
  { apply (forEachM_invariant enter'
             (fun s => get (Some n) (_identifiers s) = Some true) l3)
      with (s := wd) (s' := w1); [| exact Hnd' | exact Hl3].
    intros x s s' Hx Hs Hstep.
    apply (enter_true_stays typeChecker isReassignmentTarget
             forEachDeclaredVariable _ x s s' Hstep Hs).
    intros Hkx.
    assert (x = d) as E.
    { apply Hown.
      - apply Hall. apply in_or_app; right; right.
        apply in_or_app; right; right; exact Hx.
      - apply in_map_iff in Hkx as (op & E & Hop).
        apply in_map_iff; exists op; split; [exact E | apply (setOps_incl isReassignmentTarget), Hop]. }
    subst x.
    rewrite map_app in Hids; simpl in Hids.
    apply NoDup_remove_2 in Hids. apply Hids.
    apply in_or_app; right. apply in_map.
    apply in_or_app; right; right; exact Hx. }
  intros Hunused. apply (In_get _ _ _ Hnd) in Hunused. congruence.
Qed.

(** ** What a pass reports, and when it throws *)

Local Abbreviation report :=
  (fun (entry : Key * bool) (w' : Walker) =>
     let (identifier, used) := entry in
     if negb used then addFailureAtNode identifier FAILURE_STRING w' else Ok w').

Local Abbreviation failureAt :=
  (fun i : nat => {| failureNode := i; failureString := FAILURE_STRING |}).

Lemma report_failures (l : JsMap.t) (w w' : Walker) :
  forEachM report l w = Ok w' ->
  exists ids, map Some ids = unusedKeys l /\
              failures w' = failures w ++ map failureAt ids.
Proof.
  revert w; induction l as [| [k used] l IH]; intros w H; simpl in H.
  - inversion H; subst. exists []; split; [reflexivity |].
    symmetry; apply app_nil_r.
  - apply bind_Ok_inv in H as (w1 & H1 & H2).
    destruct (IH _ H2) as (ids & Hids & Hfs).
    destruct used; simpl in H1.
    + inversion H1; subst w1. exists ids; split; [exact Hids | exact Hfs].
    + destruct k as [i |]; simpl in H1; [| discriminate].
      inversion H1; subst w1; simpl in *.
      exists (i :: ids); split.
      * unfold unusedKeys in *; simpl; rewrite Hids; reflexivity.
      * rewrite Hfs, <- app_assoc; reflexivity.
Qed.

(** The failures of a pass are at distinct nodes, each a token that the
    hook of some node of the file registered, and all carry the message of
    the rule. *)
Theorem failures_are_distinct_registered_tokens (sourceFile : Node)
  (fs : list RuleFailure) :
  isFile sourceFile = true ->
  apply' sourceFile = Ok fs ->
  NoDup (reportedAt fs) /\
  (forall f, In f fs -> failureString f = FAILURE_STRING) /\
  (forall n, In n (reportedAt fs) ->
             exists x, In x (preorder sourceFile) /\
                       In (Some n) (map fst (setOps' x))).
Proof.
  intros Hfile Happ. unfold applyWithProgram in Happ.
  rewrite (visitNode_file typeChecker isReassignmentTarget
             forEachDeclaredVariable sourceFile newWalker Hfile) in Happ.
  apply bind_Ok_inv in Happ as (w2 & Hrun & Hfs). inversion Hfs; subst fs.
  apply bind_Ok_inv in Hrun as (w1 & Hw1 & Hend).
  pose proof (walk_failures typeChecker isReassignmentTarget
                forEachDeclaredVariable _ _ _ Hw1) as Hf. simpl in Hf.
  assert (Hnd : NoDup (keys (_identifiers w1))).
  { apply (forEachM_invariant enter'
             (fun s => NoDup (keys (_identifiers s))) (preorder sourceFile))
      with (s := newWalker) (s' := w1); [| constructor | exact Hw1].
    intros x s s' _ Hs Hstep.
    apply (enter_NoDup typeChecker isReassignmentTarget
             forEachDeclaredVariable x s s' Hstep Hs). }
  assert (Horigin : forall k, has k (_identifiers w1) = true ->
                    exists x, In x (preorder sourceFile) /\
                              In k (map fst (setOps' x))).
  { apply (forEachM_invariant enter'
             (fun s => forall k, has k (_identifiers s) = true ->
                       exists x, In x (preorder sourceFile) /\
                                 In k (map fst (setOps' x)))
             (preorder sourceFile))
      with (s := newWalker) (s' := w1); [| discriminate | exact Hw1].
    intros x s s' Hx Hs Hstep k Hk.
    destruct (enter_has_origin k x s s' Hstep Hk) as [Hold | Hnew].
    - apply (Hs k Hold).
    - exists x; split; assumption. }
  unfold onSourceFileEnd in Hend.
  destruct (report_failures _ _ _ Hend) as (ids & Hids & Hfail).
  rewrite Hf in Hfail; simpl in Hfail.
  assert (Hat : reportedAt (failures w2) = ids).
  { unfold reportedAt; rewrite Hfail, map_map; simpl. apply map_id. }
  repeat split.
  - rewrite Hat. apply (NoDup_map_inv Some).
    rewrite Hids. apply unusedKeys_NoDup, Hnd.
  - intros f Hin. rewrite Hfail in Hin.
    apply in_map_iff in Hin as (i & <- & _). reflexivity.
  - intros n Hn. rewrite Hat in Hn.
    apply Horigin. apply (In_has _ false).
    apply unusedKeys_In. rewrite <- Hids. apply in_map, Hn.
Qed.

(** A plain reference that is no reassignment target and whose symbol is
    not resolved, or has no declarations, makes the whole pass throw: no
    failure of the file is returned. *)
Theorem unresolved_reference_makes_pass_throw (sourceFile r : Node) :
  isFile sourceFile = true ->
  In r (preorder sourceFile) ->
  kind r = Identifier ->
  isReassignmentTarget r = false ->
  (forall x, In x (preorder sourceFile) ->
             ~ In (Some (id r)) (map fst (setOps' x))) ->
  (getSymbolAtLocation typeChecker r = None \/
   exists symbol, getSymbolAtLocation typeChecker r = Some symbol /\
                  getDeclarations symbol = None) ->
  apply' sourceFile = Throw TypeError.
Proof.
  intros Hfile Hr Hk Hrt Hplain Hsym. unfold applyWithProgram.
  rewrite (visitNode_file typeChecker isReassignmentTarget
             forEachDeclaredVariable sourceFile newWalker Hfile).
  apply in_split in Hr as (l1 & l2 & Hsplit).
  rewrite Hsplit, forEachM_app.
  destruct (forEachM enter' l1 newWalker) as [wa | e] eqn:Hl1; simpl;
    [| apply Throw_TypeError].
  assert (Hhas : has (Some (id r)) (_identifiers wa) = false).
  { apply (never_registered typeChecker isReassignmentTarget
             forEachDeclaredVariable (Some (id r)) l1 newWalker wa);
      [| reflexivity | exact Hl1].
    intros x Hx. apply Hplain. rewrite Hsplit; apply in_or_app; left; exact Hx. }
  assert (Hthrow : enter' r wa = Throw TypeError).
  { unfold enter, dispatch. rewrite Hk. unfold visitIdentifier.
    rewrite Hhas, Hrt. simpl.
    destruct Hsym as [Hs | (symbol & Hs & Hd)]; rewrite Hs; [reflexivity |].
    rewrite Hd; reflexivity. }
  rewrite Hthrow. reflexivity.
Qed.

(** On a file whose references all resolve, whose variable statements
    have their declaration lists and whose registered declarations have
    name tokens, the pass returns. *)
Theorem resolved_file_pass_returns (sourceFile : Node) :
  isFile sourceFile = true ->
  forallb (resolved typeChecker isReassignmentTarget) (preorder sourceFile) = true ->
  forallb (wellFormed forEachDeclaredVariable) (preorder sourceFile) = true ->
  exists fs, apply' sourceFile = Ok fs.
Proof.
  intros Hfile Hr Hw.
  destruct (applyWithProgram_total typeChecker isReassignmentTarget
              forEachDeclaredVariable sourceFile Hfile Hr Hw)
    as (w1 & w2 & _ & _ & _ & _ & Happ).
  exists (failures w2); exact Happ.
Qed.

End Pass.

End NoUnusedDeclarationMore.

(* ===================================================================== *)
(** * Proofs: more on no-unsafe-callback-scope *)
(* ===================================================================== *)

Module NoUnsafeCallbackScopeMore.
Import Ts TsFacts NoUnsafeCallbackScope NoUnsafeCallbackScopeFacts Settings.

Lemma innermost_unfold (up : list Node) (node : Node) :
  innermost up node
  = match prop "expression" node with
    | None => None
    | Some expression =>
        if isPropertyAccessExpression expression
        then innermost (node :: up) expression
        else Some {| self := expression; ancestors := node :: up |}
    end.
Proof.
  destruct node as [i k p e t cs]. unfold prop, children.
  cbn [innermost].
  generalize (mkNode i k p e t cs) as n0; intros n0.
  induction cs as [| [q c] cs IH]; cbn [lookup]; [reflexivity |].
  destruct (String.eqb "expression" q); [reflexivity | exact IH].
Qed.

(** Where the loop of [getPropertyAccessExpressionRoot] stops: at a node
    that is no property access and is the [expression] of one. *)
Lemma innermost_stops (node : Node) :
  forall up x,
    isPropertyAccessExpression node = true ->
    innermost up node = Some x ->
    isPropertyAccessExpression (self x) = false /\
    exists q rest,
      ancestors x = q :: rest /\
      isPropertyAccessExpression q = true /\
      prop "expression" q = Some (self x).
Proof.
  induction node as [i k p e t cs IH] using Node_induction.
  intros up x Hpa Hx. rewrite innermost_unfold in Hx.
  destruct (prop "expression" (mkNode i k p e t cs)) as [c |] eqn:Hc;
    [| discriminate].
  destruct (isPropertyAccessExpression c) eqn:Hcpa.
  - rewrite Forall_forall in IH.
    apply (IH ("expression", c) (lookup_In _ _ _ Hc) _ x Hcpa Hx).
  - inversion Hx; subst x; simpl. split; [exact Hcpa |].
    exists (mkNode i k p e t cs), up. repeat split; assumption.
Qed.

Section Pass.

Variable typeChecker : TypeChecker.
Variable util : Util.

Local Abbreviation isUnsafe' := (isUnsafe typeChecker util).
Local Abbreviation isUnsafeRoot' := (isUnsafeRoot typeChecker util).
Local Abbreviation validate' := (validate typeChecker util).

Ltac branches :=
  repeat (match goal with
          | |- context [if ?c then _ else _] => destruct c eqn:?
          end; cbn [andb orb negb]; try congruence).

Lemma isUnsafeRoot_self (w : Walker) (node : Located) (callback f : Node) :
  isUnsafeRoot' w node callback = Some f -> f = self node.
Proof.
  unfold isUnsafeRoot.
  destruct (findDeclaration util (self node) typeChecker) as [d |];
    branches.
Qed.

(** The root of a chain is [this] or an identifier, its parent is a
    property access, and the root-safety test on it is the test without
    the exemptions by position: a root is never exempt as a callee, a
    template tag, a child of a constructor call, of a type reference or of
    a qualified name. *)
Theorem chain_root_has_no_positional_exemption (p root : Located) :
  isPropertyAccessExpression (self p) = true ->
  getPropertyAccessExpressionRoot util p = Some root ->
  isThis util (self root) || isIdentifier (self root) = true /\
  isPropertyAccessExpression (self root) = false /\
  isKindOpt isPropertyAccessExpression (parent root) = true /\
  forall w callback,
    isUnsafeRoot' w root callback
    = rootTestOfChainRoot typeChecker util w root callback.
Proof.
  intros Hpa Hroot. unfold getPropertyAccessExpressionRoot in Hroot.
  destruct (innermost (ancestors p) (self p)) as [x |] eqn:Hx; [| discriminate].
  destruct (isThis util (self x) || isIdentifier (self x)) eqn:Hkind;
    [| discriminate].
  inversion Hroot; subst x.
  destruct (innermost_stops (self p) (ancestors p) root Hpa Hx)
    as (Hnot & q & rest & Hanc & Hq & _).
  assert (Hparent : parent root = Some q)
    by (unfold parent; rewrite Hanc; reflexivity).
  assert (Kq : kind q = PropertyAccessExpression)
    by (apply kind_eqb_eq; exact Hq).
  repeat split; try assumption.
  - rewrite Hparent; exact Hq.
  - intros w callback. unfold isUnsafeRoot, rootTestOfChainRoot.
    rewrite Hparent. cbn [isKindOpt].
    unfold isQualifiedName, isCallExpression, isTaggedTemplateExpression,
      isNewExpression, isTypeReferenceNode.
    rewrite Kq. cbn.
    destruct (isInstanceofCtor util root); [reflexivity |].
    destruct (findDeclaration util (self root) typeChecker) as [d |];
      reflexivity.
Qed.

(** Where a failure is placed: the node [isUnsafe] returns is the node
    itself when the node is bare, and the root of the chain, [this] or an
    identifier, when the node is the leaf of a chain. *)
Theorem failure_is_at_node_or_chain_root (w : Walker) (node : Located)
  (rootCallback f : Node) :
  isUnsafe' w node rootCallback = Some f ->
  (isKindOpt isPropertyAccessExpression (parent node) = false /\
   f = self node) \/
  (isPropertyAccessExpressionLeaf node = true /\
   exists p root,
     parentLocated node = Some p /\
     getPropertyAccessExpressionRoot util p = Some root /\
     f = self root /\
     isThis util (self root) || isIdentifier (self root) = true).
Proof.
  unfold isUnsafe.
  destruct (isKindOpt isPropertyAccessExpression (parent node)) eqn:Hp.
  - destruct (isPropertyAccessExpressionLeaf node) eqn:Hleaf; simpl;
      [| discriminate].
    destruct (findDeclaration util (self node) typeChecker) as [d |];
      [| discriminate].
    destruct (hasModifier (modifiers d) ReadonlyKeyword); [discriminate |].
    destruct (isTypeFlagSet (getTypeAtLocation typeChecker (self node))
                EnumLiteral); [discriminate |].
    destruct (parentLocated node) as [p |] eqn:Hpl; [| discriminate].
    destruct (getPropertyAccessExpressionRoot util p) as [root |] eqn:Hroot;
      [| discriminate].
    intros H. right. split; [reflexivity |].
    exists p, root. repeat split; try assumption.
    + revert H.
      destruct (isThis util (self root)); branches;
        try (intros H; inversion H; reflexivity).
      apply isUnsafeRoot_self.
    + unfold getPropertyAccessExpressionRoot in Hroot.
      destruct (innermost (ancestors p) (self p)) as [x |]; [| discriminate].
      destruct (isThis util (self x) || isIdentifier (self x)) eqn:Hkind;
        [| discriminate].
      inversion Hroot; subst x; exact Hkind.
  - intros H. left. split; [reflexivity |].
    apply (isUnsafeRoot_self w node rootCallback f H).
Qed.

(** The three settings only relax the rule: what is reported at a node by
    a walker that allows more is reported by one that allows less. *)
Theorem allow_settings_only_relax (w w' : Walker) (node : Located)
  (rootCallback f : Node) :
  relaxes w w' ->
  isUnsafe' w' node rootCallback = Some f ->
  isUnsafe' w node rootCallback = Some f.
Proof.
  intros (Hm & Hq & Hr).
  unfold isUnsafe, isUnsafeRoot.
  destruct (allowMethods w) eqn:Em;
    [rewrite (Hm eq_refl) |];
    (destruct (allowParameters w) eqn:Ep;
     [rewrite (Hq eq_refl) |]);
    (destruct (allowProperties w) eqn:Er;
     [rewrite (Hr eq_refl) |]);
    clear Hm Hq Hr;
    destruct (findDeclaration util (self node) typeChecker) as [d |];
    destruct (parentLocated node) as [p |];
    try destruct (getPropertyAccessExpressionRoot util p) as [root |];
    try destruct (findDeclaration util (self root) typeChecker) as [d' |];
    branches.
Qed.

(** A node whose declaration cannot be found is never reported. *)
Theorem unresolved_is_never_reported (w : Walker) (node : Located)
  (rootCallback : Node) :
  findDeclaration util (self node) typeChecker = None ->
  isUnsafe' w node rootCallback = None /\ validate' node w = w.
Proof.
  intros H.
  assert (Hany : forall w0 rc, isUnsafe' w0 node rc = None).
  { intros w0 rc. unfold isUnsafe, isUnsafeRoot. rewrite H. branches. }
  split; [apply Hany |].
  apply validate_safe. intros rc rest _. apply Hany.
Qed.

End Pass.

End NoUnsafeCallbackScopeMore.

(* ===================================================================== *)
(** * The further properties on the example files *)
(* ===================================================================== *)

Module MoreExamples.
Import Ts Fixtures ImportFixtures.

Ltac distinct :=
  repeat (constructor; [simpl; intuition congruence |]); constructor.

Ltac each_node H :=
  simpl in H; repeat (destruct H as [<- | H]; [| try contradiction]).

(** ** no-unused-declaration *)

(** [import { a as b } from "m";]: one failure, at [b]. *)
Example unusedImport_reported :
  NoUnusedDeclaration.applyWithProgram import_checker neverReassigned
    declaredVariables unusedImport
  = Ok [{| failureNode := 6;
           failureString := NoUnusedDeclaration.FAILURE_STRING |}].
Proof. vm_compute; reflexivity. Qed.

(** [foo(); function foo() {}]: the call comes before the declaration. *)
Lemma references_before_declaration_do_not_count_witness :
  exists fs,
    NoUnusedDeclaration.applyWithProgram usedBeforeDeclaration_checker
      neverReassigned declaredVariables usedBeforeDeclaration = Ok fs /\
    count_occ Nat.eq_dec (NoUnusedDeclaration.reportedAt fs) 5 = 1.
Proof.
  apply (NoUnusedDeclarationMore.references_before_declaration_do_not_count
           usedBeforeDeclaration_checker neverReassigned declaredVariables
           usedBeforeDeclaration foo_declaration 5
           (firstn 4 (preorder usedBeforeDeclaration))
           (skipn 5 (preorder usedBeforeDeclaration))).
  - reflexivity.
  - reflexivity.
  - reflexivity.
  - reflexivity.
  - reflexivity.
  - reflexivity.
  - left; reflexivity.
  - intros x Hx Hk. each_node Hx; try reflexivity;
      vm_compute in Hk; intuition congruence.
  - intros x Hx Hne Hk. each_node Hx; vm_compute in Hk, Hne;
      intuition congruence.
Defined.

(** [import { a as b } from "m";]: [b] is reported once. *)
Lemma unused_import_reported_once_witness :
  exists fs,
    NoUnusedDeclaration.applyWithProgram import_checker neverReassigned
      declaredVariables unusedImport = Ok fs /\
    count_occ Nat.eq_dec (NoUnusedDeclaration.reportedAt fs) 6 = 1.
Proof.
  apply (NoUnusedDeclarationMore.unused_import_reported_once
           import_checker neverReassigned declaredVariables
           unusedImport ab_imports 6).
  - reflexivity.
  - reflexivity.
  - reflexivity.
  - simpl; tauto.
  - left; reflexivity.
  - right; left; reflexivity.
  - intros Hin. vm_compute in Hin. intuition congruence.
  - intros x Hx Hk. each_node Hx; try reflexivity;
      vm_compute in Hk; intuition congruence.
  - intros x Hx Hne Hk. each_node Hx; vm_compute in Hk, Hne;
      intuition congruence.
Defined.

(** [import { a as b } from "m";] under a type checker that resolves no
    node: the pass returns, and nothing is reported at [a]. *)
Lemma renamed_import_source_never_reported_witness :
  kind ab_imports = NamedImports /\
  ~ In 5 (NoUnusedDeclaration.reportedAt
            [{| failureNode := 6;
                failureString := NoUnusedDeclaration.FAILURE_STRING |}]).
Proof.
  apply (NoUnusedDeclarationMore.renamed_import_source_never_reported
           (checker [] []) neverReassigned declaredVariables
           unusedImport ab_imports 5).
  - reflexivity.
  - simpl; tauto.
  - left; reflexivity.
  - intros Hin. vm_compute in Hin. intuition congruence.
  - intros x Hx Hk. each_node Hx; try reflexivity;
      vm_compute in Hk; intuition congruence.
  - vm_compute; reflexivity.
Defined.

(** [import { a as b } from "m"; b;]: nothing is reported at [b]. *)
Lemma reference_marks_import_used_witness :
  exists fs,
    NoUnusedDeclaration.applyWithProgram import_checker neverReassigned
      declaredVariables usedImport = Ok fs /\
    ~ In 6 (NoUnusedDeclaration.reportedAt fs).
Proof.
  apply (NoUnusedDeclarationMore.reference_marks_import_used
           import_checker neverReassigned declaredVariables
           usedImport ab_imports b_reference 6 3 8).
  - reflexivity.
  - reflexivity.
  - reflexivity.
  - vm_compute. distinct.
  - reflexivity.
  - reflexivity.
  - lia.
  - left; reflexivity.
  - right; left; reflexivity.
  - intros x Hx Hk. each_node Hx; try reflexivity;
      vm_compute in Hk; intuition congruence.
  - split; [reflexivity |].
    intros x Hx Hk. each_node Hx; vm_compute in Hk; intuition congruence.
  - reflexivity.
  - exists (declaredBy [ab_specifier]), [ab_specifier], ab_specifier.
    repeat split; [left; reflexivity].
Defined.

(** [function f() {}]: the one failure of the pass. *)
Lemma failures_are_distinct_registered_tokens_witness :
  NoDup (NoUnusedDeclaration.reportedAt
           [{| failureNode := 2;
               failureString := NoUnusedDeclaration.FAILURE_STRING |}]) /\
  (forall f,
      In f [{| failureNode := 2;
               failureString := NoUnusedDeclaration.FAILURE_STRING |}] ->
      failureString f = NoUnusedDeclaration.FAILURE_STRING) /\
  (forall n,
      In n (NoUnusedDeclaration.reportedAt
              [{| failureNode := 2;
                  failureString := NoUnusedDeclaration.FAILURE_STRING |}]) ->
      exists x, In x (preorder unusedFunction) /\
                In (Some n)
                   (map fst (NoUnusedDeclaration.setOps declaredVariables x))).
Proof.
  apply (NoUnusedDeclarationMore.failures_are_distinct_registered_tokens
           unusedFunction_checker neverReassigned declaredVariables
           unusedFunction); vm_compute; reflexivity.
Defined.

(** [foo;] with [foo] declared nowhere. *)
Lemma unresolved_reference_makes_pass_throw_witness :
  NoUnusedDeclaration.applyWithProgram unresolvedReference_checker
    neverReassigned declaredVariables unresolvedReference
  = Throw TypeError.
Proof.
  apply (NoUnusedDeclarationMore.unresolved_reference_makes_pass_throw
           unresolvedReference_checker neverReassigned declaredVariables
           unresolvedReference (leaf 2 Identifier 0 3 "foo")).
  - reflexivity.
  - simpl; tauto.
  - reflexivity.
  - reflexivity.
  - intros x Hx Hk. each_node Hx; vm_compute in Hk; intuition congruence.
  - left; reflexivity.
Defined.

(** [function g() { g(); }]: the pass returns. *)
Lemma resolved_file_pass_returns_witness :
  exists fs,
    NoUnusedDeclaration.applyWithProgram recursiveFunction_checker
      neverReassigned declaredVariables recursiveFunction = Ok fs.
Proof.
  apply (NoUnusedDeclarationMore.resolved_file_pass_returns
           recursiveFunction_checker neverReassigned declaredVariables
           recursiveFunction); reflexivity.
Defined.

(** ** no-unsafe-callback-scope *)

Import NoUnsafeCallbackScope.

(** Scenario C: the root of [this.v]. *)
Lemma chain_root_has_no_positional_exemption_witness :
  isThis (util []) (self (located scenarioC 17))
  || isIdentifier (self (located scenarioC 17)) = true /\
  isPropertyAccessExpression (self (located scenarioC 17)) = false /\
  isKindOpt isPropertyAccessExpression (parent (located scenarioC 17)) = true /\
  forall w callback,
    isUnsafeRoot scenarioC_checker (util []) w (located scenarioC 17) callback
    = Settings.rootTestOfChainRoot scenarioC_checker (util []) w
        (located scenarioC 17) callback.
Proof.
  apply (NoUnsafeCallbackScopeMore.chain_root_has_no_positional_exemption
           scenarioC_checker (util []) (located scenarioC 16)
           (located scenarioC 17)); reflexivity.
Defined.

(** Scenario A: the failure is at the [x] of [x = v] itself. *)
Lemma failure_is_at_node_or_chain_root_witness :
  (isKindOpt isPropertyAccessExpression (parent (located scenarioA 20)) = false /\
   A_x_reference = self (located scenarioA 20)) \/
  (isPropertyAccessExpressionLeaf (located scenarioA 20) = true /\
   exists p root,
     parentLocated (located scenarioA 20) = Some p /\
     getPropertyAccessExpressionRoot (util []) p = Some root /\
     A_x_reference = self root /\
     isThis (util []) (self root) || isIdentifier (self root) = true).
Proof.
  apply (NoUnsafeCallbackScopeMore.failure_is_at_node_or_chain_root
           scenarioA_checker (util []) (inside None [A_callback])
           (located scenarioA 20) A_callback A_x_reference).
  reflexivity.
Defined.

(** Scenario A: reported with every setting on, so with the defaults. *)
Lemma allow_settings_only_relax_witness :
  isUnsafe scenarioA_checker (util []) (inside None [A_callback])
    (located scenarioA 20) A_callback = Some A_x_reference.
Proof.
  apply (NoUnsafeCallbackScopeMore.allow_settings_only_relax
           scenarioA_checker (util []) (inside None [A_callback])
           (inside Settings.allowAll [A_callback]) (located scenarioA 20) A_callback
           A_x_reference).
  - repeat split; intros H; try reflexivity; discriminate H.
  - reflexivity.
Defined.

(** Scenario A: [list] is declared nowhere. *)
Lemma unresolved_is_never_reported_witness :
  isUnsafe scenarioA_checker (util []) (inside None [A_callback])
    (located scenarioA 12) A_callback = None /\
  validate scenarioA_checker (util []) (located scenarioA 12)
    (inside None [A_callback]) = inside None [A_callback].
Proof.
  apply (NoUnsafeCallbackScopeMore.unresolved_is_never_reported
           scenarioA_checker (util []) (inside None [A_callback])
           (located scenarioA 12) A_callback).
  reflexivity.
Defined.

End MoreExamples.
